(** * ngx-role-accessor: the RBAC core, embedded and verified

    A shallow embedding of the three algorithmic pieces of the library:

    - [LruCache]              (lib/utils/lru-cache.ts),
    - [RoleHierarchyManager]  (lib/utils/role-hierarchy.manager.ts),
    - [RoleService]           (lib/services/role.service.ts),

    over the records of lib/types/rbac.types.ts and the constants of
    lib/config/rbac.config.ts.

    Conventions of the embedding.

    - A JavaScript [string] is a Rocq [string]; [number]s that count
      milliseconds or entries are [Z]; an optional property [p?: T] is an
      [option T].
    - Truthiness is written out: [x || d], [if (x)] and [x && y] on strings
      and numbers go through [Js.truthy_string] / [Js.truthy_number]; [??]
      goes through [Js.nullish].
    - [Date.now()] is an argument [now] of every operation that reads the
      clock: all reads within one synchronous call see the same value.
    - A JavaScript [Map] is an insertion-ordered association list ([JsMap])
      where the order is observable (the LRU cache), and a [gmap] where it is
      not (the hierarchy memo).
    - A call that may [throw] returns a [Completion].  Recursion that the
      source bounds by its own cycle detection is written with fuel; running
      out of fuel is the separate completion [OutOfFuel], and
      [resolveHierarchy_total] and [validateHierarchy_total] show that it
      never happens.  The loop of [getHierarchyPath] has no bound in the
      source: its fuel is an argument, and using up every fuel is not
      terminating.
    - [Observable]s built by [of(...)] and [pipe(map(...))] emit
      synchronously on subscription; an operation of [RoleService] stands for
      the call together with one subscription.  The checks over several ids
      ([hasAnyRole], [hasAllRoles], [hasAnyPermission]) make all their calls
      first and subscribe afterwards, as [combineLatest] does.  The logger
      has no effect on the state that is modelled and is left out.
    - Not embedded: [getEffectivePermissions], which collects permission
      objects by identity, and the deprecated [setRoles], [setPermissions]
      and [setTenant], which build new objects.
    - What Angular and the timers schedule after a call returns is not part
      of the embedding: the [effect] of [setupEffects], which calls
      [clearUserCache] once more for the user of the current context, and the
      periodic [cleanup] of the caches and trimming of the audit log. *)

From Stdlib Require Import ZArith String Ascii List Bool Lia.
From Stdlib Require OrderedTypeEx.
From stdpp Require Import base option list gmap strings pretty.
Import ListNotations.

Open Scope string_scope.
Open Scope list_scope.
Open Scope Z_scope.

(* ===================================================================== *)
(** ** JavaScript primitives used by the sources *)
(* ===================================================================== *)

Module Js.

(** [if (s)] for [s : string | undefined]: defined and not empty. *)
Definition truthy_string (o : option string) : bool :=
  match o with
  | Some s => negb (String.eqb s "")
  | None => false
  end.

(** [if (n)] for [n : number | undefined]: defined and not zero. *)
Definition truthy_number (o : option Z) : bool :=
  match o with
  | Some n => negb (Z.eqb n 0)
  | None => false
  end.

(** [a ?? b]. *)
Definition nullish {A : Type} (a : option A) (b : A) : A :=
  match a with
  | Some x => x
  | None => b
  end.

(** [a ?? b] where [b] may itself be undefined. *)
Definition nullish_opt {A : Type} (a b : option A) : option A :=
  match a with
  | Some x => Some x
  | None => b
  end.

(** [xs.join(sep)]. *)
Definition join (sep : string) (xs : list string) : string :=
  String.concat sep xs.

(** [s.startsWith(p)]. *)
Definition startsWith (s p : string) : bool := String.prefix p s.

(** [s.includes(sub)]. *)
Fixpoint includes (s sub : string) : bool :=
  String.prefix sub s ||
  match s with
  | EmptyString => false
  | String _ s' => includes s' sub
  end.

(** [xs.sort()] on strings: ascending by code units.  Equal strings are
    indistinguishable, so any sorting algorithm gives the same array;
    insertion sort is used. *)
Fixpoint sort_insert (x : string) (xs : list string) : list string :=
  match xs with
  | [] => [x]
  | y :: ys => if String.leb x y then x :: y :: ys else y :: sort_insert x ys
  end.

Definition sort (xs : list string) : list string :=
  fold_right sort_insert [] xs.

(** The syntax characters of a regular-expression source.  A source none of
    whose characters is one of these is a sequence of literals. *)
Definition regex_syntax_char (c : ascii) : bool :=
  existsb (Ascii.eqb c)
    ["^"; "$"; "\"; "."; "*"; "+"; "?"; "("; ")"; "["; "]"; "{"; "}"; "|"]%char.

Fixpoint regex_literal (s : string) : bool :=
  match s with
  | EmptyString => true
  | String c s' => negb (regex_syntax_char c) && regex_literal s'
  end.

(** [xs.slice(start)]: a negative [start] counts from the end; the bounds are
    clamped to the array. *)
Definition slice_from {A : Type} (start : Z) (xs : list A) : list A :=
  let len := Z.of_nat (length xs) in
  let k := if start <? 0 then Z.max (len + start) 0 else Z.min start len in
  drop (Z.to_nat k) xs.

End Js.

(* ===================================================================== *)
(** ** lib/types/rbac.types.ts *)
(* ===================================================================== *)

Module RbacErrorCode.
Inductive t : Set :=
| INVALID_ROLE
| INVALID_PERMISSION
| INVALID_TENANT
| ACCESS_DENIED
| CONFIGURATION_ERROR
| CACHE_ERROR
| HIERARCHY_ERROR.
End RbacErrorCode.

Global Instance RbacErrorCode_eq_dec : EqDecision RbacErrorCode.t.
Proof. solve_decision. Defined.

(** [class RbacError extends Error]: message, code and the context object the
    throw site attaches. *)
Inductive RbacError : Type :=
| mkRbacError (message : string) (code : RbacErrorCode.t) (context : ErrorContext)
with ErrorContext : Type :=
| (** [{ roleId, processedRoles }] *)
  CircularContext (roleId : string) (processedRoles : list string)
| (** [{ userRoles, tenantId, error }] *)
  ResolutionContext (userRoles : list string) (tenantId : option string)
                    (error : RbacError)
| (** [{ circularPath, conflictingRole }] *)
  CircularPathContext (circularPath : list string) (conflictingRole : string)
| (** [{ roleId, parentRoleId }] *)
  ParentContext (roleId parentRoleId : string).

Definition error_message (e : RbacError) : string :=
  match e with mkRbacError m _ _ => m end.

Definition error_code (e : RbacError) : RbacErrorCode.t :=
  match e with mkRbacError _ c _ => c end.

Definition error_context (e : RbacError) : ErrorContext :=
  match e with mkRbacError _ _ x => x end.

(** The outcome of a call. *)
Inductive Completion (A : Type) : Type :=
| Normal (a : A)
| Throw (e : RbacError)
| OutOfFuel.

Arguments Normal {A} a.
Arguments Throw {A} e.
Arguments OutOfFuel {A}.

Definition bind {A B : Type} (c : Completion A) (k : A -> Completion B)
  : Completion B :=
  match c with
  | Normal a => k a
  | Throw e => Throw e
  | OutOfFuel => OutOfFuel
  end.

Notation "x <- c ;; k" := (bind c (fun x => k))
  (at level 100, c at next level, right associativity).

Module Role.
(** [interface Role].  [ref] is the identity of the object: the resolver
    collects roles in a [Set<Role>], which compares by reference.  Two
    values stand for the same object iff they agree on every field, [ref]
    included.  [description] and [metadata] are read nowhere. *)
Record t : Type := mk {
  ref : positive;
  id : string;
  name : string;
  level : option Z;
  parentRoleId : option string;
  active : bool;
  tenantId : option string
}.
End Role.
Abbreviation Role := Role.t.

Global Instance Role_eq_dec : EqDecision Role.
Proof. solve_decision. Defined.

Module Permission.
(** [interface Permission] ([description] and [conditions] are read
    nowhere). *)
Record t : Type := mk {
  id : string;
  name : string;
  resource : string;
  action : string;
  active : bool;
  tenantId : option string
}.
End Permission.
Abbreviation Permission := Permission.t.

Module UserContext.
(** [interface UserContext]; [sessionData] is an opaque payload that is
    only copied into audit entries. *)
Record t : Type := mk {
  userId : string;
  roles : list Role;
  permissions : list Permission;
  tenantId : option string;
  sessionData : option string;
  lastUpdated : Z
}.
End UserContext.
Abbreviation UserContext := UserContext.t.

Module RbacConfig.
(** [interface RbacConfig], the fields the service reads. *)
Record t : Type := mk {
  enableRoleHierarchy : bool;
  enableCaching : bool;
  cacheTimeout : Z;
  enableDebugLogging : bool;
  maxCacheSize : Z;
  strictMode : bool
}.
End RbacConfig.
Abbreviation RbacConfig := RbacConfig.t.

(** lib/config/rbac.config.ts *)
Definition DEFAULT_RBAC_CONFIG : RbacConfig :=
  {| RbacConfig.enableRoleHierarchy := true;
     RbacConfig.enableCaching := true;
     RbacConfig.cacheTimeout := 300000;
     RbacConfig.enableDebugLogging := false;
     RbacConfig.maxCacheSize := 1000;
     RbacConfig.strictMode := false |}.

Module CACHE_KEYS.
Definition ROLE_CHECK : string := "rbac:role:".
Definition PERMISSION_CHECK : string := "rbac:permission:".
End CACHE_KEYS.

Module PermissionCheckResult.
(** [interface PermissionCheckResult] ([metadata] is never set). *)
Record t : Type := mk {
  granted : bool;
  reason : option string;
  grantingRoles : option (list string);
  grantingPermissions : option (list string)
}.
End PermissionCheckResult.
Abbreviation PermissionCheckResult := PermissionCheckResult.t.

Module AuditLogEntry.
Record t : Type := mk {
  id : string;
  userId : string;
  action : string;
  resource : string;
  result : PermissionCheckResult;
  timestamp : Z;
  context : option string
}.
End AuditLogEntry.
Abbreviation AuditLogEntry := AuditLogEntry.t.

Module RbacEventType.
Inductive t : Set :=
| ROLE_ADDED
| ROLE_REMOVED
| PERMISSION_ADDED
| PERMISSION_REMOVED
| CONTEXT_UPDATED
| TENANT_CHANGED
| CACHE_CLEARED
| ACCESS_DENIED
| ACCESS_GRANTED.
End RbacEventType.

(** ['role' | 'permission'] *)
Inductive CheckType : Set := CheckRole | CheckPermission.

Definition CheckType_to_string (type : CheckType) : string :=
  match type with
  | CheckRole => "role"
  | CheckPermission => "permission"
  end.

(** The payloads the service passes to [emitEvent]. *)
Inductive EventPayload : Type :=
| ContextPayload (userId : string) (context : UserContext)
| AccessPayload (type : CheckType) (identifier : string) (userId : string)
                (result : PermissionCheckResult)
| ConfigPayload (config : RbacConfig)
| EmptyPayload.

Module RbacEvent.
Record t : Type := mk {
  type : RbacEventType.t;
  payload : EventPayload;
  timestamp : Z;
  userContext : option UserContext
}.
End RbacEvent.
Abbreviation RbacEvent := RbacEvent.t.

(** The options object of a check: the properties the service reads, and
    [context], which only reaches the cache key.  The embedding covers the
    options that [JSON.stringify] serializes: [context] stands for the text
    of a context that can be serialized.  On a context that cannot (a cyclic
    object, a [BigInt]) [JSON.stringify] throws inside [generateCacheKey] and
    the check with it; such options are not represented. *)
Module Options.
Record t : Type := mk {
  includeInherited : option bool;
  tenantId : option string;
  resource : option string;
  action : option string;
  context : option string
}.

(** [options?.[p]] *)
Definition prop {A : Type} (p : t -> option A) (options : option t) : option A :=
  match options with
  | Some o => p o
  | None => None
  end.
End Options.
Abbreviation Options := Options.t.

(** What the embedding takes from the JavaScript runtime without modelling
    it: the serializer used for cache keys, the regular-expression engine on
    sources that are not plain literals, and the random suffix of audit-entry
    ids. *)
Record JsEnv : Type := mkJsEnv {
  (** [JSON.stringify(options)], on options that it serializes *)
  JSON_stringify : Options -> string;
  (** [new RegExp(source).test(subject)], on a source that is a valid
      pattern; the pattern has no flag *)
  RegExp_test : string -> string -> bool;
  (** [Math.random().toString(36).substr(2, 9)], by number of draws so far *)
  Math_random : nat -> string
}.

(* ===================================================================== *)
(** ** A regular-expression object *)
(* ===================================================================== *)

Module RegExp.
(** A [RegExp] object as [test] uses it.  [exec i s] is the match of the
    pattern in [s] when matching starts at index [i], given by the index at
    which the match ends: the first match found from [i] on for a pattern
    that is not sticky, the match at [i] itself for a sticky one, and none
    when [i] is beyond the end of [s].  [global] and [sticky] are the flags
    [g] and [y], and [lastIndex] the property of that name. *)
Record t : Type := mk {
  exec : nat -> string -> option nat;
  global : bool;
  sticky : bool;
  lastIndex : nat
}.

Definition with_lastIndex (i : nat) (p : t) : t :=
  {| exec := exec p; global := global p; sticky := sticky p; lastIndex := i |}.

(** [pattern.test(s)].  With the flag [g] or [y] the match starts at
    [lastIndex], which becomes the end of the match, or 0 when there is
    none; without these flags the match starts at 0 and [lastIndex] is left
    as it is. *)
Definition test (p : t) (s : string) : t * bool :=
  if global p || sticky p then
    match exec p (lastIndex p) s with
    | Some e => (with_lastIndex e p, true)
    | None => (with_lastIndex 0 p, false)
    end
  else
    match exec p 0 s with
    | Some _ => (p, true)
    | None => (p, false)
    end.
End RegExp.
Abbreviation RegExp := RegExp.t.

(* ===================================================================== *)
(** ** An insertion-ordered [Map<string, V>] *)
(* ===================================================================== *)

Module JsMap.
Section JsMap.
Context {V : Type}.

Definition t : Type := list (string * V).

Definition key_is (k : string) (kv : string * V) : bool := String.eqb (fst kv) k.

(** [m.get(k)] *)
Definition get (k : string) (m : t) : option V :=
  option_map snd (List.find (key_is k) m).

(** [m.has(k)] *)
Definition has (k : string) (m : t) : bool :=
  existsb (key_is k) m.

(** [m.delete(k)] *)
Definition delete (k : string) (m : t) : t :=
  List.filter (fun kv => negb (key_is k kv)) m.

(** [m.set(k, v)]: an existing key keeps its position, a new key goes to
    the end. *)
Fixpoint set (k : string) (v : V) (m : t) : t :=
  match m with
  | [] => [(k, v)]
  | kv :: m' => if key_is k kv then (k, v) :: m' else kv :: set k v m'
  end.

(** [Array.from(m.keys())] *)
Definition keys (m : t) : list string := List.map fst m.

(** [m.size] *)
Definition size (m : t) : Z := Z.of_nat (length m).

(** [m.keys().next().value] *)
Definition first_key (m : t) : option string :=
  match m with
  | [] => None
  | kv :: _ => Some (fst kv)
  end.

End JsMap.
Arguments t : clear implicits.
End JsMap.

(* ===================================================================== *)
(** ** lib/utils/lru-cache.ts *)
(* ===================================================================== *)

Module CacheEntry.
Record t (T : Type) : Type := mk {
  value : T;
  timestamp : Z;
  ttl : Z;
  key : string
}.
Arguments mk {T}.
Arguments value {T}.
Arguments timestamp {T}.
Arguments ttl {T}.
Arguments key {T}.
End CacheEntry.
Abbreviation CacheEntry := CacheEntry.t.

Module CacheStats.
(** The object returned by [LruCache.getStats]. *)
Record t : Type := mk {
  size : Z;
  maxSize : Z;
  hitRate : Z;
  expiredEntries : Z
}.
End CacheStats.

Module LruCache.
Section LruCache.
Context {T : Type}.

Record t : Type := mk {
  cache : JsMap.t (CacheEntry T);
  maxSize : Z;
  defaultTtl : Z
}.

(** [constructor(maxSize: number = 1000, defaultTtl: number = 300000)] *)
Definition constructor (maxSize defaultTtl : option Z) : Completion t :=
  Normal {| cache := [];
            maxSize := Js.nullish maxSize 1000;
            defaultTtl := Js.nullish defaultTtl 300000 |}.

Definition with_cache (c : t) (m : JsMap.t (CacheEntry T)) : t :=
  {| cache := m; maxSize := maxSize c; defaultTtl := defaultTtl c |}.

(** [entry] is expired at [now]. *)
Definition expired (now : Z) (entry : CacheEntry T) : bool :=
  now - CacheEntry.timestamp entry >? CacheEntry.ttl entry.

(** [set(key, value, ttl?)] *)
Definition set (key : string) (value : T) (ttl : option Z) (now : Z) (c : t) : t :=
  let entry :=
    {| CacheEntry.value := value;
       CacheEntry.timestamp := now;
       CacheEntry.ttl := if Js.truthy_number ttl then Js.nullish ttl 0 else defaultTtl c;
       CacheEntry.key := key |} in
  (* Remove existing entry to update position *)
  let m1 := if JsMap.has key (cache c) then JsMap.delete key (cache c) else cache c in
  (* Add new entry *)
  let m2 := JsMap.set key entry m1 in
  (* Evict least recently used entries if cache is full *)
  if JsMap.size m2 >? maxSize c then
    let firstKey := JsMap.first_key m2 in
    if Js.truthy_string firstKey
    then with_cache c (JsMap.delete (Js.nullish firstKey "") m2)
    else with_cache c m2
  else with_cache c m2.

(** [get(key)] *)
Definition get (key : string) (now : Z) (c : t) : t * option T :=
  match JsMap.get key (cache c) with
  | None => (c, None)
  | Some entry =>
      (* Check if entry has expired *)
      if expired now entry
      then (with_cache c (JsMap.delete key (cache c)), None)
      else
        (* Move to end (most recently used) *)
        (with_cache c (JsMap.set key entry (JsMap.delete key (cache c))),
         Some (CacheEntry.value entry))
  end.

(** [has(key)] *)
Definition has (key : string) (now : Z) (c : t) : t * bool :=
  let '(c', v) := get key now c in
  (c', match v with Some _ => true | None => false end).

(** [delete(key)] *)
Definition delete (key : string) (c : t) : t * bool :=
  (with_cache c (JsMap.delete key (cache c)), JsMap.has key (cache c)).

(** [clear()] *)
Definition clear (c : t) : t := with_cache c [].

(** [cleanup()] *)
Definition cleanup (now : Z) (c : t) : t * Z :=
  (with_cache c (List.filter (fun kv => negb (expired now (snd kv))) (cache c)),
   Z.of_nat (length (List.filter (fun kv => expired now (snd kv)) (cache c)))).

(** [keys()] *)
Definition keys (c : t) : list string := JsMap.keys (cache c).

(** [invalidatePattern(pattern)] for a pattern without the flags [g] and
    [y], as [clearUserCache] builds it: [pattern.test] is then a function of
    the key, [test].  [invalidatePattern_RegExp] below is the method for any
    pattern object. *)
Definition invalidatePattern (test : string -> bool) (c : t) : t * Z :=
  (with_cache c (List.filter (fun kv => negb (test (fst kv))) (cache c)),
   Z.of_nat (length (List.filter (fun kv => test (fst kv)) (cache c)))).

(** The loop [for (const key of this.cache.keys())] of [invalidatePattern]:
    the one [pattern] object tests the keys in order and carries its
    [lastIndex] from one key to the next. *)
Fixpoint invalidate_each (pattern : RegExp) (m : JsMap.t (CacheEntry T))
  : JsMap.t (CacheEntry T) * Z * RegExp :=
  match m with
  | [] => ([], 0, pattern)
  | kv :: rest =>
      let '(pattern1, matched) := RegExp.test pattern (fst kv) in
      let '(rest', removedCount, pattern') := invalidate_each pattern1 rest in
      if matched
      then (rest', removedCount + 1, pattern')
      else (kv :: rest', removedCount, pattern')
  end.

(** [invalidatePattern(pattern)], for any pattern object; the object is
    returned with the [lastIndex] that the call leaves in it. *)
Definition invalidatePattern_RegExp (pattern : RegExp) (c : t) : t * Z * RegExp :=
  let '(m, removedCount, pattern') := invalidate_each pattern (cache c) in
  (with_cache c m, removedCount, pattern').

(** [refresh(key, newTtl?)] *)
Definition refresh (key : string) (newTtl : option Z) (now : Z) (c : t) : t * bool :=
  match JsMap.get key (cache c) with
  | None => (c, false)
  | Some entry =>
      let entry' :=
        {| CacheEntry.value := CacheEntry.value entry;
           CacheEntry.timestamp := now;
           CacheEntry.ttl :=
             if Js.truthy_number newTtl then Js.nullish newTtl 0 else defaultTtl c;
           CacheEntry.key := CacheEntry.key entry |} in
      (with_cache c (JsMap.set key entry' (JsMap.delete key (cache c))), true)
  end.

(** [getStats()] *)
Definition getStats (now : Z) (c : t) : CacheStats.t :=
  {| CacheStats.size := JsMap.size (cache c);
     CacheStats.maxSize := maxSize c;
     CacheStats.hitRate := 0;
     CacheStats.expiredEntries :=
       Z.of_nat (length (List.filter (fun kv => expired now (snd kv)) (cache c))) |}.

End LruCache.
Arguments t : clear implicits.
End LruCache.

(* ===================================================================== *)
(** ** A [Set<A>], in insertion order *)
(* ===================================================================== *)

Module JsSet.
Section JsSet.
Context {A : Type} `{EqDecision A}.

Definition t : Type := list A.

(** [s.has(x)] *)
Definition has (x : A) (s : t) : bool := bool_decide (x ∈ s).

(** [s.add(x)] *)
Definition add (x : A) (s : t) : t := if has x s then s else s ++ [x].

(** [s.delete(x)] *)
Definition delete (x : A) (s : t) : t :=
  List.filter (fun y => negb (bool_decide (y = x))) s.

End JsSet.
Arguments t : clear implicits.
End JsSet.

(* ===================================================================== *)
(** ** lib/utils/role-hierarchy.manager.ts *)
(* ===================================================================== *)

Module HierarchyStats.
(** The object returned by [RoleHierarchyManager.getHierarchyStats]. *)
Record t : Type := mk {
  totalRoles : Z;
  rootRoles : Z;
  maxDepth : Z;
  circularDependencies : list string;
  orphanedRoles : list string
}.
End HierarchyStats.

Module RoleHierarchyManager.

(** The state of the manager: [hierarchyCache = new Map<string, Role[]>()]. *)
Abbreviation t := (gmap string (list Role)).

(** [r => r.id === id] *)
Definition has_id (id : string) (r : Role) : bool := String.eqb (Role.id r) id.

(** [generateCacheKey(roles, tenantId?)] *)
Definition generateCacheKey (roles : list Role) (tenantId : option string) : string :=
  let roleIds := Js.join "," (Js.sort (List.map Role.id roles)) in
  let tenant :=
    if Js.truthy_string tenantId
    then "tenant:" +:+ Js.nullish tenantId ""
    else "no-tenant" in
  roleIds +:+ ":" +:+ tenant.

(** [tenantId && role.tenantId && role.tenantId !== tenantId] *)
Definition other_tenant (tenantId : option string) (role : Role) : bool :=
  Js.truthy_string tenantId && Js.truthy_string (Role.tenantId role)
  && negb (String.eqb (Js.nullish (Role.tenantId role) "") (Js.nullish tenantId "")).

(** [resolveRoleRecursively(role, allRoles, resolvedRoles, processedRoleIds,
    tenantId?)]; the two sets are mutated in place by the source and are
    returned here. *)
Fixpoint resolveRoleRecursively (fuel : nat) (role : Role) (allRoles : list Role)
    (resolvedRoles : JsSet.t Role) (processedRoleIds : JsSet.t string)
    (tenantId : option string)
  : Completion (JsSet.t Role * JsSet.t string) :=
  match fuel with
  | O => OutOfFuel
  | S fuel' =>
      (* Prevent infinite recursion *)
      if JsSet.has (Role.id role) processedRoleIds then
        Throw (mkRbacError
                 ("Circular dependency detected in role hierarchy: " +:+ Role.id role)
                 RbacErrorCode.HIERARCHY_ERROR
                 (CircularContext (Role.id role) processedRoleIds))
      (* Filter by tenant if specified *)
      else if other_tenant tenantId role then
        Normal (resolvedRoles, processedRoleIds)
      else
        let processed1 := JsSet.add (Role.id role) processedRoleIds in
        let resolved1 := JsSet.add role resolvedRoles in
        (* Process parent role if exists *)
        sets <-
          (if Js.truthy_string (Role.parentRoleId role) then
             match List.find (has_id (Js.nullish (Role.parentRoleId role) "")) allRoles with
             | Some parentRole =>
                 resolveRoleRecursively fuel' parentRole allRoles
                                        resolved1 processed1 tenantId
             | None => Normal (resolved1, processed1)
             end
           else Normal (resolved1, processed1)) ;;
        Normal (fst sets, JsSet.delete (Role.id role) (snd sets))
  end.

(** The loop [for (const role of userRoles)] of [resolveHierarchy]. *)
Fixpoint resolve_each (fuel : nat) (userRoles allRoles : list Role)
    (resolvedRoles : JsSet.t Role) (processedRoleIds : JsSet.t string)
    (tenantId : option string)
  : Completion (JsSet.t Role * JsSet.t string) :=
  match userRoles with
  | [] => Normal (resolvedRoles, processedRoleIds)
  | role :: rest =>
      sets <- resolveRoleRecursively fuel role allRoles
                resolvedRoles processedRoleIds tenantId ;;
      resolve_each fuel rest allRoles (fst sets) (snd sets) tenantId
  end.

(** Every path of the recursion holds distinct ids, all but the first taken
    from [allRoles], and one more call detects the repetition. *)
Definition resolve_fuel (allRoles : list Role) : nat := S (S (length allRoles)).

(** [resolveHierarchy(userRoles, allRoles, tenantId?)] *)
Definition resolveHierarchy (userRoles allRoles : list Role)
    (tenantId : option string) (hierarchyCache : t)
  : t * Completion (list Role) :=
  let cacheKey := generateCacheKey userRoles tenantId in
  (* Check cache first *)
  match hierarchyCache !! cacheKey with
  | Some cached => (hierarchyCache, Normal cached)
  | None =>
      match resolve_each (resolve_fuel allRoles) userRoles allRoles [] [] tenantId with
      | Normal sets =>
          let result := fst sets in
          (* Cache the result *)
          (<[cacheKey := result]> hierarchyCache, Normal result)
      | Throw error =>
          (hierarchyCache,
           Throw (mkRbacError "Role hierarchy resolution failed"
                    RbacErrorCode.HIERARCHY_ERROR
                    (ResolutionContext (List.map Role.id userRoles) tenantId error)))
      | OutOfFuel => (hierarchyCache, OutOfFuel)
      end
  end.

(** [hasInheritedRole(role, targetRoleId, allRoles)] *)
Definition hasInheritedRole (role : Role) (targetRoleId : string)
    (allRoles : list Role) (hierarchyCache : t) : t * Completion bool :=
  let '(hierarchyCache', hierarchy) :=
    resolveHierarchy [role] allRoles None hierarchyCache in
  (hierarchyCache', h <- hierarchy ;; Normal (existsb (has_id targetRoleId) h)).

(** [getChildRoles(parentRoleId, allRoles)] *)
Definition getChildRoles (parentRoleId : string) (allRoles : list Role) : list Role :=
  List.filter
    (fun r => match Role.parentRoleId r with
              | Some p => String.eqb p parentRoleId
              | None => false
              end)
    allRoles.

(** [new Map(roles.map(r => [r.id, r]))]: a later role replaces an earlier
    one with the same id. *)
Definition roleMap_of (roles : list Role) : gmap string Role :=
  fold_left (fun m r => <[Role.id r := r]> m) roles ∅.

(** [validateRoleHierarchyRecursively(role, roleMap, visited)]; [visited]
    is mutated in place by the source and is returned here. *)
Fixpoint validateRoleHierarchyRecursively (fuel : nat) (role : Role)
    (roleMap : gmap string Role) (visited : JsSet.t string)
  : Completion (JsSet.t string) :=
  match fuel with
  | O => OutOfFuel
  | S fuel' =>
      if negb (Js.truthy_string (Role.parentRoleId role)) then Normal visited
      else
        let parentRoleId := Js.nullish (Role.parentRoleId role) "" in
        if JsSet.has parentRoleId visited then
          Throw (mkRbacError
                   ("Circular dependency detected in role hierarchy: "
                      +:+ Js.join " -> " visited +:+ " -> " +:+ parentRoleId)
                   RbacErrorCode.HIERARCHY_ERROR
                   (CircularPathContext visited parentRoleId))
        else
          match roleMap !! parentRoleId with
          | None =>
              Throw (mkRbacError ("Parent role not found: " +:+ parentRoleId)
                       RbacErrorCode.INVALID_ROLE
                       (ParentContext (Role.id role) parentRoleId))
          | Some parentRole =>
              visited' <- validateRoleHierarchyRecursively fuel' parentRole roleMap
                            (JsSet.add parentRoleId visited) ;;
              Normal (JsSet.delete parentRoleId visited')
          end
  end.

(** The loop [for (const role of roles)] of [validateHierarchy]. *)
Fixpoint validate_each (fuel : nat) (roles : list Role) (roleMap : gmap string Role)
  : Completion unit :=
  match roles with
  | [] => Normal tt
  | role :: rest =>
      _ <- (if Js.truthy_string (Role.parentRoleId role)
            then validateRoleHierarchyRecursively fuel role roleMap [Role.id role]
            else Normal []) ;;
      validate_each fuel rest roleMap
  end.

(** [validateHierarchy(roles)] *)
Definition validateHierarchy (roles : list Role) : Completion unit :=
  let roleMap := roleMap_of roles in
  validate_each (S (length roles)) roles roleMap.

(** [clearCache(tenantId?)] *)
Definition clearCache (tenantId : option string) (hierarchyCache : t) : t :=
  if Js.truthy_string tenantId then
    (* Clear cache entries for specific tenant *)
    filter (fun kv => Js.includes (fst kv) ("tenant:" +:+ Js.nullish tenantId "") = false)
           hierarchyCache
  else
    (* Clear all cache *)
    ∅.

(** The loop [while (currentRole)] of [getHierarchyPath].  The source puts no
    bound on it and detects no cycle: the fuel is an argument, and a loop that
    uses up every fuel does not terminate. *)
Fixpoint getHierarchyPath_loop (fuel : nat) (currentRole : option Role)
    (allRoles : list Role) (path : list Role) : Completion (list Role) :=
  match fuel with
  | O => OutOfFuel
  | S fuel' =>
      match currentRole with
      | None => Normal path
      | Some current =>
          let path' := path ++ [current] in
          if Js.truthy_string (Role.parentRoleId current) then
            getHierarchyPath_loop fuel'
              (List.find (has_id (Js.nullish (Role.parentRoleId current) "")) allRoles)
              allRoles path'
          else Normal path'
      end
  end.

(** [getHierarchyPath(role, allRoles)] *)
Definition getHierarchyPath (fuel : nat) (role : Role) (allRoles : list Role)
  : Completion (list Role) :=
  getHierarchyPath_loop fuel (Some role) allRoles [].

(** The loop [while (currentRole.parentRoleId)] of [calculateRoleDepth]. *)
Fixpoint calculateRoleDepth_loop (fuel : nat) (currentRole : Role)
    (roleMap : gmap string Role) (depth : Z) : Completion Z :=
  match fuel with
  | O => OutOfFuel
  | S fuel' =>
      if Js.truthy_string (Role.parentRoleId currentRole) then
        match roleMap !! Js.nullish (Role.parentRoleId currentRole) "" with
        | None => Normal depth
        | Some parentRole => calculateRoleDepth_loop fuel' parentRole roleMap (depth + 1)
        end
      else Normal depth
  end.

(** [calculateRoleDepth(role, roleMap)] *)
Definition calculateRoleDepth (fuel : nat) (role : Role) (roleMap : gmap string Role)
  : Completion Z :=
  calculateRoleDepth_loop fuel role roleMap 1.

(** The body of the loop [for (const role of roles)] of [getHierarchyStats],
    on the three variables it updates: the [try] block validates the role
    and measures its depth, the [catch] records a hierarchy error and swallows
    any other, and the orphan test follows. *)
Definition stats_step (fuel : nat) (roleMap : gmap string Role) (role : Role)
    (acc : Z * list string * list string)
  : Completion (Z * list string * list string) :=
  let '(maxDepth, circularDependencies, orphanedRoles) := acc in
  tried <-
    (if Js.truthy_string (Role.parentRoleId role) then
       match validateRoleHierarchyRecursively fuel role roleMap [Role.id role] with
       | Normal _ =>
           depth <- calculateRoleDepth fuel role roleMap ;;
           Normal (Z.max maxDepth depth, circularDependencies)
       | Throw error =>
           if bool_decide (error_code error = RbacErrorCode.HIERARCHY_ERROR)
           then Normal (maxDepth, circularDependencies ++ [Role.id role])
           else Normal (maxDepth, circularDependencies)
       | OutOfFuel => OutOfFuel
       end
     else Normal (maxDepth, circularDependencies)) ;;
  (* Check for orphaned roles *)
  let orphanedRoles' :=
    if Js.truthy_string (Role.parentRoleId role)
       && negb (bool_decide
                  (is_Some (roleMap !! Js.nullish (Role.parentRoleId role) "")))
    then orphanedRoles ++ [Role.id role]
    else orphanedRoles in
  Normal (fst tried, snd tried, orphanedRoles').

Fixpoint stats_each (fuel : nat) (roleMap : gmap string Role) (roles : list Role)
    (acc : Z * list string * list string)
  : Completion (Z * list string * list string) :=
  match roles with
  | [] => Normal acc
  | role :: rest =>
      acc' <- stats_step fuel roleMap role acc ;;
      stats_each fuel roleMap rest acc'
  end.

(** [getHierarchyStats(roles)] *)
Definition getHierarchyStats (roles : list Role) : Completion HierarchyStats.t :=
  let roleMap := roleMap_of roles in
  let rootRoles :=
    List.filter (fun r => negb (Js.truthy_string (Role.parentRoleId r))) roles in
  acc <- stats_each (S (length roles)) roleMap roles (0, [], []) ;;
  Normal {| HierarchyStats.totalRoles := Z.of_nat (length roles);
            HierarchyStats.rootRoles := Z.of_nat (length rootRoles);
            HierarchyStats.maxDepth := fst (fst acc);
            HierarchyStats.circularDependencies := snd (fst acc);
            HierarchyStats.orphanedRoles := snd acc |}.

End RoleHierarchyManager.

(* ===================================================================== *)
(** ** lib/services/role.service.ts *)
(* ===================================================================== *)

Module PartialRbacConfig.
(** [Partial<RbacConfig>], the argument of [RoleService.configure]. *)
Record t : Type := mk {
  enableRoleHierarchy : option bool;
  enableCaching : option bool;
  cacheTimeout : option Z;
  enableDebugLogging : option bool;
  maxCacheSize : option Z;
  strictMode : option bool
}.
End PartialRbacConfig.

Module RoleService.

(** The fields of the service.  The three [BehaviorSubject]s hold their
    current value; [eventSubject] is the sequence of events emitted so far;
    [hierarchyManager] is the state of the injected manager.
    [tenantConfig] and [systemPermissions] are read nowhere. *)
Record t : Type := mk {
  config : RbacConfig;
  userContext : option UserContext;
  systemRoles : list Role;
  roles_subject : list string;
  permissions_subject : list string;
  tenant_subject : option string;
  eventSubject : list RbacEvent;
  permissionCache : LruCache.t bool;
  contextCache : LruCache.t PermissionCheckResult;
  auditLog : list AuditLogEntry;
  hierarchyManager : RoleHierarchyManager.t
}.

Definition set_contextCache (c : LruCache.t PermissionCheckResult) (s : t) : t :=
  mk (config s) (userContext s) (systemRoles s) (roles_subject s)
     (permissions_subject s) (tenant_subject s) (eventSubject s)
     (permissionCache s) c (auditLog s) (hierarchyManager s).

Definition set_permissionCache (c : LruCache.t bool) (s : t) : t :=
  mk (config s) (userContext s) (systemRoles s) (roles_subject s)
     (permissions_subject s) (tenant_subject s) (eventSubject s)
     c (contextCache s) (auditLog s) (hierarchyManager s).

Definition set_hierarchyManager (h : RoleHierarchyManager.t) (s : t) : t :=
  mk (config s) (userContext s) (systemRoles s) (roles_subject s)
     (permissions_subject s) (tenant_subject s) (eventSubject s)
     (permissionCache s) (contextCache s) (auditLog s) h.

(** [constructor(config, logger, hierarchyManager)], with a fresh manager. *)
Definition constructor (config : RbacConfig) : Completion t :=
  permissionCache <- LruCache.constructor (Some (RbacConfig.maxCacheSize config))
                       (Some (RbacConfig.cacheTimeout config)) ;;
  contextCache <- LruCache.constructor (Some (RbacConfig.maxCacheSize config))
                    (Some (RbacConfig.cacheTimeout config)) ;;
  Normal {| config := config;
            userContext := None;
            systemRoles := [];
            roles_subject := [];
            permissions_subject := [];
            tenant_subject := None;
            eventSubject := [];
            permissionCache := permissionCache;
            contextCache := contextCache;
            auditLog := [];
            hierarchyManager := ∅ |}.

(** [emitEvent(type, payload)] *)
Definition emitEvent (type : RbacEventType.t) (payload : EventPayload) (now : Z)
    (s : t) : t :=
  let event :=
    {| RbacEvent.type := type;
       RbacEvent.payload := payload;
       RbacEvent.timestamp := now;
       RbacEvent.userContext := userContext s |} in
  mk (config s) (userContext s) (systemRoles s) (roles_subject s)
     (permissions_subject s) (tenant_subject s) (eventSubject s ++ [event])
     (permissionCache s) (contextCache s) (auditLog s) (hierarchyManager s).

(** [logAudit(userId, action, resource, result)] *)
Definition logAudit (env : JsEnv) (userId action resource : string)
    (result : PermissionCheckResult) (now : Z) (s : t) : t :=
  let entry :=
    {| AuditLogEntry.id := pretty now +:+ "-" +:+ Math_random env (length (auditLog s));
       AuditLogEntry.userId := userId;
       AuditLogEntry.action := action;
       AuditLogEntry.resource := resource;
       AuditLogEntry.result := result;
       AuditLogEntry.timestamp := now;
       AuditLogEntry.context :=
         match userContext s with
         | Some context => UserContext.sessionData context
         | None => None
         end |} in
  mk (config s) (userContext s) (systemRoles s) (roles_subject s)
     (permissions_subject s) (tenant_subject s) (eventSubject s)
     (permissionCache s) (contextCache s) (auditLog s ++ [entry]) (hierarchyManager s).

(** [generateCacheKey(type, identifier, userId, options?)] *)
Definition generateCacheKey (env : JsEnv) (type : CheckType)
    (identifier userId : string) (options : option Options) : string :=
  let optionsStr :=
    match options with
    | Some o => JSON_stringify env o
    | None => ""
    end in
  let prefix :=
    match type with
    | CheckRole => CACHE_KEYS.ROLE_CHECK
    | CheckPermission => CACHE_KEYS.PERMISSION_CHECK
    end in
  prefix +:+ userId +:+ ":" +:+ identifier +:+ ":" +:+ optionsStr.

(** The source of the pattern built by [clearUserCache]; [userId] is
    interpolated as it is. *)
Definition user_pattern_source (userId : string) : string :=
  "^" +:+ CACHE_KEYS.ROLE_CHECK +:+ userId +:+ ":|^"
      +:+ CACHE_KEYS.PERMISSION_CHECK +:+ userId +:+ ":".

(** [pattern.test(key)] for that pattern.  When [userId] has no
    regular-expression syntax character the pattern is an alternative of two
    anchored literals, that is, two prefix tests; otherwise the engine of
    the environment decides.  A [userId] whose characters do not make a valid
    pattern (['a**']) makes [new RegExp] throw, and [clearUserCache] and
    [setUserContext] with it, before the event is emitted; that throw is not
    represented, and the statements about [setUserContext] are made for ids
    without syntax characters. *)
Definition user_pattern_test (env : JsEnv) (userId key : string) : bool :=
  if Js.regex_literal userId then
    Js.startsWith key (CACHE_KEYS.ROLE_CHECK +:+ userId +:+ ":")
    || Js.startsWith key (CACHE_KEYS.PERMISSION_CHECK +:+ userId +:+ ":")
  else RegExp_test env (user_pattern_source userId) key.

(** [clearUserCache(userId)] *)
Definition clearUserCache (env : JsEnv) (userId : string) (s : t) : t :=
  let pattern := user_pattern_test env userId in
  let '(permissionCache', _) := LruCache.invalidatePattern pattern (permissionCache s) in
  let '(contextCache', _) := LruCache.invalidatePattern pattern (contextCache s) in
  set_contextCache contextCache' (set_permissionCache permissionCache' s).

(** [setUserContext(context)] *)
Definition setUserContext (env : JsEnv) (context : UserContext) (now : Z) (s : t) : t :=
  (* Update signals, and legacy observables for backward compatibility *)
  let s1 :=
    mk (config s) (Some context) (systemRoles s)
       (List.map Role.id (UserContext.roles context))
       (List.map Permission.id (UserContext.permissions context))
       (if Js.truthy_string (UserContext.tenantId context)
        then UserContext.tenantId context else None)
       (eventSubject s) (permissionCache s) (contextCache s) (auditLog s)
       (hierarchyManager s) in
  (* Clear caches when context changes *)
  let s2 := clearUserCache env (UserContext.userId context) s1 in
  (* Emit event *)
  emitEvent RbacEventType.CONTEXT_UPDATED
    (ContextPayload (UserContext.userId context) context) now s2.

(** [clearAllCaches()] *)
Definition clearAllCaches (now : Z) (s : t) : t :=
  let s1 := set_permissionCache (LruCache.clear (permissionCache s)) s in
  let s2 := set_contextCache (LruCache.clear (contextCache s1)) s1 in
  let s3 := set_hierarchyManager
              (RoleHierarchyManager.clearCache None (hierarchyManager s2)) s2 in
  emitEvent RbacEventType.CACHE_CLEARED EmptyPayload now s3.

(** [checkRoleAccess(roleId, context, options?)]; the only state it touches
    is the memo of the hierarchy manager. *)
Definition checkRoleAccess (roleId : string) (context : UserContext)
    (options : option Options) (s : t)
  : RoleHierarchyManager.t * Completion PermissionCheckResult :=
  let includeInherited :=
    Js.nullish (Options.prop Options.includeInherited options)
               (RbacConfig.enableRoleHierarchy (config s)) in
  let tenantId :=
    Js.nullish_opt (Options.prop Options.tenantId options)
                   (UserContext.tenantId context) in
  (* Filter roles by tenant if specified *)
  let rolesToCheck :=
    if Js.truthy_string tenantId then
      List.filter
        (fun r => negb (Js.truthy_string (Role.tenantId r))
                  || String.eqb (Js.nullish (Role.tenantId r) "") (Js.nullish tenantId ""))
        (UserContext.roles context)
    else UserContext.roles context in
  (* Direct role check *)
  let hasDirectRole :=
    existsb (fun r => String.eqb (Role.id r) roleId && Role.active r) rolesToCheck in
  let notFound :=
    {| PermissionCheckResult.granted := false;
       PermissionCheckResult.reason :=
         Some ("Role '" +:+ roleId +:+ "' not found in user's roles");
       PermissionCheckResult.grantingRoles := None;
       PermissionCheckResult.grantingPermissions := None |} in
  if hasDirectRole then
    (hierarchyManager s,
     Normal {| PermissionCheckResult.granted := true;
               PermissionCheckResult.reason := Some "Direct role assignment";
               PermissionCheckResult.grantingRoles := Some [roleId];
               PermissionCheckResult.grantingPermissions := None |})
  (* Hierarchical role check if enabled *)
  else if includeInherited then
    let allRoles := systemRoles s in
    let '(h, resolved) :=
      RoleHierarchyManager.resolveHierarchy rolesToCheck allRoles tenantId
        (hierarchyManager s) in
    (h,
     effectiveRoles <- resolved ;;
     let hasInheritedRole :=
       existsb (fun r => String.eqb (Role.id r) roleId && Role.active r)
               effectiveRoles in
     if hasInheritedRole then
       let grantingRoles :=
         List.map Role.id
           (List.filter (fun r => String.eqb (Role.id r) roleId) effectiveRoles) in
       Normal {| PermissionCheckResult.granted := true;
                 PermissionCheckResult.reason := Some "Inherited role assignment";
                 PermissionCheckResult.grantingRoles := Some grantingRoles;
                 PermissionCheckResult.grantingPermissions := None |}
     else Normal notFound)
  else (hierarchyManager s, Normal notFound).

(** [checkPermissionAccess(permissionId, context, options?)] *)
Definition checkPermissionAccess (permissionId : string) (context : UserContext)
    (options : option Options) : PermissionCheckResult :=
  let resource := Options.prop Options.resource options in
  let action := Options.prop Options.action options in
  let pair_given := Js.truthy_string resource && Js.truthy_string action in
  let pair_matches (p : Permission) :=
    String.eqb (Permission.resource p) (Js.nullish resource "")
    && String.eqb (Permission.action p) (Js.nullish action "") in
  (* Direct permission check *)
  let hasDirectPermission :=
    existsb
      (fun p =>
         if negb (Permission.active p) then false
         else if String.eqb (Permission.id p) permissionId then true
         else if pair_given then pair_matches p
         else false)
      (UserContext.permissions context) in
  if hasDirectPermission then
    let grantingPermissions :=
      List.map Permission.id
        (List.filter
           (fun p => String.eqb (Permission.id p) permissionId
                     || (pair_given && pair_matches p))
           (UserContext.permissions context)) in
    {| PermissionCheckResult.granted := true;
       PermissionCheckResult.reason := Some "Direct permission assignment";
       PermissionCheckResult.grantingRoles := None;
       PermissionCheckResult.grantingPermissions := Some grantingPermissions |}
  else
    {| PermissionCheckResult.granted := false;
       PermissionCheckResult.reason :=
         Some ("Permission '" +:+ permissionId +:+ "' not found");
       PermissionCheckResult.grantingRoles := None;
       PermissionCheckResult.grantingPermissions := None |}.

(** [executePermissionCheck(type, identifier, context, options?)] *)
Definition executePermissionCheck (type : CheckType) (identifier : string)
    (context : UserContext) (options : option Options) (s : t)
  : RoleHierarchyManager.t * Completion PermissionCheckResult :=
  match type with
  | CheckRole => checkRoleAccess identifier context options s
  | CheckPermission =>
      (hierarchyManager s, Normal (checkPermissionAccess identifier context options))
  end.

(** What the [map] of [performPermissionCheck] does with a computed
    result: cache it, log the check, emit the event. *)
Definition record_check (env : JsEnv) (type : CheckType) (identifier : string)
    (context : UserContext) (cacheKey : string) (result : PermissionCheckResult)
    (now : Z) (s : t) : t :=
  (* Cache the result *)
  let s1 :=
    if RbacConfig.enableCaching (config s)
    then set_contextCache (LruCache.set cacheKey result None now (contextCache s)) s
    else s in
  (* Log the check *)
  let s2 :=
    logAudit env (UserContext.userId context)
      ("check_" +:+ CheckType_to_string type) identifier result now s1 in
  (* Emit event *)
  emitEvent
    (if PermissionCheckResult.granted result
     then RbacEventType.ACCESS_GRANTED else RbacEventType.ACCESS_DENIED)
    (AccessPayload type identifier (UserContext.userId context) result) now s2.

(** [performPermissionCheck(type, identifier, options?)].
    [executePermissionCheck] runs while the observable is being built, so
    an error of the hierarchy manager is thrown to the caller before
    [catchError] is installed; nothing inside the [map] can throw. *)
Definition performPermissionCheck (env : JsEnv) (type : CheckType)
    (identifier : string) (options : option Options) (now : Z) (s : t)
  : t * Completion PermissionCheckResult :=
  match userContext s with
  | None =>
      let result :=
        {| PermissionCheckResult.granted := false;
           PermissionCheckResult.reason := Some "No user context available";
           PermissionCheckResult.grantingRoles := None;
           PermissionCheckResult.grantingPermissions := None |} in
      (logAudit env "anonymous" ("check_" +:+ CheckType_to_string type)
                identifier result now s,
       Normal result)
  | Some context =>
      let cacheKey :=
        generateCacheKey env type identifier (UserContext.userId context) options in
      (* Check cache first *)
      let '(s0, cached) :=
        if RbacConfig.enableCaching (config s) then
          let '(c, v) := LruCache.get cacheKey now (contextCache s) in
          (set_contextCache c s, v)
        else (s, None) in
      match cached with
      | Some result => (s0, Normal result)
      | None =>
          (* Perform actual check *)
          let '(h, outcome) := executePermissionCheck type identifier context options s0 in
          match outcome with
          | Normal result =>
              (record_check env type identifier context cacheKey result now
                            (set_hierarchyManager h s0),
               Normal result)
          | Throw e => (set_hierarchyManager h s0, Throw e)
          | OutOfFuel => (set_hierarchyManager h s0, OutOfFuel)
          end
      end
  end.

(** [hasRole(roleId, options?)] *)
Definition hasRole (env : JsEnv) (roleId : string) (options : option Options)
    (now : Z) (s : t) : t * Completion bool :=
  let '(s', r) := performPermissionCheck env CheckRole roleId options now s in
  (s', result <- r ;; Normal (PermissionCheckResult.granted result)).

(** [hasPermission(permissionId, options?)] *)
Definition hasPermission (env : JsEnv) (permissionId : string)
    (options : option Options) (now : Z) (s : t) : t * Completion bool :=
  let '(s', r) := performPermissionCheck env CheckPermission permissionId options now s in
  (s', result <- r ;; Normal (PermissionCheckResult.granted result)).

(** [checkPermissionDetailed(type, identifier, options?)] *)
Definition checkPermissionDetailed (env : JsEnv) (type : CheckType)
    (identifier : string) (options : option Options) (now : Z) (s : t)
  : t * Completion PermissionCheckResult :=
  performPermissionCheck env type identifier options now s.

(** [getEffectiveRoles()], subscribed once; an error thrown inside its [map]
    reaches the subscriber as the error of the observable. *)
Definition getEffectiveRoles (s : t) : t * Completion (list Role) :=
  match userContext s with
  | None => (s, Normal [])
  | Some context =>
      match UserContext.roles context with
      | [] => (s, Normal [])
      | _ =>
          if RbacConfig.enableRoleHierarchy (config s) then
            let '(h, resolved) :=
              RoleHierarchyManager.resolveHierarchy (UserContext.roles context)
                (systemRoles s) (UserContext.tenantId context) (hierarchyManager s) in
            (set_hierarchyManager h s, resolved)
          else (s, Normal (UserContext.roles context))
      end
  end.

(** [getAuditLog(limit = 100)] *)
Definition getAuditLog (limit : option Z) (s : t) : list AuditLogEntry :=
  Js.slice_from (- Js.nullish limit 100) (auditLog s).

(** [configure(newConfig)]: [{ ...this.config, ...newConfig }], then the
    event.  A property of [newConfig] is absent or holds a value; one that is
    present with the value [undefined] is not represented. *)
Definition configure (newConfig : PartialRbacConfig.t) (now : Z) (s : t) : t :=
  let merged :=
    {| RbacConfig.enableRoleHierarchy :=
         Js.nullish (PartialRbacConfig.enableRoleHierarchy newConfig)
                    (RbacConfig.enableRoleHierarchy (config s));
       RbacConfig.enableCaching :=
         Js.nullish (PartialRbacConfig.enableCaching newConfig)
                    (RbacConfig.enableCaching (config s));
       RbacConfig.cacheTimeout :=
         Js.nullish (PartialRbacConfig.cacheTimeout newConfig)
                    (RbacConfig.cacheTimeout (config s));
       RbacConfig.enableDebugLogging :=
         Js.nullish (PartialRbacConfig.enableDebugLogging newConfig)
                    (RbacConfig.enableDebugLogging (config s));
       RbacConfig.maxCacheSize :=
         Js.nullish (PartialRbacConfig.maxCacheSize newConfig)
                    (RbacConfig.maxCacheSize (config s));
       RbacConfig.strictMode :=
         Js.nullish (PartialRbacConfig.strictMode newConfig)
                    (RbacConfig.strictMode (config s)) |} in
  let s1 :=
    mk merged (userContext s) (systemRoles s) (roles_subject s)
       (permissions_subject s) (tenant_subject s) (eventSubject s)
       (permissionCache s) (contextCache s) (auditLog s) (hierarchyManager s) in
  emitEvent RbacEventType.CONTEXT_UPDATED (ConfigPayload merged) now s1.

(** The observable that [performPermissionCheck] returns: [of(result)], with
    nothing left to do, or the computed result piped through the [map] that
    caches, logs and emits when the observable is subscribed. *)
Inductive Observable : Type :=
| Of (result : PermissionCheckResult)
| Computed (type : CheckType) (identifier : string) (context : UserContext)
           (cacheKey : string) (result : PermissionCheckResult).

(** The call of [performPermissionCheck], without the subscription. *)
Definition performPermissionCheck_call (env : JsEnv) (type : CheckType)
    (identifier : string) (options : option Options) (now : Z) (s : t)
  : t * Completion Observable :=
  match userContext s with
  | None =>
      let result :=
        {| PermissionCheckResult.granted := false;
           PermissionCheckResult.reason := Some "No user context available";
           PermissionCheckResult.grantingRoles := None;
           PermissionCheckResult.grantingPermissions := None |} in
      (logAudit env "anonymous" ("check_" +:+ CheckType_to_string type)
                identifier result now s,
       Normal (Of result))
  | Some context =>
      let cacheKey :=
        generateCacheKey env type identifier (UserContext.userId context) options in
      let '(s0, cached) :=
        if RbacConfig.enableCaching (config s) then
          let '(c, v) := LruCache.get cacheKey now (contextCache s) in
          (set_contextCache c s, v)
        else (s, None) in
      match cached with
      | Some result => (s0, Normal (Of result))
      | None =>
          let '(h, outcome) := executePermissionCheck type identifier context options s0 in
          (set_hierarchyManager h s0,
           result <- outcome ;; Normal (Computed type identifier context cacheKey result))
      end
  end.

(** The subscription to such an observable. *)
Definition subscribe (env : JsEnv) (o : Observable) (now : Z) (s : t)
  : t * PermissionCheckResult :=
  match o with
  | Of result => (s, result)
  | Computed type identifier context cacheKey result =>
      (record_check env type identifier context cacheKey result now s, result)
  end.

(** [ids.map(id => this.performPermissionCheck(type, id, options))]: the
    calls, in order; an error thrown by one of them ends the [map]. *)
Fixpoint perform_each (env : JsEnv) (type : CheckType) (ids : list string)
    (options : option Options) (now : Z) (s : t)
  : t * Completion (list Observable) :=
  match ids with
  | [] => (s, Normal [])
  | id :: rest =>
      let '(s1, o) := performPermissionCheck_call env type id options now s in
      match o with
      | Normal first =>
          let '(s2, os) := perform_each env type rest options now s1 in
          (s2, others <- os ;; Normal (first :: others))
      | Throw e => (s1, Throw e)
      | OutOfFuel => (s1, OutOfFuel)
      end
  end.

(** The subscription of [combineLatest] to its sources, in order; each emits
    its one value at once. *)
Fixpoint subscribe_each (env : JsEnv) (os : list Observable) (now : Z) (s : t)
  : t * list PermissionCheckResult :=
  match os with
  | [] => (s, [])
  | o :: rest =>
      let '(s1, result) := subscribe env o now s in
      let '(s2, results) := subscribe_each env rest now s1 in
      (s2, result :: results)
  end.

(** [combineLatest(checks).pipe(map(combine), distinctUntilChanged())],
    subscribed once. *)
Definition combined_check (env : JsEnv) (type : CheckType) (ids : list string)
    (options : option Options) (combine : list bool -> bool) (now : Z) (s : t)
  : t * Completion bool :=
  let '(s1, os) := perform_each env type ids options now s in
  match os with
  | Normal observables =>
      let '(s2, results) := subscribe_each env observables now s1 in
      (s2, Normal (combine (List.map PermissionCheckResult.granted results)))
  | Throw e => (s1, Throw e)
  | OutOfFuel => (s1, OutOfFuel)
  end.

(** [hasAnyRole(roleIds, options?)] *)
Definition hasAnyRole (env : JsEnv) (roleIds : list string) (options : option Options)
    (now : Z) (s : t) : t * Completion bool :=
  match roleIds with
  | [] => (s, Normal false)
  | _ => combined_check env CheckRole roleIds options (existsb (fun b => b)) now s
  end.

(** [hasAllRoles(roleIds, options?)] *)
Definition hasAllRoles (env : JsEnv) (roleIds : list string) (options : option Options)
    (now : Z) (s : t) : t * Completion bool :=
  match roleIds with
  | [] => (s, Normal true)
  | _ => combined_check env CheckRole roleIds options (forallb (fun b => b)) now s
  end.

(** [hasAnyPermission(permissionIds, options?)] *)
Definition hasAnyPermission (env : JsEnv) (permissionIds : list string)
    (options : option Options) (now : Z) (s : t) : t * Completion bool :=
  match permissionIds with
  | [] => (s, Normal false)
  | _ =>
      combined_check env CheckPermission permissionIds options
        (existsb (fun b => b)) now s
  end.

End RoleService.

(* ===================================================================== *)
(** ** Notions used by the statements about the cache *)
(* ===================================================================== *)

Module SetCall.
(** The arguments of one call [set(key, value, ttl?)] and the time of the
    call. *)
Record t (T : Type) : Type := mk {
  key : string;
  value : T;
  ttl : option Z;
  now : Z
}.
Arguments mk {T}.
Arguments key {T}.
Arguments value {T}.
Arguments ttl {T}.
Arguments now {T}.
End SetCall.

(** A sequence of calls of [set], in order. *)
Definition sets {T : Type} (calls : list (SetCall.t T)) (c : LruCache.t T)
  : LruCache.t T :=
  fold_left
    (fun c x => LruCache.set (SetCall.key x) (SetCall.value x) (SetCall.ttl x)
                             (SetCall.now x) c)
    calls c.

(** The keys of a recency order after [k] has been moved to its end. *)
Definition touched (k : string) (order : list string) : list string :=
  List.filter (fun x => negb (String.eqb x k)) order ++ [k].

(** The time-to-live that [set] and [refresh] store for their optional
    argument: [ttl || this.defaultTtl]. *)
Definition stored_ttl {T : Type} (ttl : option Z) (c : LruCache.t T) : Z :=
  if Js.truthy_number ttl then Js.nullish ttl 0 else LruCache.defaultTtl c.

(* ===================================================================== *)
(** ** Notions used by the statements about the hierarchy *)
(* ===================================================================== *)

(** The role that [allRoles.find] gives for the parent reference of [r], when
    [r] has one and it resolves. *)
Definition parent_of (allRoles : list Role) (r : Role) : option Role :=
  if Js.truthy_string (Role.parentRoleId r)
  then List.find
         (RoleHierarchyManager.has_id (Js.nullish (Role.parentRoleId r) "")) allRoles
  else None.

(** The [n]-th role up the parent chain of [r]. *)
Fixpoint ancestor (allRoles : list Role) (n : nat) (r : Role) : option Role :=
  match n with
  | O => Some r
  | S n' =>
      match parent_of allRoles r with
      | Some p => ancestor allRoles n' p
      | None => None
      end
  end.

(** [l] is the whole parent chain of [r]: it starts with [r], every role is
    followed by its parent, and the last one has no parent or a parent
    reference that does not resolve. *)
Inductive ancestry (allRoles : list Role) : Role -> list Role -> Prop :=
| ancestry_root (r : Role) :
    parent_of allRoles r = None -> ancestry allRoles r [r]
| ancestry_step (r p : Role) (l : list Role) :
    parent_of allRoles r = Some p -> ancestry allRoles p l ->
    ancestry allRoles r (r :: l).

(** A cycle is reachable from [r]: some role id comes back along its parent
    chain. *)
Definition revisits (allRoles : list Role) (r : Role) : Prop :=
  exists (i j : nat) (a b : Role),
    (i < j)%nat
    /\ ancestor allRoles i r = Some a
    /\ ancestor allRoles j r = Some b
    /\ Role.id a = Role.id b.

(** Every parent reference of [allRoles] resolves. *)
Definition no_dangling (allRoles : list Role) : Prop :=
  forall r, r ∈ allRoles ->
            Js.truthy_string (Role.parentRoleId r) = true ->
            is_Some (parent_of allRoles r).

(** [s] is a sibling of [x]: another role with the same parent reference. *)
Definition sibling (s x : Role) : Prop :=
  Js.truthy_string (Role.parentRoleId x) = true
  /\ Role.parentRoleId s = Role.parentRoleId x
  /\ Role.id s <> Role.id x.

(* ===================================================================== *)
(** ** Notions used by the statements about the service *)
(* ===================================================================== *)

(** [key] is scoped to [userId]: it starts with the prefix of a role check or
    of a permission check of that user. *)
Definition scoped_to (userId key : string) : bool :=
  Js.startsWith key (CACHE_KEYS.ROLE_CHECK +:+ userId +:+ ":")
  || Js.startsWith key (CACHE_KEYS.PERMISSION_CHECK +:+ userId +:+ ":").


(** The tenant of a role check: the option of the call, else the tenant of
    the context. *)
Definition tenant_of (context : UserContext) (options : option Options)
  : option string :=
  Js.nullish_opt (Options.prop Options.tenantId options) (UserContext.tenantId context).

(** The decision cache does not serve the check: caching is off, or [get]
    misses under the key of the check. *)
Definition cache_miss (env : JsEnv) (type : CheckType) (identifier : string)
    (options : option Options) (now : Z) (s : RoleService.t) (context : UserContext)
  : Prop :=
  RbacConfig.enableCaching (RoleService.config s) = true ->
  snd (LruCache.get
         (RoleService.generateCacheKey env type identifier
            (UserContext.userId context) options)
         now (RoleService.contextCache s))
  = None.

(** [permission] satisfies a check for [permissionId] under [options]. *)
Definition satisfies (permissionId : string) (options : option Options)
    (p : Permission) : Prop :=
  Permission.active p = true
  /\ (Permission.id p = permissionId
      \/ exists resource action,
           Options.prop Options.resource options = Some resource
           /\ Options.prop Options.action options = Some action
           /\ resource <> "" /\ action <> ""
           /\ Permission.resource p = resource
           /\ Permission.action p = action).

(** The value that an observable of [performPermissionCheck] emits. *)
Definition emitted (o : RoleService.Observable) : PermissionCheckResult :=
  match o with
  | RoleService.Of result => result
  | RoleService.Computed _ _ _ _ result => result
  end.

(** An environment for the examples: options are serialized property by
    property, without escaping; no pattern with syntax characters matches. *)
Definition example_stringify (o : Options) : string :=
  let quote := String (Ascii.ascii_of_nat 34) EmptyString in
  let text (name : string) (v : option string) : list string :=
    match v with
    | Some x => [quote +:+ name +:+ quote +:+ ":" +:+ quote +:+ x +:+ quote]
    | None => []
    end in
  let flag (name : string) (v : option bool) : list string :=
    match v with
    | Some b => [quote +:+ name +:+ quote +:+ ":" +:+ (if b then "true" else "false")]
    | None => []
    end in
  "{" +:+ Js.join ","
            (flag "includeInherited" (Options.includeInherited o)
             ++ text "tenantId" (Options.tenantId o)
             ++ text "resource" (Options.resource o)
             ++ text "action" (Options.action o)
             ++ text "context" (Options.context o))
      +:+ "}".

Definition example_env : JsEnv :=
  {| JSON_stringify := example_stringify;
     RegExp_test := fun _ _ => false;
     Math_random := fun _ => "4fzzzxjyl" |}.

(** The service right after its construction with the default
    configuration. *)
Definition fresh_service : RoleService.t :=
  {| RoleService.config := DEFAULT_RBAC_CONFIG;
     RoleService.userContext := None;
     RoleService.systemRoles := [];
     RoleService.roles_subject := [];
     RoleService.permissions_subject := [];
     RoleService.tenant_subject := None;
     RoleService.eventSubject := [];
     RoleService.permissionCache := LruCache.mk [] 1000 300000;
     RoleService.contextCache := LruCache.mk [] 1000 300000;
     RoleService.auditLog := [];
     RoleService.hierarchyManager := ∅ |}.

(* ===================================================================== *)
(** ** The insertion-ordered map *)
(* ===================================================================== *)

Section JsMap_facts.
Context {V : Type}.
Implicit Types (m : JsMap.t V) (k : string) (v : V).

Lemma JsMap_has_keys k m : JsMap.has k m = true <-> k ∈ JsMap.keys m.
Proof.
  unfold JsMap.has, JsMap.keys, JsMap.key_is.
  induction m as [|[k' v'] m IH]; simpl.
  - split; [discriminate | intros H; inversion H].
  - rewrite orb_true_iff, IH, elem_of_cons, String.eqb_eq. intuition.
Qed.

Lemma JsMap_has_fresh k m : k ∉ JsMap.keys m -> JsMap.has k m = false.
Proof.
  intros H. destruct (JsMap.has k m) eqn:E; [|reflexivity].
  apply JsMap_has_keys in E. contradiction.
Qed.

Lemma JsMap_set_fresh k v m : k ∉ JsMap.keys m -> JsMap.set k v m = m ++ [(k, v)].
Proof.
  unfold JsMap.keys, JsMap.key_is.
  induction m as [|[k' v'] m IH]; simpl; intros H; [reflexivity|].
  apply not_elem_of_cons in H as [Hne H].
  unfold JsMap.key_is. simpl.
  destruct (String.eqb_spec k' k) as [->|_]; [contradiction|].
  now rewrite IH.
Qed.

Lemma JsMap_delete_fresh k m : k ∉ JsMap.keys m -> JsMap.delete k m = m.
Proof.
  unfold JsMap.delete, JsMap.keys, JsMap.key_is.
  induction m as [|[k' v'] m IH]; simpl; intros H; [reflexivity|].
  apply not_elem_of_cons in H as [Hne H].
  destruct (String.eqb_spec k' k) as [->|_]; [contradiction|].
  simpl. now rewrite IH.
Qed.

Lemma JsMap_keys_delete k m :
  JsMap.keys (JsMap.delete k m)
  = List.filter (fun x => negb (String.eqb x k)) (JsMap.keys m).
Proof.
  unfold JsMap.delete, JsMap.keys, JsMap.key_is.
  induction m as [|[k' v'] m IH]; simpl; [reflexivity|].
  destruct (String.eqb k' k); simpl; now rewrite IH.
Qed.

Lemma JsMap_delete_gone k m : k ∉ JsMap.keys (JsMap.delete k m).
Proof.
  rewrite JsMap_keys_delete, list_elem_of_In, filter_In.
  intros [_ H]. now rewrite String.eqb_refl in H.
Qed.

Lemma JsMap_keys_app m1 m2 :
  JsMap.keys (m1 ++ m2) = JsMap.keys m1 ++ JsMap.keys m2.
Proof. apply map_app. Qed.

Lemma JsMap_get_last k v m : k ∉ JsMap.keys m -> JsMap.get k (m ++ [(k, v)]) = Some v.
Proof.
  unfold JsMap.get, JsMap.keys, JsMap.key_is.
  induction m as [|[k' v'] m IH]; simpl; intros H.
  - now rewrite String.eqb_refl.
  - apply not_elem_of_cons in H as [Hne H].
    destruct (String.eqb_spec k' k) as [->|_]; [contradiction|]. now apply IH.
Qed.

Lemma JsMap_get_keys k m : is_Some (JsMap.get k m) -> k ∈ JsMap.keys m.
Proof.
  unfold JsMap.get, JsMap.keys, JsMap.key_is. intros [v H].
  destruct (List.find _ m) as [[k' v']|] eqn:E; [|discriminate].
  apply find_some in E as [Hin Hk]. simpl in Hk. apply String.eqb_eq in Hk as <-.
  apply list_elem_of_In, in_map_iff. now exists (k', v').
Qed.

(** Deleting the first key of a map without repeated keys drops its first
    entry. *)
Lemma JsMap_delete_first k v m :
  k ∉ JsMap.keys m -> JsMap.delete k ((k, v) :: m) = m.
Proof.
  intros H. unfold JsMap.delete at 1. simpl. unfold JsMap.key_is at 1. simpl.
  rewrite String.eqb_refl. simpl. now apply JsMap_delete_fresh.
Qed.

End JsMap_facts.

(* ===================================================================== *)
(** ** The LRU cache *)
(* ===================================================================== *)

Section LruCache_facts.
Context {T : Type}.
Implicit Types (c : LruCache.t T) (k : string) (v : T).

Lemma LruCache_maxSize_set k v ttl now c :
  LruCache.maxSize (LruCache.set k v ttl now c) = LruCache.maxSize c.
Proof.
  unfold LruCache.set.
  repeat match goal with |- context [if ?b then _ else _] => destruct b end;
    reflexivity.
Qed.

(** [set] of a key that is not in the cache: the entry goes to the end, and
    the first entry leaves if that makes the cache too large and its key is
    truthy. *)
Lemma LruCache_set_fresh k v ttl now c :
  k ∉ LruCache.keys c ->
  let entry :=
    {| CacheEntry.value := v;
       CacheEntry.timestamp := now;
       CacheEntry.ttl :=
         if Js.truthy_number ttl then Js.nullish ttl 0 else LruCache.defaultTtl c;
       CacheEntry.key := k |} in
  let m2 := LruCache.cache c ++ [(k, entry)] in
  LruCache.cache (LruCache.set k v ttl now c)
  = if JsMap.size m2 >? LruCache.maxSize c
    then if Js.truthy_string (JsMap.first_key m2)
         then JsMap.delete (Js.nullish (JsMap.first_key m2) "") m2
         else m2
    else m2.
Proof.
  intros Hk. unfold LruCache.set, LruCache.keys in *. simpl.
  rewrite (JsMap_has_fresh _ _ Hk), (JsMap_set_fresh _ _ _ Hk).
  repeat match goal with |- context [if ?b then _ else _] => destruct b end;
    reflexivity.
Qed.

(** While there is room, [set] of new keys appends them. *)
Lemma sets_with_room (calls : list (SetCall.t T)) c :
  NoDup (LruCache.keys c ++ List.map SetCall.key calls) ->
  Z.of_nat (length (LruCache.cache c)) + Z.of_nat (length calls) <= LruCache.maxSize c ->
  LruCache.keys (sets calls c) = LruCache.keys c ++ List.map SetCall.key calls
  /\ LruCache.maxSize (sets calls c) = LruCache.maxSize c.
Proof.
  revert c. induction calls as [|x calls IH]; intros c Hnd Hroom; simpl.
  - now rewrite app_nil_r.
  - set (c' := LruCache.set (SetCall.key x) (SetCall.value x) (SetCall.ttl x)
                            (SetCall.now x) c).
    assert (Hfresh : SetCall.key x ∉ LruCache.keys c).
    { apply NoDup_app in Hnd as (_ & Hdisj & _). intros Hin.
      apply (Hdisj _ Hin). simpl. apply elem_of_cons. now left. }
    assert (Hcache : LruCache.cache c'
                     = LruCache.cache c
                         ++ [(SetCall.key x,
                              {| CacheEntry.value := SetCall.value x;
                                 CacheEntry.timestamp := SetCall.now x;
                                 CacheEntry.ttl :=
                                   if Js.truthy_number (SetCall.ttl x)
                                   then Js.nullish (SetCall.ttl x) 0
                                   else LruCache.defaultTtl c;
                                 CacheEntry.key := SetCall.key x |})]).
    { unfold c'. rewrite LruCache_set_fresh by exact Hfresh. simpl.
      unfold JsMap.size. rewrite length_app. simpl in *.
      destruct (Z.gtb_spec (Z.of_nat (length (LruCache.cache c) + 1)) (LruCache.maxSize c));
        [lia | reflexivity]. }
    assert (Hkeys : LruCache.keys c' = LruCache.keys c ++ [SetCall.key x]).
    { unfold LruCache.keys. rewrite Hcache. apply JsMap_keys_app. }
    destruct (IH c') as [IH1 IH2].
    + rewrite Hkeys, <- app_assoc. exact Hnd.
    + rewrite Hcache, length_app. unfold c'. rewrite LruCache_maxSize_set.
      simpl in *. lia.
    + rewrite IH1, IH2, Hkeys, <- app_assoc. unfold c'.
      now rewrite LruCache_maxSize_set.
Qed.

(** [set] of a new key into a full cache evicts the first entry. *)
Lemma LruCache_set_overflow k v ttl now c :
  k ∉ LruCache.keys c ->
  NoDup (LruCache.keys c) ->
  Forall (fun x => x <> "") (LruCache.keys c) ->
  Z.of_nat (length (LruCache.cache c)) = LruCache.maxSize c ->
  1 <= LruCache.maxSize c ->
  LruCache.keys (LruCache.set k v ttl now c) = tl (LruCache.keys c) ++ [k].
Proof.
  intros Hk Hnd Hne Hlen Hmax.
  unfold LruCache.keys at 1. rewrite LruCache_set_fresh by exact Hk. simpl.
  unfold LruCache.keys in *.
  destruct (LruCache.cache c) as [|[k0 e0] m] eqn:Ec; simpl in *; [lia|].
  unfold JsMap.size. simpl. rewrite length_app. simpl.
  destruct (Z.gtb_spec (Z.of_nat (S (length m + 1))) (LruCache.maxSize c)); [|lia].
  apply Forall_cons in Hne as [Hk0 _].
  assert (String.eqb k0 "" = false) as -> by now apply String.eqb_neq.
  simpl.
  apply NoDup_cons in Hnd as [Hk0m _].
  apply not_elem_of_cons in Hk as [Hkk0 Hkm].
  unfold JsMap.key_is. simpl. rewrite String.eqb_refl. simpl.
  rewrite JsMap_delete_fresh.
  - now rewrite JsMap_keys_app.
  - rewrite JsMap_keys_app. simpl. intros Hin.
    apply elem_of_app in Hin as [Hin|Hin]; [contradiction|].
    apply list_elem_of_singleton in Hin. congruence.
Qed.

(** A successful [get] moves the key to the end of the order and keeps the
    other entries. *)
Lemma LruCache_get_hit k now c c' v :
  LruCache.get k now c = (c', Some v) ->
  LruCache.keys c' = touched k (LruCache.keys c)
  /\ LruCache.maxSize c' = LruCache.maxSize c
  /\ k ∈ LruCache.keys c.
Proof.
  unfold LruCache.get. intros H.
  destruct (JsMap.get k (LruCache.cache c)) as [entry|] eqn:Eg; [|discriminate].
  destruct (LruCache.expired now entry); [discriminate|].
  injection H as <- _. unfold LruCache.keys, touched. simpl.
  rewrite JsMap_set_fresh by apply JsMap_delete_gone.
  rewrite JsMap_keys_app, JsMap_keys_delete. simpl. repeat split.
  apply JsMap_get_keys. rewrite Eg. now eexists.
Qed.

End LruCache_facts.

Lemma touched_length (k : string) (order : list string) :
  NoDup order -> k ∈ order -> length (touched k order) = length order.
Proof.
  unfold touched. rewrite length_app. simpl.
  induction order as [|x order IH]; intros Hnd Hin; [inversion Hin|].
  apply NoDup_cons in Hnd as [Hx Hnd]. simpl.
  destruct (String.eqb_spec x k) as [->|Hne]; simpl.
  - assert (List.filter (fun x => negb (String.eqb x k)) order = order) as ->; [|lia].
    clear IH Hnd Hin. induction order as [|y order IH]; [reflexivity|]. simpl.
    apply not_elem_of_cons in Hx as [Hy Hx].
    destruct (String.eqb_spec y k) as [->|_]; [contradiction|]. simpl. now rewrite IH.
  - apply elem_of_cons in Hin as [->|Hin]; [contradiction|].
    specialize (IH Hnd Hin). lia.
Qed.

Lemma touched_NoDup (k : string) (order : list string) :
  NoDup order -> NoDup (touched k order).
Proof.
  intros Hnd. unfold touched. apply NoDup_app. split; [|split].
  - apply NoDup_ListNoDup, List.NoDup_filter, NoDup_ListNoDup, Hnd.
  - intros x Hx Hk. apply list_elem_of_singleton in Hk as ->.
    apply list_elem_of_In, filter_In in Hx as [_ Hx]. now rewrite String.eqb_refl in Hx.
  - apply NoDup_singleton.
Qed.

Lemma touched_elem (k x : string) (order : list string) :
  x ∈ touched k order -> x = k \/ x ∈ order.
Proof.
  unfold touched. intros H. apply elem_of_app in H as [H|H].
  - right. apply list_elem_of_In, filter_In in H as [H _]. now apply list_elem_of_In.
  - left. now apply list_elem_of_singleton in H.
Qed.

Section LruCache_lookup.
Context {T : Type}.
Implicit Types (c : LruCache.t T) (k : string) (v : T).

Lemma JsMap_get_delete_ne {V : Type} k k0 (m : JsMap.t V) :
  k0 <> k -> JsMap.get k (JsMap.delete k0 m) = JsMap.get k m.
Proof.
  intros Hne. unfold JsMap.get, JsMap.delete, JsMap.key_is.
  induction m as [|[k' v'] m IH]; simpl; [reflexivity|].
  destruct (String.eqb_spec k' k0) as [->|Hk0]; simpl.
  - destruct (String.eqb_spec k0 k); [contradiction | exact IH].
  - destruct (String.eqb_spec k' k); [reflexivity | exact IH].
Qed.

(** What [set] leaves under its key, in a cache that can hold an entry. *)
Lemma LruCache_set_stores k v ttl now c :
  1 <= LruCache.maxSize c ->
  JsMap.get k (LruCache.cache (LruCache.set k v ttl now c))
  = Some {| CacheEntry.value := v;
            CacheEntry.timestamp := now;
            CacheEntry.ttl :=
              if Js.truthy_number ttl then Js.nullish ttl 0 else LruCache.defaultTtl c;
            CacheEntry.key := k |}.
Proof.
  intros Hmax. unfold LruCache.set.
  set (entry := CacheEntry.mk v now _ k).
  set (m1 := if JsMap.has k (LruCache.cache c) then _ else _).
  assert (Hm1 : k ∉ JsMap.keys m1).
  { unfold m1. destruct (JsMap.has k (LruCache.cache c)) eqn:E.
    - apply JsMap_delete_gone.
    - intros Hin. apply JsMap_has_keys in Hin. congruence. }
  rewrite (JsMap_set_fresh _ _ _ Hm1).
  assert (Hget : JsMap.get k (m1 ++ [(k, entry)]) = Some entry)
    by now apply JsMap_get_last.
  destruct (JsMap.size (m1 ++ [(k, entry)]) >? LruCache.maxSize c) eqn:Esz;
    [|exact Hget].
  destruct m1 as [|[k0 e0] m1'].
  - unfold JsMap.size in Esz. simpl in Esz. apply Z.gtb_lt in Esz. lia.
  - change (JsMap.first_key (((k0, e0) :: m1') ++ [(k, entry)])) with (Some k0).
    unfold Js.truthy_string, Js.nullish.
    destruct (negb (String.eqb k0 "")); [|exact Hget].
    unfold LruCache.with_cache. cbn [LruCache.cache].
    rewrite JsMap_get_delete_ne; [exact Hget|].
    apply not_elem_of_cons in Hm1 as [Hne _]. simpl in Hne. congruence.
Qed.

End LruCache_lookup.

(** C8, as stated, fails at [maxSize = 0]: the constructor returns a cache,
    and that cache evicts what was just inserted. *)
Lemma constructor_accepts_zero_maxSize :
  (forall e, @LruCache.constructor bool (Some 0) None <> Throw e)
  /\ exists c : LruCache.t bool,
       LruCache.constructor (Some 0) None = Normal c
       /\ LruCache.keys (LruCache.set "k" true None 0 c) = [].
Proof.
  split; [discriminate|]. eexists. split; reflexivity.
Qed.

(** C8, amended: constructing the cache with [maxSize <= 0] is accepted; the
    constructor validates nothing and never fails.  The cache it returns is
    empty and stays empty under every [set] of a non-empty key. *)
Theorem constructor_accepts_nonpositive_maxSize
    (T : Type) (maxSize : Z) (defaultTtl : option Z) :
  maxSize <= 0 ->
  exists c : LruCache.t T,
    LruCache.constructor (Some maxSize) defaultTtl = Normal c
    /\ LruCache.maxSize c = maxSize
    /\ LruCache.keys c = []
    /\ forall key value ttl now,
         key <> "" -> LruCache.set key value ttl now c = c.
Proof.
  intros Hmax. eexists. split; [reflexivity|]. repeat split.
  intros key value ttl now Hkey. unfold LruCache.set. simpl.
  unfold JsMap.size. simpl. change (Z.of_nat 1) with 1.
  destruct (Z.gtb_spec 1 maxSize); [|lia].
  apply String.eqb_neq in Hkey. rewrite Hkey. simpl.
  unfold JsMap.key_is. simpl. now rewrite String.eqb_refl.
Qed.

Lemma constructor_accepts_nonpositive_maxSize_witness :
  -1 <= 0
  /\ exists c : LruCache.t bool,
       LruCache.constructor (Some (-1)) None = Normal c
       /\ LruCache.maxSize c = -1
       /\ LruCache.keys c = []
       /\ forall key value ttl now,
            key <> "" -> LruCache.set key value ttl now c = c.
Proof.
  split; [lia|]. apply (constructor_accepts_nonpositive_maxSize bool (-1) None). lia.
Defined.

(** C7, as stated, fails when the entry is read at the instant it was
    written: the stored TTL is zero, and [get] still returns the value. *)
Lemma zero_ttl_hit_at_same_instant :
  exists c : LruCache.t bool,
    LruCache.constructor (Some 10) (Some 0) = Normal c
    /\ JsMap.get "k" (LruCache.cache (LruCache.set "k" true (Some 0) 5 c))
       = Some {| CacheEntry.value := true; CacheEntry.timestamp := 5;
                 CacheEntry.ttl := 0; CacheEntry.key := "k" |}
    /\ snd (LruCache.get "k" 5 (LruCache.set "k" true (Some 0) 5 c)) = Some true.
Proof.
  eexists. split; [reflexivity|]. split; reflexivity.
Qed.

(** C7, amended: an entry whose stored TTL is zero expires on the first
    access strictly after its timestamp ([get] returns a miss and deletes the
    entry); an access at the instant of its timestamp still returns the value,
    because the test for expiry is [now - timestamp > ttl]. *)
Theorem zero_ttl_entry_expires_after_its_instant
    (T : Type) (c : LruCache.t T) (key : string) (entry : CacheEntry T) (now : Z) :
  JsMap.get key (LruCache.cache c) = Some entry ->
  CacheEntry.ttl entry = 0 ->
  (CacheEntry.timestamp entry < now ->
   snd (LruCache.get key now c) = None
   /\ key ∉ LruCache.keys (fst (LruCache.get key now c)))
  /\ (now <= CacheEntry.timestamp entry ->
      snd (LruCache.get key now c) = Some (CacheEntry.value entry)).
Proof.
  intros Hget Httl. unfold LruCache.get, LruCache.expired. rewrite Hget, Httl.
  split; intros Hnow.
  - destruct (Z.gtb_spec (now - CacheEntry.timestamp entry) 0); [|lia].
    simpl. split; [reflexivity|]. apply JsMap_delete_gone.
  - destruct (Z.gtb_spec (now - CacheEntry.timestamp entry) 0); [lia|]. reflexivity.
Qed.

Lemma zero_ttl_entry_expires_after_its_instant_witness :
  let c : LruCache.t bool :=
    LruCache.set "k" true (Some 0) 5
      {| LruCache.cache := []; LruCache.maxSize := 10; LruCache.defaultTtl := 0 |} in
  let entry :=
    {| CacheEntry.value := true; CacheEntry.timestamp := 5;
       CacheEntry.ttl := 0; CacheEntry.key := "k" |} in
  (5 < 6 ->
   snd (LruCache.get "k" 6 c) = None /\ "k" ∉ LruCache.keys (fst (LruCache.get "k" 6 c)))
  /\ (6 <= 5 -> snd (LruCache.get "k" 6 c) = Some true).
Proof.
  intros c entry.
  apply (zero_ttl_entry_expires_after_its_instant bool c "k" entry 6); reflexivity.
Defined.

(** A zero [ttl] argument is falsy in [ttl || this.defaultTtl]: [set] stores
    the default TTL of the cache in its place. *)
Example set_zero_ttl_stores_default :
  exists c : LruCache.t bool,
    LruCache.constructor (Some 10) None = Normal c
    /\ JsMap.get "k" (LruCache.cache (LruCache.set "k" true (Some 0) 5 c))
       = Some {| CacheEntry.value := true; CacheEntry.timestamp := 5;
                 CacheEntry.ttl := 300000; CacheEntry.key := "k" |}
    /\ snd (LruCache.get "k" 6 (LruCache.set "k" true (Some 0) 5 c)) = Some true.
Proof.
  eexists. split; [reflexivity|]. split; reflexivity.
Qed.

(** C6, as stated, fails for [maxSize = 1]: the only key of the cache is read
    by a successful [get] and is still the one the next insertion evicts. *)
Lemma touched_key_evicted_at_capacity_one :
  exists c0 c1 : LruCache.t bool,
    LruCache.constructor (Some 1) None = Normal c0
    /\ LruCache.get "a" 1 (LruCache.set "a" true None 0 c0) = (c1, Some true)
    /\ LruCache.keys (LruCache.set "b" false None 2 c1) = ["b"].
Proof.
  do 2 eexists. split; [reflexivity|]. split; reflexivity.
Qed.

(** C6, amended: for a cache constructed with [maxSize >= 1], inserting
    [maxSize + 1] distinct non-empty keys leaves exactly [maxSize] entries
    and evicts the first key inserted.  If one of the first [maxSize] keys is
    read by a successful [get] just before the last insertion, exactly
    [maxSize] entries remain, the key evicted is the first of the order in
    which the read key has moved to the end, and the read key survives
    whenever [maxSize >= 2]. *)
Theorem overflow_evicts_least_recently_used
    (T : Type) (maxSize : Z) (defaultTtl : option Z) (c0 : LruCache.t T)
    (calls : list (SetCall.t T)) (last : SetCall.t T) :
  LruCache.constructor (Some maxSize) defaultTtl = Normal c0 ->
  1 <= maxSize ->
  Z.of_nat (length calls) = maxSize ->
  NoDup (List.map SetCall.key (calls ++ [last])) ->
  Forall (fun x => SetCall.key x <> "") calls ->
  let order := List.map SetCall.key calls in
  (LruCache.keys (sets (calls ++ [last]) c0) = tl order ++ [SetCall.key last]
   /\ Z.of_nat (length (LruCache.keys (sets (calls ++ [last]) c0))) = maxSize)
  /\ forall k now c v,
       LruCache.get k now (sets calls c0) = (c, Some v) ->
       LruCache.keys (sets [last] c) = tl (touched k order) ++ [SetCall.key last]
       /\ Z.of_nat (length (LruCache.keys (sets [last] c))) = maxSize
       /\ (2 <= maxSize -> k ∈ LruCache.keys (sets [last] c)).
Proof.
  intros Hc0 Hmax Hlen Hnd Hne order.
  injection Hc0 as <-.
  rewrite map_app in Hnd. fold order in Hnd. simpl in Hnd.
  apply NoDup_app in Hnd as (Hnd & Hdisj & _).
  assert (Hlast : SetCall.key last ∉ order).
  { intros Hin. apply (Hdisj _ Hin), list_elem_of_singleton. reflexivity. }
  assert (Horder : length order = length calls) by apply length_map.
  assert (Hne' : Forall (fun x => x <> "") order).
  { unfold order. apply Forall_map. exact Hne. }
  set (empty := LruCache.mk [] maxSize (Js.nullish defaultTtl 300000) : LruCache.t T).
  destruct (sets_with_room calls empty) as [Hkeys Hsize]; simpl.
  { exact Hnd. }
  { lia. }
  simpl in Hkeys, Hsize. fold order in Hkeys.
  set (full := sets calls empty) in *.
  assert (Hfull : Z.of_nat (length (LruCache.cache full)) = maxSize).
  { unfold LruCache.keys, JsMap.keys in Hkeys.
    rewrite <- (length_map fst), Hkeys. lia. }
  split.
  - unfold sets. rewrite fold_left_app. fold (sets calls empty). fold full. simpl.
    rewrite LruCache_set_overflow; rewrite ?Hkeys, ?Hsize; try assumption.
    split; [reflexivity|].
    rewrite length_app. simpl. destruct order; simpl in *; lia.
  - intros k now c v Hget.
    apply LruCache_get_hit in Hget as (Hkc & Hmc & Hk). rewrite Hkeys in Hkc, Hk.
    assert (Htl : length (touched k order) = length order)
      by now apply touched_length.
    simpl.
    rewrite LruCache_set_overflow; rewrite ?Hkc, ?Hmc, ?Hsize; try assumption.
    + split; [reflexivity|]. split.
      * rewrite length_app. simpl.
        destruct (touched k order); simpl in *; lia.
      * intros H2. apply elem_of_app. left. unfold touched in *.
        rewrite length_app in Htl. simpl in Htl.
        destruct (List.filter _ order) as [|x rest]; simpl in *; [lia|].
        apply elem_of_app. right. apply list_elem_of_singleton. reflexivity.
    + intros Hin. apply touched_elem in Hin as [Heq|Hin]; [|contradiction].
      rewrite <- Heq in Hk. contradiction.
    + now apply touched_NoDup.
    + apply Forall_forall. intros x Hx.
      rewrite Forall_forall in Hne'.
      apply touched_elem in Hx as [->|Hx]; now apply Hne'.
    + unfold LruCache.keys, JsMap.keys in Hkc.
      rewrite <- (length_map fst), Hkc. lia.
Qed.

Lemma overflow_evicts_least_recently_used_witness :
  let c0 : LruCache.t bool :=
    {| LruCache.cache := []; LruCache.maxSize := 2; LruCache.defaultTtl := 300000 |} in
  let calls := [SetCall.mk "a" true None 0; SetCall.mk "b" false None 1] in
  let last := SetCall.mk "c" true None 3 in
  (LruCache.keys (sets (calls ++ [last]) c0) = ["b"; "c"]
   /\ Z.of_nat (length (LruCache.keys (sets (calls ++ [last]) c0))) = 2)
  /\ forall k now c v,
       LruCache.get k now (sets calls c0) = (c, Some v) ->
       LruCache.keys (sets [last] c) = tl (touched k ["a"; "b"]) ++ ["c"]
       /\ Z.of_nat (length (LruCache.keys (sets [last] c))) = 2
       /\ (2 <= 2 -> k ∈ LruCache.keys (sets [last] c)).
Proof.
  intros c0 calls last.
  apply (overflow_evicts_least_recently_used bool 2 None c0 calls last).
  - reflexivity.
  - lia.
  - reflexivity.
  - compute_done.
  - repeat constructor; discriminate.
Defined.

(** The guard [if (firstKey)] takes the empty string for a missing key: when
    the least recently used key is [""], nothing is evicted and the cache
    grows beyond [maxSize]. *)
Example empty_first_key_is_not_evicted :
  exists c0 : LruCache.t bool,
    LruCache.constructor (Some 1) None = Normal c0
    /\ LruCache.keys (LruCache.set "a" false None 1 (LruCache.set "" true None 0 c0))
       = [""; "a"].
Proof.
  eexists. split; reflexivity.
Qed.

(* ===================================================================== *)
(** ** Sets in insertion order *)
(* ===================================================================== *)

Section JsSet_facts.
Context {A : Type} `{EqDecision A}.
Implicit Types (s : JsSet.t A) (x : A).

Lemma JsSet_has_elem x s : JsSet.has x s = true <-> x ∈ s.
Proof. unfold JsSet.has. apply bool_decide_eq_true. Qed.

Lemma JsSet_has_fresh x s : JsSet.has x s = false <-> x ∉ s.
Proof. unfold JsSet.has. apply bool_decide_eq_false. Qed.

Lemma JsSet_add_fresh x s : x ∉ s -> JsSet.add x s = s ++ [x].
Proof. intros H. unfold JsSet.add. now apply JsSet_has_fresh in H as ->. Qed.

Lemma JsSet_delete_fresh x s : x ∉ s -> JsSet.delete x s = s.
Proof.
  unfold JsSet.delete. induction s as [|y s IH]; simpl; intros Hx; [reflexivity|].
  apply not_elem_of_cons in Hx as [Hne Hx].
  rewrite bool_decide_eq_false_2 by congruence. simpl. now rewrite IH.
Qed.

Lemma JsSet_delete_last x s : x ∉ s -> JsSet.delete x (s ++ [x]) = s.
Proof.
  intros Hx. unfold JsSet.delete. rewrite List.filter_app. simpl.
  rewrite bool_decide_eq_true_2 by reflexivity. simpl. rewrite app_nil_r.
  now apply JsSet_delete_fresh.
Qed.

(** Adding, in order, elements that are new and distinct appends them. *)
Lemma JsSet_add_all s (l : list A) :
  NoDup (s ++ l) -> fold_left (fun acc x => JsSet.add x acc) l s = s ++ l.
Proof.
  revert s. induction l as [|x l IH]; intros s Hnd; simpl.
  - now rewrite app_nil_r.
  - assert (Hx : x ∉ s).
    { apply NoDup_app in Hnd as (_ & Hdisj & _). intros Hin.
      apply (Hdisj _ Hin). apply elem_of_cons. now left. }
    rewrite (JsSet_add_fresh _ _ Hx), IH; rewrite <- app_assoc; [reflexivity|exact Hnd].
Qed.

End JsSet_facts.

(* ===================================================================== *)
(** ** The hierarchy resolver *)
(* ===================================================================== *)

Section Resolver_facts.
Variable allRoles : list Role.
Implicit Types (role r p : Role) (resolved : JsSet.t Role) (processed : JsSet.t string).

Lemma other_tenant_falsy tenantId role :
  Js.truthy_string tenantId = false ->
  RoleHierarchyManager.other_tenant tenantId role = false.
Proof. intros H. unfold RoleHierarchyManager.other_tenant. now rewrite H. Qed.

(** One unfolding of the recursion, with the parent looked up by
    [parent_of]. *)
Lemma resolve_step fuel role resolved processed tenantId :
  RoleHierarchyManager.resolveRoleRecursively
    (S fuel) role allRoles resolved processed tenantId
  = if JsSet.has (Role.id role) processed then
      Throw (mkRbacError
               ("Circular dependency detected in role hierarchy: " +:+ Role.id role)
               RbacErrorCode.HIERARCHY_ERROR
               (CircularContext (Role.id role) processed))
    else if RoleHierarchyManager.other_tenant tenantId role then
      Normal (resolved, processed)
    else
      sets <-
        match parent_of allRoles role with
        | Some p =>
            RoleHierarchyManager.resolveRoleRecursively fuel p allRoles
              (JsSet.add role resolved) (JsSet.add (Role.id role) processed) tenantId
        | None => Normal (JsSet.add role resolved, JsSet.add (Role.id role) processed)
        end ;;
      Normal (fst sets, JsSet.delete (Role.id role) (snd sets)).
Proof.
  simpl. unfold parent_of.
  destruct (JsSet.has _ _); [reflexivity|].
  destruct (RoleHierarchyManager.other_tenant _ _); [reflexivity|].
  destruct (Js.truthy_string _); reflexivity.
Qed.

Lemma parent_of_in role p : parent_of allRoles role = Some p -> p ∈ allRoles.
Proof.
  unfold parent_of. destruct (Js.truthy_string _); [|discriminate].
  intros H. apply find_some in H as [H _]. now apply list_elem_of_In.
Qed.

(** A call that returns normally leaves [processedRoleIds] as it found it. *)
Lemma resolve_restores fuel role resolved processed tenantId resolved' processed' :
  RoleHierarchyManager.resolveRoleRecursively
    fuel role allRoles resolved processed tenantId = Normal (resolved', processed') ->
  processed' = processed.
Proof.
  revert role resolved processed resolved' processed'.
  induction fuel as [|fuel IH]; intros role resolved processed resolved' processed' H;
    [discriminate|].
  rewrite resolve_step in H.
  destruct (JsSet.has _ _) eqn:Ehas; [discriminate|].
  destruct (RoleHierarchyManager.other_tenant _ _); [now injection H|].
  apply JsSet_has_fresh in Ehas. rewrite (JsSet_add_fresh _ _ Ehas) in H.
  destruct (parent_of allRoles role) as [p|].
  - destruct (RoleHierarchyManager.resolveRoleRecursively _ _ _ _ _ _)
      as [[resolved2 processed2]| |] eqn:E; try discriminate.
    apply IH in E as ->. simpl in H. injection H as _ <-.
    now apply JsSet_delete_last.
  - simpl in H. injection H as _ <-. now apply JsSet_delete_last.
Qed.

(** Along a parent chain without a repeated id, none of whose roles the
    tenant filter excludes, the recursion collects the chain. *)
Lemma resolve_ancestry role l :
  ancestry allRoles role l ->
  forall fuel resolved processed tenantId,
    Forall (fun x => RoleHierarchyManager.other_tenant tenantId x = false) l ->
    (length l <= fuel)%nat ->
    NoDup (processed ++ List.map Role.id l) ->
    RoleHierarchyManager.resolveRoleRecursively
      fuel role allRoles resolved processed tenantId
    = Normal (fold_left (fun acc x => JsSet.add x acc) l resolved, processed).
Proof.
  induction 1 as [r Hroot | r p l Hparent Hchain IH];
    intros fuel resolved processed tenantId Htenant Hfuel Hnd;
    (destruct fuel as [|fuel]; [simpl in Hfuel; lia|]);
    apply Forall_cons in Htenant as [Hr_tenant Htenant];
    rewrite resolve_step, Hr_tenant.
  - assert (Hr : Role.id r ∉ processed).
    { apply NoDup_app in Hnd as (_ & Hdisj & _). intros Hin.
      apply (Hdisj _ Hin). simpl. apply elem_of_cons. now left. }
    apply JsSet_has_fresh in Hr as Hhas. rewrite Hhas, Hroot. simpl.
    now rewrite (JsSet_add_fresh _ _ Hr), JsSet_delete_last.
  - assert (Hr : Role.id r ∉ processed).
    { apply NoDup_app in Hnd as (_ & Hdisj & _). intros Hin.
      apply (Hdisj _ Hin). simpl. apply elem_of_cons. now left. }
    apply JsSet_has_fresh in Hr as Hhas. rewrite Hhas, Hparent.
    rewrite (JsSet_add_fresh _ _ Hr).
    rewrite (IH fuel (JsSet.add r resolved) (processed ++ [Role.id r]) tenantId Htenant).
    + simpl. now rewrite JsSet_delete_last.
    + simpl in Hfuel. lia.
    + rewrite <- app_assoc. exact Hnd.
Qed.


(** The fuel is never used up: the calls on the stack hold distinct ids, all
    but the first being ids of [allRoles]. *)
Lemma resolve_never_out_of_fuel (first : string) fuel role resolved processed tenantId :
  NoDup processed ->
  (forall y, y ∈ processed -> y ∈ first :: List.map Role.id allRoles) ->
  Role.id role ∈ first :: List.map Role.id allRoles ->
  (length allRoles + 2 <= fuel + length processed)%nat ->
  RoleHierarchyManager.resolveRoleRecursively
    fuel role allRoles resolved processed tenantId <> OutOfFuel.
Proof.
  revert role resolved processed.
  assert (Hbound : forall ids : list string,
             NoDup ids ->
             (forall y, y ∈ ids -> y ∈ first :: List.map Role.id allRoles) ->
             (length ids <= S (length allRoles))%nat).
  { intros ids Hnd Hin.
    rewrite <- (length_map Role.id allRoles).
    change (S (length (List.map Role.id allRoles)))
      with (length (first :: List.map Role.id allRoles)).
    apply NoDup_incl_length; [now apply NoDup_ListNoDup|].
    intros y Hy. apply list_elem_of_In, Hin, list_elem_of_In, Hy. }
  induction fuel as [|fuel IH]; intros role resolved processed Hnd Hin Hrole Hfuel.
  - specialize (Hbound processed Hnd Hin). simpl in Hfuel. lia.
  - rewrite resolve_step.
    destruct (JsSet.has _ _) eqn:Ehas; [discriminate|].
    destruct (RoleHierarchyManager.other_tenant _ _); [discriminate|].
    apply JsSet_has_fresh in Ehas. rewrite (JsSet_add_fresh _ _ Ehas).
    destruct (parent_of allRoles role) as [p|] eqn:Ep; [|discriminate].
    assert (Hnd' : NoDup (processed ++ [Role.id role])).
    { apply NoDup_app. split; [exact Hnd|]. split; [|apply NoDup_singleton].
      intros y Hy Hy'. apply list_elem_of_singleton in Hy'. subst y. contradiction. }
    assert (Hin' : forall y, y ∈ processed ++ [Role.id role] ->
                             y ∈ first :: List.map Role.id allRoles).
    { intros y Hy. apply elem_of_app in Hy as [Hy|Hy]; [now apply Hin|].
      apply list_elem_of_singleton in Hy as ->. exact Hrole. }
    specialize (IH p (JsSet.add role resolved) (processed ++ [Role.id role]) Hnd' Hin').
    destruct (RoleHierarchyManager.resolveRoleRecursively _ _ _ _ _ _);
      [discriminate | discriminate |].
    exfalso. apply IH; [|rewrite length_app; simpl; lia|reflexivity].
    apply elem_of_cons. right. apply list_elem_of_In, in_map, list_elem_of_In.
    now apply parent_of_in with role.
Qed.

End Resolver_facts.

Section Ancestry_facts.
Variable allRoles : list Role.
Implicit Types (r child : Role) (l : list Role).

Lemma ancestor_add (k n : nat) r :
  ancestor allRoles (k + n) r
  = match ancestor allRoles k r with
    | Some a => ancestor allRoles n a
    | None => None
    end.
Proof.
  revert r. induction k as [|k IH]; intros r; simpl; [reflexivity|].
  destruct (parent_of allRoles r); [apply IH | reflexivity].
Qed.

Lemma ancestor_succ (n : nat) r :
  ancestor allRoles (S n) r
  = match ancestor allRoles n r with
    | Some a => parent_of allRoles a
    | None => None
    end.
Proof.
  replace (S n) with (n + 1)%nat by lia. rewrite ancestor_add.
  destruct (ancestor allRoles n r) as [a|]; [|reflexivity].
  simpl. now destruct (parent_of allRoles a).
Qed.

Lemma ancestry_lookup r l :
  ancestry allRoles r l -> forall n, ancestor allRoles n r = l !! n.
Proof.
  induction 1 as [r Hroot | r p l Hparent _ IH]; intros [|n]; simpl; try reflexivity.
  - now rewrite Hroot.
  - rewrite Hparent. apply IH.
Qed.

Lemma ancestry_tail_in r l :
  ancestry allRoles r l -> forall x, x ∈ tl l -> x ∈ allRoles.
Proof.
  induction 1 as [r Hroot | r p l Hparent Hchain IH]; simpl; intros x Hx.
  - inversion Hx.
  - destruct Hchain as [p Hp | p q l Hq Hchain]; simpl in *.
    + apply list_elem_of_singleton in Hx as ->. now apply parent_of_in with r.
    + apply elem_of_cons in Hx as [->|Hx]; [now apply parent_of_in with r | now apply IH].
Qed.

Lemma NoDup_ids l : NoDup (List.map Role.id l) -> NoDup l.
Proof.
  intros H. apply NoDup_ListNoDup. apply NoDup_ListNoDup in H.
  now apply NoDup_map_inv in H.
Qed.

Lemma ancestry_length r l :
  ancestry allRoles r l -> NoDup (List.map Role.id l) ->
  (length l <= S (length allRoles))%nat.
Proof.
  intros Hl Hnd. pose proof (ancestry_tail_in _ _ Hl) as Hin.
  destruct l as [|x l]; simpl in *; [lia|].
  apply NoDup_cons in Hnd as [_ Hnd].
  apply le_n_S. rewrite <- (length_map Role.id l), <- (length_map Role.id allRoles).
  apply NoDup_incl_length; [now apply NoDup_ListNoDup|].
  intros y Hy. apply in_map_iff in Hy as (z & <- & Hz).
  apply in_map, list_elem_of_In, Hin, list_elem_of_In, Hz.
Qed.

Lemma ids_lookup l (i : nat) a :
  l !! i = Some a -> List.map Role.id l !! i = Some (Role.id a).
Proof.
  revert i. induction l as [|x l IH]; intros [|i]; simpl; try discriminate.
  - now intros [= ->].
  - apply IH.
Qed.

(** A chain that ends and holds no id twice revisits nothing. *)
Lemma revisits_ancestry r l :
  revisits allRoles r -> ancestry allRoles r l -> NoDup (List.map Role.id l) -> False.
Proof.
  intros (i & j & a & b & Hij & Ha & Hb & Hid) Hl Hnd.
  rewrite (ancestry_lookup _ _ Hl) in Ha, Hb.
  apply ids_lookup in Ha, Hb. rewrite Hid in Ha.
  pose proof (NoDup_lookup _ _ _ _ Hnd Ha Hb). lia.
Qed.

Lemma unique_ids_inj (a b : Role) :
  NoDup (List.map Role.id allRoles) ->
  a ∈ allRoles -> b ∈ allRoles -> Role.id a = Role.id b -> a = b.
Proof.
  induction allRoles as [|x roles IH]; simpl; intros Hnd Ha Hb Hid; [inversion Ha|].
  apply NoDup_cons in Hnd as [Hx Hnd].
  assert (Hin : forall y, y ∈ roles -> Role.id y ∈ List.map Role.id roles)
    by (intros y Hy; apply list_elem_of_In, in_map, list_elem_of_In, Hy).
  apply elem_of_cons in Ha as [->|Ha]; apply elem_of_cons in Hb as [->|Hb].
  - reflexivity.
  - exfalso. apply Hx. rewrite Hid. now apply Hin.
  - exfalso. apply Hx. rewrite <- Hid. now apply Hin.
  - now apply IH.
Qed.

(** In a universe with unique ids, a parent chain that starts at one of its
    roles and ends holds no id twice: "the chain ends" is all that "no
    cycle is reachable" asks for. *)
Lemma ancestry_distinct_ids r l :
  NoDup (List.map Role.id allRoles) ->
  r ∈ allRoles ->
  ancestry allRoles r l ->
  NoDup (List.map Role.id l).
Proof.
  intros Hnd Hr Hl.
  pose proof (ancestry_lookup _ _ Hl) as Hlookup.
  assert (Hin : forall x, x ∈ l -> x ∈ allRoles).
  { intros x Hx. pose proof (ancestry_tail_in _ _ Hl x) as Htl.
    destruct Hl; simpl in *;
      (apply elem_of_cons in Hx as [->|Hx]; [exact Hr | now apply Htl]). }
  apply NoDup_alt. intros i j y Hi Hj.
  assert (Hwlog : forall i j a b,
             (i < j)%nat -> l !! i = Some a -> l !! j = Some b ->
             Role.id a = Role.id b -> False).
  { clear i j y Hi Hj. intros i j a b Hij Ha Hb Hid.
    assert (Hab : a = b).
    { apply unique_ids_inj; try assumption; apply Hin;
        apply list_elem_of_lookup; eauto. }
    subst b.
    assert (Hshift : forall n, l !! (i + n)%nat = l !! (j + n)%nat).
    { intros n. rewrite <- !Hlookup, !ancestor_add, !Hlookup, Ha, Hb. reflexivity. }
    apply lookup_lt_Some in Hb as Hlt.
    specialize (Hshift (length l - j)%nat).
    replace (j + (length l - j))%nat with (length l) in Hshift by lia.
    rewrite (proj2 (lookup_ge_None l (length l))) in Hshift by lia.
    apply lookup_ge_None in Hshift. lia. }
  assert (Hrole : forall k, List.map Role.id l !! k = Some y ->
                            exists a, l !! k = Some a /\ Role.id a = y).
  { intros k Hk. destruct (l !! k) as [a|] eqn:Ea.
    - exists a. split; [reflexivity|]. apply ids_lookup in Ea. congruence.
    - apply lookup_ge_None in Ea. apply lookup_lt_Some in Hk.
      rewrite length_map in Hk. lia. }
  apply Hrole in Hi as (a & Ha & Hida). apply Hrole in Hj as (b & Hb & Hidb).
  destruct (Nat.lt_trichotomy i j) as [Hlt|[Heq|Hgt]]; [|exact Heq|].
  - exfalso. apply (Hwlog i j a b); congruence.
  - exfalso. apply (Hwlog j i b a); congruence.
Qed.

End Ancestry_facts.

Section Resolve_each_facts.
Variable allRoles : list Role.

Lemma resolve_top_never_out_of_fuel role resolved tenantId :
  RoleHierarchyManager.resolveRoleRecursively
    (RoleHierarchyManager.resolve_fuel allRoles) role allRoles resolved [] tenantId
  <> OutOfFuel.
Proof.
  apply (resolve_never_out_of_fuel allRoles (Role.id role)).
  - apply NoDup_nil_2.
  - intros y Hy. inversion Hy.
  - apply elem_of_cons. now left.
  - unfold RoleHierarchyManager.resolve_fuel. simpl. lia.
Qed.

Lemma resolve_each_never_out_of_fuel userRoles resolved tenantId :
  RoleHierarchyManager.resolve_each
    (RoleHierarchyManager.resolve_fuel allRoles) userRoles allRoles resolved [] tenantId
  <> OutOfFuel.
Proof.
  revert resolved. induction userRoles as [|role rest IH]; intros resolved;
    cbn [RoleHierarchyManager.resolve_each]; [discriminate|].
  pose proof (resolve_top_never_out_of_fuel role resolved tenantId) as Htop.
  destruct (RoleHierarchyManager.resolveRoleRecursively _ _ _ _ _ _)
    as [[resolved' processed']| |] eqn:E; cbn [bind fst snd];
    [|discriminate|contradiction].
  apply resolve_restores in E as ->. apply IH.
Qed.


End Resolve_each_facts.

(** [resolveHierarchy] always completes: the fuel of the embedding is never
    used up. *)
Theorem resolveHierarchy_total userRoles allRoles tenantId hierarchyCache :
  snd (RoleHierarchyManager.resolveHierarchy userRoles allRoles tenantId hierarchyCache)
  <> OutOfFuel.
Proof.
  unfold RoleHierarchyManager.resolveHierarchy.
  destruct (hierarchyCache !! _); [discriminate|].
  pose proof (resolve_each_never_out_of_fuel allRoles userRoles [] tenantId) as H.
  destruct (RoleHierarchyManager.resolve_each _ _ _ _ _ _); simpl;
    [discriminate|discriminate|contradiction].
Qed.

(** For a single role whose parent chain ends, holds no id twice and is not
    cut by the tenant filter, a call that misses the memo returns the chain and
    memoizes it. *)
Lemma resolveHierarchy_ancestry
    (child : Role) (allRoles : list Role) (tenantId : option string)
    (hierarchyCache : gmap string (list Role)) (l : list Role) :
  Forall (fun x => RoleHierarchyManager.other_tenant tenantId x = false) l ->
  hierarchyCache !! RoleHierarchyManager.generateCacheKey [child] tenantId = None ->
  ancestry allRoles child l ->
  NoDup (List.map Role.id l) ->
  RoleHierarchyManager.resolveHierarchy [child] allRoles tenantId hierarchyCache
  = (<[RoleHierarchyManager.generateCacheKey [child] tenantId := l]> hierarchyCache,
     Normal l).
Proof.
  intros Htenant Hmemo Hl Hnd.
  unfold RoleHierarchyManager.resolveHierarchy. rewrite Hmemo.
  cbn [RoleHierarchyManager.resolve_each].
  rewrite (resolve_ancestry allRoles child l Hl); [| exact Htenant | | exact Hnd].
  - cbn [bind fst snd]. now rewrite (JsSet_add_all [] l (NoDup_ids l Hnd)).
  - pose proof (ancestry_length allRoles child l Hl Hnd).
    unfold RoleHierarchyManager.resolve_fuel. lia.
Qed.

(** C5: for a role graph in which the parent chain [l] of [child] ends and
    holds no role id twice (no cycle is reachable), [resolveHierarchy([child],
    allRoles)], called without a tenant on a manager that holds no memo entry
    for its key, returns exactly that chain: [child] and every ancestor up to
    the first role with no parent or with a parent reference that does not
    resolve (that role included).  No descendant of [child] and no sibling of
    a role of the chain is in the result. *)
Theorem resolveHierarchy_collects_the_parent_chain
    (child : Role) (allRoles : list Role) (tenantId : option string)
    (hierarchyCache : gmap string (list Role)) (l : list Role) :
  Js.truthy_string tenantId = false ->
  hierarchyCache !! RoleHierarchyManager.generateCacheKey [child] tenantId = None ->
  ancestry allRoles child l ->
  NoDup (List.map Role.id l) ->
  RoleHierarchyManager.resolveHierarchy [child] allRoles tenantId hierarchyCache
  = (<[RoleHierarchyManager.generateCacheKey [child] tenantId := l]> hierarchyCache,
     Normal l)
  /\ (forall x, x ∈ l <-> exists n, ancestor allRoles n child = Some x)
  /\ (forall d n, (0 < n)%nat -> ancestor allRoles n d = Some child -> d ∉ l)
  /\ (forall s x, x ∈ l -> sibling s x -> s ∉ l).
Proof.
  intros Htenant Hmemo Hl Hnd.
  pose proof (NoDup_ids l Hnd) as Hndl.
  pose proof (ancestry_lookup allRoles child l Hl) as Hlookup.
  split; [|split; [|split]].
  - apply resolveHierarchy_ancestry; try assumption.
    apply Forall_forall. intros x _. now apply other_tenant_falsy.
  - intros x. rewrite list_elem_of_lookup. split; intros [n Hn]; exists n.
    + now rewrite Hlookup.
    + now rewrite <- Hlookup.
  - intros d n Hn Hd Hin.
    apply list_elem_of_lookup in Hin as [k Hk].
    assert (H0 : l !! (k + n)%nat = Some child).
    { rewrite <- Hlookup, ancestor_add, Hlookup, Hk. exact Hd. }
    assert (H1 : l !! 0%nat = Some child) by (rewrite <- Hlookup; reflexivity).
    pose proof (NoDup_lookup _ _ _ _ Hndl H0 H1). lia.
  - intros s x Hx (Hparent & Hsame & Hne) Hs.
    apply list_elem_of_lookup in Hx as [j Hj].
    apply list_elem_of_lookup in Hs as [i Hi].
    assert (Hp : parent_of allRoles s = parent_of allRoles x).
    { unfold parent_of. now rewrite Hsame. }
    assert (Hnext : l !! S i = l !! S j).
    { rewrite <- !Hlookup, !ancestor_succ, !Hlookup, Hi, Hj. exact Hp. }
    assert (Hij : i = j).
    { destruct (l !! S j) as [q|] eqn:Eq.
      - apply ids_lookup in Hnext, Eq.
        pose proof (NoDup_lookup _ _ _ _ Hnd Hnext Eq). lia.
      - apply lookup_ge_None in Hnext, Eq.
        apply lookup_lt_Some in Hi, Hj. lia. }
    subst j. rewrite Hi in Hj. injection Hj as ->. now apply Hne.
Qed.

Lemma resolveHierarchy_collects_the_parent_chain_witness :
  let manager := Role.mk 1 "manager" "Manager" (Some 20) (Some "admin") true None in
  let admin := Role.mk 2 "admin" "Administrator" (Some 10) (Some "super-admin") true None in
  let clerk := Role.mk 3 "clerk" "Clerk" (Some 30) (Some "manager") true None in
  let peer := Role.mk 4 "peer" "Peer" (Some 20) (Some "admin") true None in
  let allRoles := [admin; manager; clerk; peer] in
  RoleHierarchyManager.resolveHierarchy [manager] allRoles None ∅
  = ({["manager:no-tenant" := [manager; admin]]}, Normal [manager; admin])
  /\ (forall x, x ∈ [manager; admin] <-> exists n, ancestor allRoles n manager = Some x)
  /\ (forall d n, (0 < n)%nat -> ancestor allRoles n d = Some manager ->
                  d ∉ [manager; admin])
  /\ (forall s x, x ∈ [manager; admin] -> sibling s x -> s ∉ [manager; admin]).
Proof.
  intros manager admin clerk peer allRoles.
  apply (resolveHierarchy_collects_the_parent_chain
           manager allRoles None ∅ [manager; admin]).
  - reflexivity.
  - reflexivity.
  - apply ancestry_step with admin; [reflexivity|]. apply ancestry_root. reflexivity.
  - compute_done.
Defined.

(* ===================================================================== *)
(** ** The hierarchy validator *)
(* ===================================================================== *)

Lemma find_has_id (id : string) (roles : list Role) (r : Role) :
  List.find (RoleHierarchyManager.has_id id) roles = Some r ->
  r ∈ roles /\ Role.id r = id.
Proof.
  intros H. apply find_some in H as [Hin Hid]. split; [now apply list_elem_of_In|].
  now apply String.eqb_eq.
Qed.

(** With unique ids, the map built by [validateHierarchy] and
    [allRoles.find] look up the same role. *)
Lemma roleMap_of_lookup (roles : list Role) (id : string) :
  NoDup (List.map Role.id roles) ->
  RoleHierarchyManager.roleMap_of roles !! id
  = List.find (RoleHierarchyManager.has_id id) roles.
Proof.
  unfold RoleHierarchyManager.roleMap_of.
  assert (H : forall acc : gmap string Role,
             NoDup (List.map Role.id roles) ->
             fold_left (fun m r => <[Role.id r := r]> m) roles acc !! id
             = match List.find (RoleHierarchyManager.has_id id) roles with
               | Some r => Some r
               | None => acc !! id
               end).
  { induction roles as [|r roles IH]; intros acc Hnd; simpl; [reflexivity|].
    apply NoDup_cons in Hnd as [Hr Hnd]. rewrite (IH _ Hnd).
    unfold RoleHierarchyManager.has_id at 2.
    destruct (String.eqb_spec (Role.id r) id) as [<-|Hne].
    - destruct (List.find _ roles) as [r'|] eqn:E.
      + apply find_has_id in E as [Hin Hid]. exfalso. apply Hr.
        rewrite <- Hid. apply list_elem_of_In, in_map, list_elem_of_In, Hin.
      + apply lookup_insert_eq.
    - destruct (List.find _ roles); [reflexivity|]. now apply lookup_insert_ne. }
  intros Hnd. rewrite (H ∅ Hnd), lookup_empty.
  now destruct (List.find _ roles).
Qed.

(** Every key of the map built by [validateHierarchy] is the id of one of the
    roles. *)
Lemma roleMap_of_key (roles : list Role) (id : string) (r : Role) :
  RoleHierarchyManager.roleMap_of roles !! id = Some r ->
  id ∈ List.map Role.id roles.
Proof.
  unfold RoleHierarchyManager.roleMap_of.
  assert (H : forall acc : gmap string Role,
             fold_left (fun m x => <[Role.id x := x]> m) roles acc !! id = Some r ->
             id ∈ List.map Role.id roles \/ acc !! id = Some r).
  { induction roles as [|x roles IH]; intros acc Hl; simpl in *; [now right|].
    apply IH in Hl as [Hl|Hl]; [left; apply elem_of_cons; now right|].
    destruct (decide (Role.id x = id)) as [<-|Hne].
    - left. apply elem_of_cons. now left.
    - rewrite lookup_insert_ne in Hl by exact Hne. now right. }
  intros Hl. apply H in Hl as [Hl|Hl]; [exact Hl|].
  rewrite lookup_empty in Hl. discriminate.
Qed.

(** The fuel of the validator is never used up: [visited] holds distinct keys
    of the map. *)
Lemma validate_never_out_of_fuel (roleMap : gmap string Role) (ids : list string) :
  (forall id r, roleMap !! id = Some r -> id ∈ ids) ->
  forall fuel role (visited : JsSet.t string),
    NoDup visited ->
    (forall y, y ∈ visited -> y ∈ ids) ->
    (length ids + 1 <= fuel + length visited)%nat ->
    RoleHierarchyManager.validateRoleHierarchyRecursively fuel role roleMap visited
    <> OutOfFuel.
Proof.
  intros Hkeys.
  induction fuel as [|fuel IH]; intros role visited Hnd Hin Hfuel.
  - exfalso. apply NoDup_ListNoDup in Hnd.
    assert (Hle : (length visited <= length ids)%nat).
    { apply NoDup_incl_length; [exact Hnd|].
      intros y Hy. apply list_elem_of_In, Hin, list_elem_of_In, Hy. }
    simpl in Hfuel. lia.
  - simpl.
    destruct (Js.truthy_string (Role.parentRoleId role)); simpl; [|discriminate].
    destruct (JsSet.has _ _) eqn:Ehas; [discriminate|].
    apply JsSet_has_fresh in Ehas. rewrite (JsSet_add_fresh _ _ Ehas).
    destruct (roleMap !! _) as [p|] eqn:Ep; [|discriminate].
    specialize (IH p (visited ++ [Js.nullish (Role.parentRoleId role) ""])).
    destruct (RoleHierarchyManager.validateRoleHierarchyRecursively _ _ _ _);
      [discriminate | discriminate |].
    exfalso. apply IH; [| |rewrite length_app; simpl; lia|reflexivity].
    + apply NoDup_app. split; [exact Hnd|]. split; [|apply NoDup_singleton].
      intros y Hy Hy'. apply list_elem_of_singleton in Hy'. subst y. contradiction.
    + intros y Hy. apply elem_of_app in Hy as [Hy|Hy]; [now apply Hin|].
      apply list_elem_of_singleton in Hy as ->. now apply Hkeys with p.
Qed.

(** [validateHierarchy] always completes. *)
Theorem validateHierarchy_total (roles : list Role) :
  RoleHierarchyManager.validateHierarchy roles <> OutOfFuel.
Proof.
  unfold RoleHierarchyManager.validateHierarchy.
  set (roleMap := RoleHierarchyManager.roleMap_of roles).
  assert (Hloop : forall rest,
             (forall x, x ∈ rest -> x ∈ roles) ->
             RoleHierarchyManager.validate_each (S (length roles)) rest roleMap
             <> OutOfFuel).
  { induction rest as [|role rest IH]; intros Hsub; [discriminate|].
    cbn [RoleHierarchyManager.validate_each].
    assert (Hrest : forall x, x ∈ rest -> x ∈ roles)
      by (intros x Hx; apply Hsub, elem_of_cons; now right).
    destruct (Js.truthy_string (Role.parentRoleId role)); [|now apply IH].
    assert (Htotal :
      RoleHierarchyManager.validateRoleHierarchyRecursively
        (S (length roles)) role roleMap [Role.id role] <> OutOfFuel).
    { apply (validate_never_out_of_fuel roleMap (List.map Role.id roles)).
      - intros id r. apply roleMap_of_key.
      - apply NoDup_singleton.
      - intros y Hy. apply list_elem_of_singleton in Hy as ->.
        apply list_elem_of_In, in_map, list_elem_of_In, Hsub, elem_of_cons. now left.
      - rewrite length_map. simpl. lia. }
    destruct (RoleHierarchyManager.validateRoleHierarchyRecursively _ _ _ _);
      cbn [bind]; [now apply IH | discriminate | contradiction]. }
  apply Hloop. auto.
Qed.

Section Validator_facts.
Variable allRoles : list Role.
Variable roleMap : gmap string Role.
Hypothesis roleMap_find :
  forall id, roleMap !! id = List.find (RoleHierarchyManager.has_id id) allRoles.
Implicit Types (role r p : Role) (visited : JsSet.t string).

(** One unfolding of the recursion, with the parent looked up by
    [parent_of]. *)
Lemma validate_step fuel role visited :
  RoleHierarchyManager.validateRoleHierarchyRecursively (S fuel) role roleMap visited
  = if negb (Js.truthy_string (Role.parentRoleId role)) then Normal visited
    else
      let parentRoleId := Js.nullish (Role.parentRoleId role) "" in
      if JsSet.has parentRoleId visited then
        Throw (mkRbacError
                 ("Circular dependency detected in role hierarchy: "
                    +:+ Js.join " -> " visited +:+ " -> " +:+ parentRoleId)
                 RbacErrorCode.HIERARCHY_ERROR
                 (CircularPathContext visited parentRoleId))
      else
        match parent_of allRoles role with
        | None =>
            Throw (mkRbacError ("Parent role not found: " +:+ parentRoleId)
                     RbacErrorCode.INVALID_ROLE
                     (ParentContext (Role.id role) parentRoleId))
        | Some p =>
            visited' <- RoleHierarchyManager.validateRoleHierarchyRecursively
                          fuel p roleMap (JsSet.add parentRoleId visited) ;;
            Normal (JsSet.delete parentRoleId visited')
        end.
Proof.
  simpl. unfold parent_of.
  destruct (Js.truthy_string (Role.parentRoleId role)); simpl; [|reflexivity].
  now rewrite roleMap_find.
Qed.

Lemma parent_of_id role p :
  parent_of allRoles role = Some p ->
  Role.id p = Js.nullish (Role.parentRoleId role) "".
Proof.
  unfold parent_of. destruct (Js.truthy_string _); [|discriminate].
  intros H. now apply find_has_id in H.
Qed.

Lemma parent_of_truthy role p :
  parent_of allRoles role = Some p -> Js.truthy_string (Role.parentRoleId role) = true.
Proof. unfold parent_of. now destruct (Js.truthy_string _). Qed.

(** A validation that returns normally has walked a parent chain that ends
    and holds no id of [visited], nor any id twice. *)
Lemma validate_normal_ancestry fuel role visited visited' :
  NoDup visited ->
  RoleHierarchyManager.validateRoleHierarchyRecursively fuel role roleMap visited
  = Normal visited' ->
  exists l, ancestry allRoles role l /\ NoDup (visited ++ List.map Role.id (tl l)).
Proof.
  revert role visited visited'.
  induction fuel as [|fuel IH]; intros role visited visited' Hnd H; [discriminate|].
  rewrite validate_step in H.
  destruct (Js.truthy_string (Role.parentRoleId role)) eqn:Etruthy; simpl in H.
  - destruct (JsSet.has _ _) eqn:Ehas; [discriminate|].
    apply JsSet_has_fresh in Ehas. rewrite (JsSet_add_fresh _ _ Ehas) in H.
    destruct (parent_of allRoles role) as [p|] eqn:Ep; [|discriminate].
    destruct (RoleHierarchyManager.validateRoleHierarchyRecursively _ _ _ _)
      as [v| |] eqn:E; try discriminate.
    apply IH in E as (l & Hl & Hndl).
    + exists (role :: l). split; [now apply ancestry_step with p|]. simpl.
      rewrite <- (parent_of_id _ _ Ep) in Hndl.
      destruct Hl; simpl in *; now rewrite <- app_assoc in Hndl.
    + apply NoDup_app. split; [exact Hnd|]. split; [|apply NoDup_singleton].
      intros y Hy Hy'. apply list_elem_of_singleton in Hy'. subst y. contradiction.
  - exists [role]. split.
    + apply ancestry_root. unfold parent_of. now rewrite Etruthy.
    + simpl. now rewrite app_nil_r.
Qed.

(** Where every parent reference resolves, the only error of the validator
    names the visited path and the id on it that came back. *)
Lemma validate_throw_names_cycle fuel role visited e :
  no_dangling allRoles ->
  role ∈ allRoles ->
  RoleHierarchyManager.validateRoleHierarchyRecursively fuel role roleMap visited
  = Throw e ->
  error_code e = RbacErrorCode.HIERARCHY_ERROR
  /\ exists path id, error_context e = CircularPathContext path id /\ id ∈ path.
Proof.
  intros Hdangling. revert role visited.
  induction fuel as [|fuel IH]; intros role visited Hrole H; [discriminate|].
  rewrite validate_step in H.
  destruct (Js.truthy_string (Role.parentRoleId role)) eqn:Etruthy; simpl in H;
    [|discriminate].
  destruct (JsSet.has _ _) eqn:Ehas.
  - injection H as <-. simpl. split; [reflexivity|].
    do 2 eexists. split; [reflexivity|]. now apply JsSet_has_elem.
  - destruct (parent_of allRoles role) as [p|] eqn:Ep.
    + destruct (RoleHierarchyManager.validateRoleHierarchyRecursively _ _ _ _)
        as [v|e'|] eqn:E; try discriminate.
      injection H as <-. apply (IH _ _ (parent_of_in _ _ _ Ep) E).
    + destruct (Hdangling role Hrole Etruthy) as [p Hp]. congruence.
Qed.

(** The loop of [validateHierarchy] throws when it meets a role from which a
    cycle is reachable, unless it has thrown before. *)
Lemma validate_each_revisits (roles : list Role) r :
  (forall x, x ∈ roles -> x ∈ allRoles) ->
  r ∈ roles ->
  revisits allRoles r ->
  exists e,
    RoleHierarchyManager.validate_each (S (length allRoles)) roles roleMap = Throw e
    /\ (no_dangling allRoles ->
        error_code e = RbacErrorCode.HIERARCHY_ERROR
        /\ exists path id, error_context e = CircularPathContext path id /\ id ∈ path).
Proof.
  intros Hsub Hin Hcycle.
  induction roles as [|role rest IH]; [inversion Hin|].
  cbn [RoleHierarchyManager.validate_each].
  assert (Hrole : role ∈ allRoles) by (apply Hsub, elem_of_cons; now left).
  assert (Hrest : forall x, x ∈ rest -> x ∈ allRoles)
    by (intros x Hx; apply Hsub, elem_of_cons; now right).
  destruct (Js.truthy_string (Role.parentRoleId role)) eqn:Etruthy.
  - assert (Htotal :
      RoleHierarchyManager.validateRoleHierarchyRecursively
        (S (length allRoles)) role roleMap [Role.id role] <> OutOfFuel).
    { apply (validate_never_out_of_fuel roleMap (List.map Role.id allRoles)).
      - intros id x Hx. rewrite roleMap_find in Hx.
        apply find_has_id in Hx as [Hx <-].
        apply list_elem_of_In, in_map, list_elem_of_In, Hx.
      - apply NoDup_singleton.
      - intros y Hy. apply list_elem_of_singleton in Hy as ->.
        apply list_elem_of_In, in_map, list_elem_of_In, Hrole.
      - rewrite length_map. simpl. lia. }
    destruct (RoleHierarchyManager.validateRoleHierarchyRecursively _ _ _ _)
      as [v|e|] eqn:E; cbn [bind]; [| |contradiction].
    + apply elem_of_cons in Hin as [->|Hin]; [|now apply IH].
      exfalso.
      apply validate_normal_ancestry in E as (l & Hl & Hnd); [|apply NoDup_singleton].
      apply (revisits_ancestry allRoles role l Hcycle Hl).
      destruct Hl; exact Hnd.
    + exists e. split; [reflexivity|]. intros Hdangling.
      now apply (validate_throw_names_cycle _ _ _ _ Hdangling Hrole E).
  - cbn [bind].
    apply elem_of_cons in Hin as [->|Hin]; [|now apply IH].
    exfalso. destruct Hcycle as (i & j & a & b & Hij & _ & Hb & _).
    destruct j as [|j]; [lia|]. simpl in Hb.
    destruct (parent_of allRoles role) as [p|] eqn:Ep; [|discriminate].
    apply parent_of_truthy in Ep. congruence.
Qed.

End Validator_facts.




(* ===================================================================== *)
(** ** The memo of the resolver *)
(* ===================================================================== *)

Lemma prefix_refl (s : string) : String.prefix s s = true.
Proof.
  induction s as [|c s IH]; simpl; [reflexivity|].
  destruct (ascii_dec c c); [exact IH | contradiction].
Qed.

Lemma append_assoc (a b c : string) : (a +:+ b) +:+ c = a +:+ (b +:+ c).
Proof.
  induction a as [|x a IH]; [reflexivity|].
  change (String x ((a +:+ b) +:+ c) = String x (a +:+ (b +:+ c))). now rewrite IH.
Qed.

Lemma prefix_append (a b : string) : String.prefix a (a +:+ b) = true.
Proof.
  induction a as [|c a IH]; [change ("" +:+ b) with b; now destruct b|].
  change (String.prefix (String c a) (String c (a +:+ b)) = true). simpl.
  destruct (ascii_dec c c); [exact IH | contradiction].
Qed.

Lemma includes_suffix (a b : string) : Js.includes (a +:+ b) b = true.
Proof.
  induction a as [|c a IH].
  - change ("" +:+ b) with b. destruct b as [|c b]; [reflexivity|].
    change (Js.includes (String c b) (String c b))
      with (String.prefix (String c b) (String c b) || Js.includes b (String c b)).
    now rewrite prefix_refl.
  - change (Js.includes (String c (a +:+ b)) b = true). simpl.
    rewrite IH. apply orb_true_r.
Qed.

(** Without a memo entry for the call, the outcome is the one of a manager
    with an empty memo. *)
Lemma resolveHierarchy_memo_miss userRoles allRoles tenantId
    (hierarchyCache : gmap string (list Role)) :
  hierarchyCache !! RoleHierarchyManager.generateCacheKey userRoles tenantId = None ->
  snd (RoleHierarchyManager.resolveHierarchy userRoles allRoles tenantId hierarchyCache)
  = snd (RoleHierarchyManager.resolveHierarchy userRoles allRoles tenantId ∅).
Proof.
  intros H. unfold RoleHierarchyManager.resolveHierarchy. rewrite H, lookup_empty.
  now destruct (RoleHierarchyManager.resolve_each _ _ _ _ _ _).
Qed.

(** What a call of [resolveHierarchy] that returns a result leaves in the
    memo: the entry it found, or the result it computed, stored under the
    key of the call. *)
Lemma resolveHierarchy_stores userRoles allRoles tenantId
    (memo memo' : gmap string (list Role)) (result : list Role) :
  RoleHierarchyManager.resolveHierarchy userRoles allRoles tenantId memo
  = (memo', Normal result) ->
  let key := RoleHierarchyManager.generateCacheKey userRoles tenantId in
  memo' !! key = Some result
  /\ (memo !! key = None ->
      memo' = <[key := result]> memo
      /\ snd (RoleHierarchyManager.resolveHierarchy userRoles allRoles tenantId ∅)
         = Normal result)
  /\ (forall cached, memo !! key = Some cached -> memo' = memo /\ result = cached).
Proof.
  intros H key. unfold RoleHierarchyManager.resolveHierarchy in *. fold key in H |- *.
  rewrite lookup_empty.
  destruct (memo !! key) as [cached|] eqn:E.
  - injection H as <- <-. split; [exact E|]. split; [discriminate|].
    intros cached' Hc. injection Hc as <-. now split.
  - destruct (RoleHierarchyManager.resolve_each _ _ _ _ _ _) as [out| |];
      try discriminate.
    injection H as <- <-. split; [apply lookup_insert_eq|]. split; [|discriminate].
    intros _. now split.
Qed.

(** C10: [resolveHierarchy] memoizes, and the memo is keyed by the sorted
    list of the input role ids and the tenant only.  A call that returns a
    result leaves it in the memo under that key: the entry it found there, or
    else the result it computed from its universe, which it stores.  Every
    later call with the same tenant whose role ids sort to the same list
    returns that result, whatever universe it is given, and leaves the memo
    as it is.  [clearCache] without a tenant empties the memo, and with the
    tenant of the call removes the entry, while with another tenant, whose
    text the key does not hold, it keeps it; a call on a memo without the
    entry is computed afresh from the universe it is given and stores its
    result. *)
Theorem resolveHierarchy_memo_ignores_universe
    (userRoles allRoles1 userRoles2 allRoles2 : list Role) (tenantId : option string)
    (memo memo' : gmap string (list Role)) (result : list Role) :
  RoleHierarchyManager.resolveHierarchy userRoles allRoles1 tenantId memo
  = (memo', Normal result) ->
  Js.sort (List.map Role.id userRoles2) = Js.sort (List.map Role.id userRoles) ->
  let key := RoleHierarchyManager.generateCacheKey userRoles tenantId in
  memo' !! key = Some result
  /\ (memo !! key = None ->
      memo' = <[key := result]> memo
      /\ snd (RoleHierarchyManager.resolveHierarchy userRoles allRoles1 tenantId ∅)
         = Normal result)
  /\ (forall cached, memo !! key = Some cached -> memo' = memo /\ result = cached)
  /\ RoleHierarchyManager.resolveHierarchy userRoles2 allRoles2 tenantId memo'
     = (memo', Normal result)
  /\ RoleHierarchyManager.clearCache None memo' = ∅
  /\ (Js.truthy_string tenantId = true ->
      RoleHierarchyManager.clearCache tenantId memo' !! key = None)
  /\ (forall other,
        other <> "" ->
        Js.includes key ("tenant:" +:+ other) = false ->
        RoleHierarchyManager.clearCache (Some other) memo' !! key = Some result)
  /\ (forall cleared : gmap string (list Role),
        cleared !! key = None ->
        snd (RoleHierarchyManager.resolveHierarchy userRoles2 allRoles2 tenantId cleared)
        = snd (RoleHierarchyManager.resolveHierarchy userRoles2 allRoles2 tenantId ∅)
        /\ forall result2,
             snd (RoleHierarchyManager.resolveHierarchy
                    userRoles2 allRoles2 tenantId cleared)
             = Normal result2 ->
             fst (RoleHierarchyManager.resolveHierarchy
                    userRoles2 allRoles2 tenantId cleared) !! key
             = Some result2).
Proof.
  intros Hfirst Hsort key.
  assert (Hkey : RoleHierarchyManager.generateCacheKey userRoles2 tenantId = key).
  { unfold key, RoleHierarchyManager.generateCacheKey. now rewrite Hsort. }
  destruct (resolveHierarchy_stores _ _ _ _ _ _ Hfirst) as (Hstored & Hmiss & Hhit).
  fold key in Hstored, Hmiss, Hhit.
  split; [exact Hstored|]. split; [exact Hmiss|]. split; [exact Hhit|].
  split; [|split; [|split; [|split]]].
  - unfold RoleHierarchyManager.resolveHierarchy. now rewrite Hkey, Hstored.
  - reflexivity.
  - intros Htenant. unfold RoleHierarchyManager.clearCache. rewrite Htenant.
    apply map_lookup_filter_None. right. intros cached _. simpl.
    unfold key, RoleHierarchyManager.generateCacheKey. rewrite Htenant.
    rewrite <- append_assoc, includes_suffix. discriminate.
  - intros other Hother Hfree. unfold RoleHierarchyManager.clearCache.
    assert (Js.truthy_string (Some other) = true) as ->.
    { unfold Js.truthy_string. now destruct (String.eqb_spec other ""). }
    apply map_lookup_filter_Some. split; [exact Hstored | exact Hfree].
  - intros cleared Hcleared. rewrite <- Hkey in Hcleared |- *.
    split; [now apply resolveHierarchy_memo_miss|].
    intros result2 H2.
    destruct (RoleHierarchyManager.resolveHierarchy userRoles2 allRoles2 tenantId
                cleared) as [memo2 r2] eqn:E2.
    simpl in H2. subst r2.
    now destruct (resolveHierarchy_stores _ _ _ _ _ _ E2) as (H & _).
Qed.

Lemma resolveHierarchy_memo_ignores_universe_witness :
  let manager := Role.mk 1 "manager" "Manager" None (Some "admin") true None in
  let admin := Role.mk 2 "admin" "Administrator" None None true None in
  let manager' := Role.mk 7 "manager" "Manager" None None true None in
  let memo' : gmap string (list Role) := {["manager:tenant:t1" := [manager; admin]]} in
  RoleHierarchyManager.resolveHierarchy [manager] [admin; manager] (Some "t1") ∅
  = (memo', Normal [manager; admin])
  /\ memo' !! "manager:tenant:t1" = Some [manager; admin]
  /\ RoleHierarchyManager.resolveHierarchy [manager'] [] (Some "t1") memo'
     = (memo', Normal [manager; admin])
  /\ RoleHierarchyManager.clearCache (Some "t1") memo' !! "manager:tenant:t1" = None
  /\ RoleHierarchyManager.clearCache (Some "t2") memo' !! "manager:tenant:t1"
     = Some [manager; admin]
  /\ RoleHierarchyManager.resolveHierarchy [manager'] [] (Some "t1")
       (RoleHierarchyManager.clearCache (Some "t1") memo')
     = ({["manager:tenant:t1" := [manager']]}, Normal [manager']).
Proof.
  intros manager admin manager' memo'.
  assert (Hfirst :
    RoleHierarchyManager.resolveHierarchy [manager] [admin; manager] (Some "t1") ∅
    = (memo', Normal [manager; admin])) by reflexivity.
  destruct (resolveHierarchy_memo_ignores_universe
              [manager] [admin; manager] [manager'] [] (Some "t1") ∅ memo'
              [manager; admin] Hfirst eq_refl)
    as (Hstored & _ & _ & Hlater & _ & Hclear & Hother & _).
  split; [exact Hfirst|]. split; [exact Hstored|]. split; [exact Hlater|].
  split; [exact (Hclear eq_refl)|].
  split; [apply (Hother "t2"); [discriminate | reflexivity]|].
  reflexivity.
Defined.

(* ===================================================================== *)
(** ** The service: cache keys and invalidation *)
(* ===================================================================== *)

Lemma generateCacheKey_scoped env type identifier userId options :
  scoped_to userId (RoleService.generateCacheKey env type identifier userId options)
  = true.
Proof.
  unfold scoped_to, RoleService.generateCacheKey, Js.startsWith.
  set (rest := identifier +:+ ":" +:+ _).
  destruct type.
  - replace (CACHE_KEYS.ROLE_CHECK +:+ userId +:+ ":" +:+ rest)
      with ((CACHE_KEYS.ROLE_CHECK +:+ userId +:+ ":") +:+ rest)
      by now rewrite !append_assoc.
    now rewrite prefix_append.
  - replace (CACHE_KEYS.PERMISSION_CHECK +:+ userId +:+ ":" +:+ rest)
      with ((CACHE_KEYS.PERMISSION_CHECK +:+ userId +:+ ":") +:+ rest)
      by now rewrite !append_assoc.
    rewrite prefix_append. apply orb_true_r.
Qed.

Lemma invalidatePattern_keys {T : Type} (test : string -> bool) (c : LruCache.t T) :
  LruCache.keys (fst (LruCache.invalidatePattern test c))
  = List.filter (fun k => negb (test k)) (LruCache.keys c).
Proof.
  unfold LruCache.invalidatePattern, LruCache.keys, JsMap.keys. simpl.
  induction (LruCache.cache c) as [|[k e] m IH]; simpl; [reflexivity|].
  destruct (test k); simpl; now rewrite IH.
Qed.

Lemma user_pattern_test_literal env userId key :
  Js.regex_literal userId = true ->
  RoleService.user_pattern_test env userId key = scoped_to userId key.
Proof. intros H. unfold RoleService.user_pattern_test. now rewrite H. Qed.

Lemma setUserContext_contextCache env context now s :
  RoleService.contextCache (RoleService.setUserContext env context now s)
  = fst (LruCache.invalidatePattern
           (RoleService.user_pattern_test env (UserContext.userId context))
           (RoleService.contextCache s)).
Proof. reflexivity. Qed.

Lemma setUserContext_permissionCache env context now s :
  RoleService.permissionCache (RoleService.setUserContext env context now s)
  = fst (LruCache.invalidatePattern
           (RoleService.user_pattern_test env (UserContext.userId context))
           (RoleService.permissionCache s)).
Proof. reflexivity. Qed.

Lemma LruCache_get_absent {T : Type} key now (c : LruCache.t T) :
  key ∉ LruCache.keys c -> LruCache.get key now c = (c, None).
Proof.
  intros H. unfold LruCache.get.
  destruct (JsMap.get key (LruCache.cache c)) as [entry|] eqn:E; [|reflexivity].
  exfalso. apply H, JsMap_get_keys. rewrite E. now eexists.
Qed.

Lemma purged_keys userId (keys : list string) key :
  key ∈ List.filter (fun k => negb (scoped_to userId k)) keys
  <-> key ∈ keys /\ scoped_to userId key = false.
Proof.
  rewrite !list_elem_of_In, filter_In, negb_true_iff. reflexivity.
Qed.

(** C1, as stated, fails when the user changes: the entry cached for
    [alice] is still in the decision cache after the context of [bob] has
    been set. *)
Lemma previous_user_entries_survive :
  let admin := Role.mk 1 "admin" "Administrator" None None true None in
  let alice := UserContext.mk "alice" [admin] [] None None 0 in
  let bob := UserContext.mk "bob" [] [] None None 0 in
  let s1 := RoleService.setUserContext example_env alice 0 fresh_service in
  let s2 := fst (RoleService.hasRole example_env "admin" None 1 s1) in
  let s3 := RoleService.setUserContext example_env bob 2 s2 in
  RoleService.constructor DEFAULT_RBAC_CONFIG = Normal fresh_service
  /\ LruCache.keys (RoleService.contextCache s2) = ["rbac:role:alice:admin:"]
  /\ LruCache.keys (RoleService.contextCache s3) = ["rbac:role:alice:admin:"]
  /\ scoped_to "alice" "rbac:role:alice:admin:" = true.
Proof.
  repeat split; reflexivity.
Qed.

Lemma prefix_empty (s : string) : String.prefix "" s = true.
Proof. now destruct s. Qed.

Lemma prefix_app_same (p a b : string) :
  String.prefix (p +:+ a) (p +:+ b) = String.prefix a b.
Proof.
  induction p as [|c p IH]; [reflexivity|].
  change (String.prefix (String c (p +:+ a)) (String c (p +:+ b)) = String.prefix a b).
  cbn [String.prefix]. now destruct (ascii_dec c c).
Qed.

Lemma includes_colon_cons (c : ascii) (s : string) :
  Js.includes (String c s) ":" = false ->
  c <> ":"%char /\ Js.includes s ":" = false.
Proof.
  cbn [Js.includes String.prefix]. rewrite prefix_empty.
  destruct (ascii_dec ":" c) as [<-|Hne]; [discriminate|].
  simpl. intros H. split; [congruence | exact H].
Qed.

(** Two ids without a colon, each followed by a colon: one is a prefix of
    the other followed by anything only when they are equal. *)
Lemma prefix_colon_ids (u u' rest : string) :
  Js.includes u ":" = false ->
  Js.includes u' ":" = false ->
  String.prefix (u +:+ ":") (u' +:+ ":" +:+ rest) = true ->
  u' = u.
Proof.
  revert u'. induction u as [|a u IH]; intros u' Hu Hu' H.
  - destruct u' as [|b u']; [reflexivity|].
    apply includes_colon_cons in Hu' as [Hb _].
    change (String.prefix ":" (String b (u' +:+ ":" +:+ rest)) = true) in H.
    cbn [String.prefix] in H. destruct (ascii_dec ":" b); [congruence | discriminate].
  - apply includes_colon_cons in Hu as [Ha Hu].
    destruct u' as [|b u'].
    + change (String.prefix (String a (u +:+ ":")) (String ":" rest) = true) in H.
      cbn [String.prefix] in H. destruct (ascii_dec a ":"); [congruence | discriminate].
    + apply includes_colon_cons in Hu' as [_ Hu'].
      change (String.prefix (String a (u +:+ ":"))
                (String b (u' +:+ ":" +:+ rest)) = true) in H.
      cbn [String.prefix] in H. destruct (ascii_dec a b) as [<-|]; [|discriminate].
      f_equal. now apply IH.
Qed.

(** The key of a check of one user is not scoped to another user, when
    neither id holds a colon. *)
Lemma generateCacheKey_other_user env type identifier userId userId' options :
  Js.includes userId ":" = false ->
  Js.includes userId' ":" = false ->
  userId' <> userId ->
  scoped_to userId (RoleService.generateCacheKey env type identifier userId' options)
  = false.
Proof.
  intros Hu Hu' Hne.
  unfold scoped_to, RoleService.generateCacheKey, Js.startsWith.
  set (rest := identifier +:+ ":" +:+ _).
  assert (Hsame : forall p,
             String.prefix (p +:+ userId +:+ ":") (p +:+ userId' +:+ ":" +:+ rest)
             = false).
  { intros p. rewrite prefix_app_same.
    destruct (String.prefix (userId +:+ ":") (userId' +:+ ":" +:+ rest)) eqn:E;
      [|reflexivity].
    exfalso. apply Hne. now apply (prefix_colon_ids userId userId' rest). }
  destruct type; rewrite Hsame.
  - simpl. unfold CACHE_KEYS.PERMISSION_CHECK, CACHE_KEYS.ROLE_CHECK.
    generalize (userId +:+ ":") (userId' +:+ ":" +:+ rest). intros x y. now cbv.
  - rewrite orb_false_r. unfold CACHE_KEYS.PERMISSION_CHECK, CACHE_KEYS.ROLE_CHECK.
    generalize (userId +:+ ":") (userId' +:+ ":" +:+ rest). intros x y. now cbv.
Qed.

(** C1, amended: [setUserContext(c2)] purges from the two decision caches
    exactly the entries whose key starts with [rbac:role:<id>:] or
    [rbac:permission:<id>:] for the new user id, [c2.userId]; these include
    every entry keyed for that id, so right after the swap every check made
    under [c2] misses the decision cache.  The entries of the previous user
    are not purged: when the two ids differ and hold no colon, every entry
    keyed for the previous user stays.  (For a new user id without
    regular-expression syntax characters: the id is interpolated into the
    pattern as it is.) *)
Theorem setUserContext_purges_the_new_user
    (env : JsEnv) (context : UserContext) (now : Z) (s : RoleService.t) :
  Js.regex_literal (UserContext.userId context) = true ->
  let s' := RoleService.setUserContext env context now s in
  (forall key,
     key ∈ LruCache.keys (RoleService.contextCache s')
     <-> key ∈ LruCache.keys (RoleService.contextCache s)
         /\ scoped_to (UserContext.userId context) key = false)
  /\ (forall key,
        key ∈ LruCache.keys (RoleService.permissionCache s')
        <-> key ∈ LruCache.keys (RoleService.permissionCache s)
            /\ scoped_to (UserContext.userId context) key = false)
  /\ (forall type identifier options,
        scoped_to (UserContext.userId context)
          (RoleService.generateCacheKey env type identifier
             (UserContext.userId context) options)
        = true)
  /\ (forall type identifier options now',
        LruCache.get
          (RoleService.generateCacheKey env type identifier
             (UserContext.userId context) options)
          now' (RoleService.contextCache s')
        = (RoleService.contextCache s', None))
  /\ (forall previous type identifier options,
        previous <> UserContext.userId context ->
        Js.includes (UserContext.userId context) ":" = false ->
        Js.includes previous ":" = false ->
        let key := RoleService.generateCacheKey env type identifier previous options in
        (key ∈ LruCache.keys (RoleService.contextCache s) ->
         key ∈ LruCache.keys (RoleService.contextCache s'))
        /\ (key ∈ LruCache.keys (RoleService.permissionCache s) ->
            key ∈ LruCache.keys (RoleService.permissionCache s'))).
Proof.
  intros Hliteral s'.
  assert (Hctx : LruCache.keys (RoleService.contextCache s')
                 = List.filter (fun k => negb (scoped_to (UserContext.userId context) k))
                               (LruCache.keys (RoleService.contextCache s))).
  { unfold s'. rewrite setUserContext_contextCache, invalidatePattern_keys.
    apply filter_ext. intros k. now rewrite user_pattern_test_literal. }
  assert (Hperm : LruCache.keys (RoleService.permissionCache s')
                  = List.filter (fun k => negb (scoped_to (UserContext.userId context) k))
                                (LruCache.keys (RoleService.permissionCache s))).
  { unfold s'. rewrite setUserContext_permissionCache, invalidatePattern_keys.
    apply filter_ext. intros k. now rewrite user_pattern_test_literal. }
  split; [|split; [|split; [|split]]].
  - intros key. rewrite Hctx. apply purged_keys.
  - intros key. rewrite Hperm. apply purged_keys.
  - intros type identifier options. apply generateCacheKey_scoped.
  - intros type identifier options now'. apply LruCache_get_absent.
    rewrite Hctx, purged_keys. intros [_ H].
    now rewrite generateCacheKey_scoped in H.
  - intros previous type identifier options Hne Hu Hp key.
    assert (Hkey : scoped_to (UserContext.userId context) key = false)
      by now apply generateCacheKey_other_user.
    split; intros Hin; [rewrite Hctx | rewrite Hperm]; now apply purged_keys.
Qed.

Lemma setUserContext_purges_the_new_user_witness :
  let admin := Role.mk 1 "admin" "Administrator" None None true None in
  let alice := UserContext.mk "alice" [admin] [] None None 0 in
  let bob := UserContext.mk "bob" [] [] None None 2 in
  let alice' := UserContext.mk "alice" [] [] None None 4 in
  let s1 := RoleService.setUserContext example_env alice 0 fresh_service in
  let s2 := fst (RoleService.hasRole example_env "admin" None 1 s1) in
  let s3 := RoleService.setUserContext example_env bob 2 s2 in
  let s4 := fst (RoleService.hasRole example_env "admin" None 3 s3) in
  let s' := RoleService.setUserContext example_env alice' 4 s4 in
  LruCache.keys (RoleService.contextCache s4)
  = ["rbac:role:alice:admin:"; "rbac:role:bob:admin:"]
  /\ LruCache.keys (RoleService.contextCache s') = ["rbac:role:bob:admin:"]
  /\ (forall key,
        key ∈ LruCache.keys (RoleService.contextCache s')
        <-> key ∈ LruCache.keys (RoleService.contextCache s4)
            /\ scoped_to "alice" key = false)
  /\ (forall type identifier options now',
        LruCache.get
          (RoleService.generateCacheKey example_env type identifier "alice" options)
          now' (RoleService.contextCache s')
        = (RoleService.contextCache s', None)).
Proof.
  intros admin alice bob alice' s1 s2 s3 s4 s'.
  destruct (setUserContext_purges_the_new_user example_env alice' 4 s4 eq_refl)
    as (Hkeys & _ & _ & Hmiss & _).
  split; [reflexivity|]. split; [reflexivity|]. split; [exact Hkeys | exact Hmiss].
Defined.

(** The key of a check separates the user id from the rest by a colon and
    does not escape the id: the entries of the user ["alice:x"] have the
    prefix of the user ["alice"] and are purged with them. *)
Example colon_in_a_user_id_widens_the_purge :
  let admin := Role.mk 1 "admin" "Administrator" None None true None in
  let first := UserContext.mk "alice:x" [admin] [] None None 0 in
  let second := UserContext.mk "alice" [] [] None None 2 in
  let s1 := RoleService.setUserContext example_env first 0 fresh_service in
  let s2 := fst (RoleService.hasRole example_env "admin" None 1 s1) in
  let s3 := RoleService.setUserContext example_env second 2 s2 in
  LruCache.keys (RoleService.contextCache s2) = ["rbac:role:alice:x:admin:"]
  /\ LruCache.keys (RoleService.contextCache s3) = [].
Proof. split; reflexivity. Qed.

(** [setUserContext] leaves the memo of the hierarchy manager as it is.  The
    memo is keyed by role ids and tenant, not by user: the resolution made
    for [alice], whose role ['manager'] is active, answers the check of
    [bob], whose role ['manager'] is not. *)
Example hierarchy_memo_survives_the_swap :
  let manager := Role.mk 1 "manager" "Manager" None (Some "admin") true None in
  let suspended := Role.mk 2 "manager" "Manager" None (Some "admin") false None in
  let alice := UserContext.mk "alice" [manager] [] None None 0 in
  let bob := UserContext.mk "bob" [suspended] [] None None 2 in
  let s1 := RoleService.setUserContext example_env alice 0 fresh_service in
  let s2 := fst (RoleService.hasRole example_env "admin" None 1 s1) in
  let s3 := RoleService.setUserContext example_env bob 2 s2 in
  RoleService.hierarchyManager s3 = RoleService.hierarchyManager s2
  /\ RoleService.hierarchyManager s2 = {["manager:no-tenant" := [manager]]}
  /\ snd (RoleService.hasRole example_env "manager" None 3 s3) = Normal true
  /\ snd (RoleService.hasRole example_env "manager" None 3
            (RoleService.setUserContext example_env bob 2 fresh_service))
     = Normal false.
Proof. repeat split; reflexivity. Qed.

(** A user id with a regular-expression syntax character is not escaped by
    [clearUserCache]: whether the entries of that user are purged is up to
    the meaning of the characters in the pattern.  In [^rbac:role:a+b:] the
    [+] repeats the [a], so the pattern does not match the key
    [rbac:role:a+b:admin:] ([example_env] answers accordingly) and the entry
    of the user ["a+b"] stays. *)
Example unescaped_user_id_is_not_purged :
  let admin := Role.mk 1 "admin" "Administrator" None None true None in
  let user := UserContext.mk "a+b" [admin] [] None None 0 in
  let s1 := RoleService.setUserContext example_env user 0 fresh_service in
  let s2 := fst (RoleService.hasRole example_env "admin" None 1 s1) in
  let s3 := RoleService.setUserContext example_env user 2 s2 in
  Js.regex_literal "a+b" = false
  /\ LruCache.keys (RoleService.contextCache s3) = ["rbac:role:a+b:admin:"].
Proof.
  split; reflexivity.
Qed.

(* ===================================================================== *)
(** ** The service: checks *)
(* ===================================================================== *)

Lemma executePermissionCheck_contextCache type identifier context options c s :
  RoleService.executePermissionCheck type identifier context options
    (RoleService.set_contextCache c s)
  = RoleService.executePermissionCheck type identifier context options s.
Proof. destruct type; reflexivity. Qed.

(** A check that the decision cache does not serve returns what
    [executePermissionCheck] computes. *)
Lemma performPermissionCheck_miss env type identifier options now s context :
  RoleService.userContext s = Some context ->
  cache_miss env type identifier options now s context ->
  snd (RoleService.performPermissionCheck env type identifier options now s)
  = snd (RoleService.executePermissionCheck type identifier context options s).
Proof.
  intros Hctx Hmiss. unfold RoleService.performPermissionCheck. rewrite Hctx.
  unfold cache_miss in Hmiss.
  destruct (RbacConfig.enableCaching (RoleService.config s)).
  - specialize (Hmiss eq_refl).
    destruct (LruCache.get _ now (RoleService.contextCache s)) as [c v].
    simpl in Hmiss. subst v. rewrite executePermissionCheck_contextCache.
    destruct (RoleService.executePermissionCheck _ _ _ _ s) as [h [result|e|]];
      reflexivity.
  - destruct (RoleService.executePermissionCheck _ _ _ _ s) as [h [result|e|]];
      reflexivity.
Qed.

(** Without a user context a check is denied at once; it is audited under
    the user id ['anonymous'], not cached, and emits no event. *)
Lemma performPermissionCheck_no_context env type identifier options now s :
  RoleService.userContext s = None ->
  let denied :=
    {| PermissionCheckResult.granted := false;
       PermissionCheckResult.reason := Some "No user context available";
       PermissionCheckResult.grantingRoles := None;
       PermissionCheckResult.grantingPermissions := None |} in
  let s' := fst (RoleService.performPermissionCheck env type identifier options now s) in
  snd (RoleService.performPermissionCheck env type identifier options now s)
  = Normal denied
  /\ RoleService.contextCache s' = RoleService.contextCache s
  /\ RoleService.eventSubject s' = RoleService.eventSubject s
  /\ exists entry,
       RoleService.auditLog s' = RoleService.auditLog s ++ [entry]
       /\ AuditLogEntry.userId entry = "anonymous"
       /\ AuditLogEntry.result entry = denied.
Proof.
  intros Hctx. unfold RoleService.performPermissionCheck. rewrite Hctx. simpl.
  repeat split. eexists. repeat split.
Qed.

(** C3, as stated, fails: the second of two equal checks is served from the
    cache, and neither the audit log nor the stream of events grows. *)
Lemma cache_hit_leaves_no_trace :
  let admin := Role.mk 1 "admin" "Administrator" None None true None in
  let alice := UserContext.mk "alice" [admin] [] None None 0 in
  let granted :=
    {| PermissionCheckResult.granted := true;
       PermissionCheckResult.reason := Some "Direct role assignment";
       PermissionCheckResult.grantingRoles := Some ["admin"];
       PermissionCheckResult.grantingPermissions := None |} in
  let s1 := RoleService.setUserContext example_env alice 0 fresh_service in
  let first := RoleService.performPermissionCheck example_env CheckRole "admin" None 1 s1 in
  let second :=
    RoleService.performPermissionCheck example_env CheckRole "admin" None 2 (fst first) in
  snd first = Normal granted
  /\ snd (LruCache.get "rbac:role:alice:admin:" 2 (RoleService.contextCache (fst first)))
     = Some granted
  /\ snd second = Normal granted
  /\ RoleService.auditLog (fst second) = RoleService.auditLog (fst first)
  /\ RoleService.eventSubject (fst second) = RoleService.eventSubject (fst first)
  /\ length (RoleService.auditLog (fst first)) = 1%nat.
Proof.
  repeat split; reflexivity.
Qed.

(** C3, amended: a check served from the cache (caching enabled, [get] finds
    an unexpired entry under the key of the check) returns the cached result
    as it is, appends no audit entry and emits no event; its only effect is
    that [get] moves the entry to the most recently used position. *)
Theorem cache_hit_is_served_silently
    (env : JsEnv) (type : CheckType) (identifier : string) (options : option Options)
    (now : Z) (s : RoleService.t) (context : UserContext)
    (cache' : LruCache.t PermissionCheckResult) (cached : PermissionCheckResult) :
  RoleService.userContext s = Some context ->
  RbacConfig.enableCaching (RoleService.config s) = true ->
  LruCache.get
    (RoleService.generateCacheKey env type identifier
       (UserContext.userId context) options)
    now (RoleService.contextCache s)
  = (cache', Some cached) ->
  RoleService.performPermissionCheck env type identifier options now s
  = (RoleService.set_contextCache cache' s, Normal cached)
  /\ RoleService.auditLog
       (fst (RoleService.performPermissionCheck env type identifier options now s))
     = RoleService.auditLog s
  /\ RoleService.eventSubject
       (fst (RoleService.performPermissionCheck env type identifier options now s))
     = RoleService.eventSubject s
  /\ LruCache.keys cache'
     = touched (RoleService.generateCacheKey env type identifier
                  (UserContext.userId context) options)
               (LruCache.keys (RoleService.contextCache s)).
Proof.
  intros Hctx Hcaching Hget.
  assert (H : RoleService.performPermissionCheck env type identifier options now s
              = (RoleService.set_contextCache cache' s, Normal cached)).
  { unfold RoleService.performPermissionCheck. now rewrite Hctx, Hcaching, Hget. }
  rewrite H. repeat split. now apply LruCache_get_hit in Hget as [Hkeys _].
Qed.

Lemma cache_hit_is_served_silently_witness :
  let admin := Role.mk 1 "admin" "Administrator" None None true None in
  let alice := UserContext.mk "alice" [admin] [] None None 0 in
  let granted :=
    {| PermissionCheckResult.granted := true;
       PermissionCheckResult.reason := Some "Direct role assignment";
       PermissionCheckResult.grantingRoles := Some ["admin"];
       PermissionCheckResult.grantingPermissions := None |} in
  let s1 := RoleService.setUserContext example_env alice 0 fresh_service in
  let s := fst (RoleService.performPermissionCheck example_env CheckRole "admin" None 1 s1) in
  let cache' := fst (LruCache.get "rbac:role:alice:admin:" 2 (RoleService.contextCache s)) in
  RoleService.performPermissionCheck example_env CheckRole "admin" None 2 s
  = (RoleService.set_contextCache cache' s, Normal granted)
  /\ RoleService.auditLog
       (fst (RoleService.performPermissionCheck example_env CheckRole "admin" None 2 s))
     = RoleService.auditLog s
  /\ RoleService.eventSubject
       (fst (RoleService.performPermissionCheck example_env CheckRole "admin" None 2 s))
     = RoleService.eventSubject s
  /\ LruCache.keys cache'
     = touched (RoleService.generateCacheKey example_env CheckRole "admin" "alice" None)
               (LruCache.keys (RoleService.contextCache s)).
Proof.
  intros admin alice granted s1 s cache'.
  apply (cache_hit_is_served_silently example_env CheckRole "admin" None 2 s alice
           cache' granted); reflexivity.
Defined.

(** The decision of [checkPermissionAccess]: some permission of the context
    satisfies the check. *)
Lemma checkPermissionAccess_granted permissionId context options :
  PermissionCheckResult.granted
    (RoleService.checkPermissionAccess permissionId context options) = true
  <-> exists p, p ∈ UserContext.permissions context /\ satisfies permissionId options p.
Proof.
  unfold RoleService.checkPermissionAccess.
  set (matches := fun p : Permission => if negb (Permission.active p) then false else _).
  assert (Hmatches : forall p, matches p = true <-> satisfies permissionId options p).
  { intros p. unfold matches, satisfies.
    destruct (Permission.active p); simpl; [|intuition discriminate].
    destruct (String.eqb_spec (Permission.id p) permissionId) as [Hid|Hid];
      [intuition|].
    destruct (Options.prop Options.resource options) as [resource|]; simpl.
    2:{ split; [discriminate|]. intros [_ [?|(r & a & ? & _)]]; [contradiction|discriminate]. }
    destruct (Options.prop Options.action options) as [action|]; simpl.
    2:{ rewrite andb_false_r.
        split; [discriminate|].
        intros [_ [?|(r & a & _ & ? & _)]]; [contradiction|discriminate]. }
    destruct (String.eqb_spec resource "") as [->|Hr]; simpl.
    { split; [discriminate|].
      intros [_ [?|(r & a & [= <-] & _ & ? & _)]]; contradiction. }
    destruct (String.eqb_spec action "") as [->|Ha]; simpl.
    { split; [discriminate|].
      intros [_ [?|(r & a & _ & [= <-] & _ & ? & _)]]; contradiction. }
    rewrite andb_true_iff, !String.eqb_eq. split.
    - intros [Hres Hact]. split; [reflexivity|]. right.
      exists resource, action. repeat split; assumption.
    - intros [_ [?|(r & a & [= <-] & [= <-] & _ & _ & Hres & Hact)]];
        [contradiction | now split]. }
  destruct (existsb matches (UserContext.permissions context)) eqn:E; simpl.
  - split; [intros _|reflexivity].
    apply existsb_exists in E as (p & Hin & Hp).
    exists p. split; [now apply list_elem_of_In | now apply Hmatches].
  - split; [discriminate|]. intros (p & Hin & Hp). rewrite <- E.
    apply existsb_exists. exists p. split; [now apply list_elem_of_In | now apply Hmatches].
Qed.

(** C9: a permission check that the decision cache does not serve is granted
    iff some active permission of the user context has the id asked for, or,
    when both a [resource] and an [action] option are supplied (non-empty),
    has that resource and that action.  The two criteria are alternatives,
    and an inactive permission satisfies neither. *)
Theorem permission_granted_by_id_or_by_resource_and_action
    (env : JsEnv) (permissionId : string) (options : option Options) (now : Z)
    (s : RoleService.t) (context : UserContext) :
  RoleService.userContext s = Some context ->
  cache_miss env CheckPermission permissionId options now s context ->
  exists granted : bool,
    snd (RoleService.hasPermission env permissionId options now s) = Normal granted
    /\ (granted = true
        <-> exists p, p ∈ UserContext.permissions context
                      /\ satisfies permissionId options p).
Proof.
  intros Hctx Hmiss.
  pose proof (performPermissionCheck_miss env CheckPermission permissionId options
                now s context Hctx Hmiss) as H.
  exists (PermissionCheckResult.granted
            (RoleService.checkPermissionAccess permissionId context options)).
  split; [|apply checkPermissionAccess_granted].
  unfold RoleService.hasPermission.
  destruct (RoleService.performPermissionCheck _ _ _ _ _ _) as [s' r].
  simpl in *. now rewrite H.
Qed.

Lemma permission_granted_by_id_or_by_resource_and_action_witness :
  let p1 := Permission.mk "p1" "Edit documents" "doc" "edit" true None in
  let context := UserContext.mk "alice" [] [p1] None None 0 in
  let s := RoleService.setUserContext example_env context 0 fresh_service in
  let options := Some (Options.mk None None (Some "doc") (Some "edit") None) in
  exists granted : bool,
    snd (RoleService.hasPermission example_env "other" options 1 s) = Normal granted
    /\ (granted = true
        <-> exists p, p ∈ [p1] /\ satisfies "other" options p).
Proof.
  intros p1 context s options.
  apply (permission_granted_by_id_or_by_resource_and_action
           example_env "other" options 1 s context).
  - reflexivity.
  - intros _. reflexivity.
Defined.

(** The scenario of the permission [p1] on resource [doc], action [edit]. *)
Example permission_scenario :
  let p1 := Permission.mk "p1" "Edit documents" "doc" "edit" true None in
  let p2 := Permission.mk "p2" "Delete documents" "doc" "delete" false None in
  let context := UserContext.mk "alice" [] [p1; p2] None None 0 in
  let s := RoleService.setUserContext example_env context 0 fresh_service in
  let edit := Some (Options.mk None None (Some "doc") (Some "edit") None) in
  let delete := Some (Options.mk None None (Some "doc") (Some "delete") None) in
  snd (RoleService.hasPermission example_env "p1" None 1 s) = Normal true
  /\ snd (RoleService.hasPermission example_env "other" edit 1 s) = Normal true
  /\ snd (RoleService.hasPermission example_env "other" None 1 s) = Normal false
  /\ snd (RoleService.hasPermission example_env "p2" None 1 s) = Normal false
  /\ snd (RoleService.hasPermission example_env "other" delete 1 s) = Normal false.
Proof.
  repeat split; reflexivity.
Qed.

Lemma hasRole_outcome env roleId options now s :
  snd (RoleService.hasRole env roleId options now s)
  = (result <- snd (RoleService.performPermissionCheck env CheckRole roleId options now s) ;;
     Normal (PermissionCheckResult.granted result)).
Proof.
  unfold RoleService.hasRole.
  now destruct (RoleService.performPermissionCheck _ _ _ _ _ _).
Qed.




(** The scenario of the claim evaluated on a state whose signal
    [systemRoles] holds the universe, which no operation of the service
    brings about: inheritance is enabled by the default configuration and
    disabled by the option of the call. *)
Example inherited_role_scenario :
  let manager := Role.mk 1 "manager" "Manager" (Some 20) (Some "admin") true None in
  let admin := Role.mk 2 "admin" "Administrator" (Some 10) None true None in
  let context := UserContext.mk "alice" [manager] [] None None 0 in
  let s :=
    {| RoleService.config := DEFAULT_RBAC_CONFIG;
       RoleService.userContext := Some context;
       RoleService.systemRoles := [admin; manager];
       RoleService.roles_subject := ["manager"];
       RoleService.permissions_subject := [];
       RoleService.tenant_subject := None;
       RoleService.eventSubject := [];
       RoleService.permissionCache := LruCache.mk [] 1000 300000;
       RoleService.contextCache := LruCache.mk [] 1000 300000;
       RoleService.auditLog := [];
       RoleService.hierarchyManager := ∅ |} in
  let disabled := Some (Options.mk (Some false) None None None None) in
  snd (RoleService.hasRole example_env "admin" disabled 1 s) = Normal false
  /\ snd (RoleService.checkPermissionDetailed example_env CheckRole "admin" None 1 s)
     = Normal
         {| PermissionCheckResult.granted := true;
            PermissionCheckResult.reason := Some "Inherited role assignment";
            PermissionCheckResult.grantingRoles := Some ["admin"];
            PermissionCheckResult.grantingPermissions := None |}.
Proof.
  split; reflexivity.
Qed.

(** No operation of the service writes [systemRoles]: from its construction
    on, the role universe of the service is empty, and a role is never
    inherited through a parent. *)
Lemma systemRoles_are_never_set env context options type identifier roleId now s :
  RoleService.systemRoles (RoleService.setUserContext env context now s)
  = RoleService.systemRoles s
  /\ RoleService.systemRoles (RoleService.clearAllCaches now s)
     = RoleService.systemRoles s
  /\ RoleService.systemRoles
       (fst (RoleService.performPermissionCheck env type identifier options now s))
     = RoleService.systemRoles s
  /\ RoleService.systemRoles (fst (RoleService.hasRole env roleId options now s))
     = RoleService.systemRoles s
  /\ RoleService.systemRoles (fst (RoleService.hasPermission env roleId options now s))
     = RoleService.systemRoles s.
Proof.
  assert (Hcheck : forall type identifier,
             RoleService.systemRoles
               (fst (RoleService.performPermissionCheck env type identifier options now s))
             = RoleService.systemRoles s).
  { intros type' identifier'. unfold RoleService.performPermissionCheck.
    destruct (RoleService.userContext s) as [context'|]; [|reflexivity].
    destruct (RbacConfig.enableCaching (RoleService.config s)) eqn:Ecaching.
    - destruct (LruCache.get _ now (RoleService.contextCache s)) as [c [cached|]];
        [reflexivity|].
      destruct (RoleService.executePermissionCheck _ _ _ _ _) as [h [result|e|]];
        try reflexivity.
      unfold RoleService.record_check. simpl. rewrite Ecaching. reflexivity.
    - destruct (RoleService.executePermissionCheck _ _ _ _ _) as [h [result|e|]];
        try reflexivity.
      unfold RoleService.record_check. simpl. rewrite Ecaching. reflexivity. }
  repeat split; try reflexivity; try apply Hcheck.
  - unfold RoleService.hasRole.
    specialize (Hcheck CheckRole roleId).
    now destruct (RoleService.performPermissionCheck _ _ _ _ _ _).
  - unfold RoleService.hasPermission.
    specialize (Hcheck CheckPermission roleId).
    now destruct (RoleService.performPermissionCheck _ _ _ _ _ _).
Qed.

(* ===================================================================== *)
(** ** Further properties of the LRU cache *)
(* ===================================================================== *)

Section JsMap_more.
Context {V : Type}.
Implicit Types (m : JsMap.t V) (k : string) (v : V).

Lemma JsMap_get_app_ne k k' v m :
  k' <> k -> JsMap.get k' (m ++ [(k, v)]) = JsMap.get k' m.
Proof.
  intros Hne. unfold JsMap.get, JsMap.key_is.
  induction m as [|[k0 v0] m IH]; simpl.
  - destruct (String.eqb_spec k k'); [congruence | reflexivity].
  - destruct (String.eqb_spec k0 k'); [reflexivity | exact IH].
Qed.

Lemma JsMap_get_fresh k m : k ∉ JsMap.keys m -> JsMap.get k m = None.
Proof.
  intros H. destruct (JsMap.get k m) eqn:E; [|reflexivity].
  exfalso. apply H, JsMap_get_keys. rewrite E. now eexists.
Qed.

Lemma JsMap_keys_get k m : k ∈ JsMap.keys m -> is_Some (JsMap.get k m).
Proof.
  unfold JsMap.get, JsMap.keys, JsMap.key_is.
  induction m as [|[k0 v0] m IH]; simpl; intros H; [inversion H|].
  destruct (String.eqb_spec k0 k) as [->|Hne]; [now eexists|].
  apply elem_of_cons in H as [->|H]; [contradiction | now apply IH].
Qed.

Lemma JsMap_delete_NoDup k m :
  NoDup (JsMap.keys m) -> NoDup (JsMap.keys (JsMap.delete k m)).
Proof.
  intros H. rewrite JsMap_keys_delete.
  apply NoDup_ListNoDup, List.NoDup_filter, NoDup_ListNoDup, H.
Qed.

Lemma JsMap_keys_filter (f : string * V -> bool) (g : string -> bool) m :
  (forall kv, f kv = g (fst kv)) ->
  JsMap.keys (List.filter f m) = List.filter g (JsMap.keys m).
Proof.
  intros Hfg. unfold JsMap.keys.
  induction m as [|kv m IH]; simpl; [reflexivity|].
  rewrite Hfg. destruct (g (fst kv)); simpl; now rewrite IH.
Qed.

Lemma JsMap_filter_NoDup (f : string * V -> bool) m :
  NoDup (JsMap.keys m) -> NoDup (JsMap.keys (List.filter f m)).
Proof.
  unfold JsMap.keys. induction m as [|kv m IH]; simpl; intros H; [constructor|].
  apply NoDup_cons in H as [Hk H]. destruct (f kv); simpl; [|now apply IH].
  apply NoDup_cons. split; [|now apply IH].
  intros Hin. apply Hk. apply list_elem_of_In, in_map_iff in Hin as (x & Hx & Hin).
  apply filter_In in Hin as [Hin _].
  apply list_elem_of_In, in_map_iff. now exists x.
Qed.

(** In a map without repeated keys, filtering the entries filters what [get]
    finds. *)
Lemma JsMap_get_filter (f : string * V -> bool) k m :
  NoDup (JsMap.keys m) ->
  JsMap.get k (List.filter f m)
  = match JsMap.get k m with
    | Some v => if f (k, v) then Some v else None
    | None => None
    end.
Proof.
  induction m as [|[k0 v0] m IH]; intros Hnd; [reflexivity|].
  apply NoDup_cons in Hnd as [Hk0 Hnd]. simpl in Hk0.
  unfold JsMap.get in *. simpl. unfold JsMap.key_is at 2. simpl.
  destruct (String.eqb_spec k0 k) as [->|Hne]; simpl.
  - destruct (f (k, v0)) eqn:Ef; simpl.
    + unfold JsMap.key_is at 1. simpl. now rewrite String.eqb_refl.
    + fold (JsMap.get k (List.filter f m)). apply JsMap_get_fresh.
      intros Hin. apply Hk0.
      apply list_elem_of_In, in_map_iff in Hin as (x & Hx & Hin).
      apply filter_In in Hin as [Hin _].
      apply list_elem_of_In, in_map_iff. now exists x.
  - destruct (f (k0, v0)); simpl; [|now apply IH].
    unfold JsMap.key_is at 1. simpl.
    destruct (String.eqb_spec k0 k); [contradiction | now apply IH].
Qed.

Lemma filter_length_split {A : Type} (f : A -> bool) (l : list A) :
  (length (List.filter f l) + length (List.filter (fun x => negb (f x)) l))%nat
  = length l.
Proof.
  induction l as [|x l IH]; simpl; [reflexivity|].
  destruct (f x); simpl; lia.
Qed.

Lemma filter_none {A : Type} (f : A -> bool) (l : list A) :
  List.filter f (List.filter (fun x => negb (f x)) l) = [].
Proof.
  induction l as [|x l IH]; simpl; [reflexivity|].
  destruct (f x) eqn:E; simpl; [exact IH|]. now rewrite E.
Qed.

Lemma filter_idem {A : Type} (f : A -> bool) (l : list A) :
  List.filter f (List.filter f l) = List.filter f l.
Proof.
  induction l as [|x l IH]; simpl; [reflexivity|].
  destruct (f x) eqn:E; simpl; [|exact IH]. now rewrite E, IH.
Qed.

End JsMap_more.

Section LruCache_more.
Context {T : Type}.
Implicit Types (c : LruCache.t T) (k : string) (v : T).

(** The map that [set] leaves, whether the key was in the cache or not. *)
Lemma LruCache_set_cache k v ttl now c :
  let entry :=
    {| CacheEntry.value := v;
       CacheEntry.timestamp := now;
       CacheEntry.ttl :=
         if Js.truthy_number ttl then Js.nullish ttl 0 else LruCache.defaultTtl c;
       CacheEntry.key := k |} in
  let m2 := JsMap.delete k (LruCache.cache c) ++ [(k, entry)] in
  LruCache.cache (LruCache.set k v ttl now c)
  = if JsMap.size m2 >? LruCache.maxSize c
    then if Js.truthy_string (JsMap.first_key m2)
         then JsMap.delete (Js.nullish (JsMap.first_key m2) "") m2
         else m2
    else m2.
Proof.
  intros entry m2. unfold LruCache.set. fold entry.
  assert (Hm1 : (if JsMap.has k (LruCache.cache c)
                 then JsMap.delete k (LruCache.cache c) else LruCache.cache c)
                = JsMap.delete k (LruCache.cache c)).
  { destruct (JsMap.has k (LruCache.cache c)) eqn:E; [reflexivity|].
    symmetry. apply JsMap_delete_fresh. intros Hin.
    apply JsMap_has_keys in Hin. congruence. }
  rewrite Hm1, (JsMap_set_fresh k entry _ (JsMap_delete_gone k _)). fold m2.
  repeat match goal with |- context [if ?b then _ else _] => destruct b end;
    reflexivity.
Qed.

Lemma LruCache_set_NoDup k v ttl now c :
  NoDup (LruCache.keys c) -> NoDup (LruCache.keys (LruCache.set k v ttl now c)).
Proof.
  intros Hnd. unfold LruCache.keys at 1. rewrite LruCache_set_cache.
  set (m2 := JsMap.delete k (LruCache.cache c) ++ _).
  assert (H2 : NoDup (JsMap.keys m2)).
  { unfold m2. rewrite JsMap_keys_app, JsMap_keys_delete. simpl.
    apply (touched_NoDup k _ Hnd). }
  repeat match goal with |- context [if ?b then _ else _] => destruct b end;
    try exact H2.
  now apply JsMap_delete_NoDup.
Qed.

Lemma LruCache_get_NoDup k now c :
  NoDup (LruCache.keys c) -> NoDup (LruCache.keys (fst (LruCache.get k now c))).
Proof.
  intros Hnd. unfold LruCache.get.
  destruct (JsMap.get k (LruCache.cache c)) as [entry|]; [|exact Hnd].
  destruct (LruCache.expired now entry); unfold LruCache.keys; simpl.
  - now apply JsMap_delete_NoDup.
  - rewrite JsMap_set_fresh by apply JsMap_delete_gone.
    rewrite JsMap_keys_app, JsMap_keys_delete. apply (touched_NoDup k _ Hnd).
Qed.

Lemma LruCache_refresh_NoDup k newTtl now c :
  NoDup (LruCache.keys c) ->
  NoDup (LruCache.keys (fst (LruCache.refresh k newTtl now c))).
Proof.
  intros Hnd. unfold LruCache.refresh.
  destruct (JsMap.get k (LruCache.cache c)) as [entry|]; [|exact Hnd].
  unfold LruCache.keys; simpl.
  rewrite JsMap_set_fresh by apply JsMap_delete_gone.
  rewrite JsMap_keys_app, JsMap_keys_delete. apply (touched_NoDup k _ Hnd).
Qed.

(** What [get] answers, from the entry stored under the key. *)
Lemma LruCache_get_result k now c :
  snd (LruCache.get k now c)
  = match JsMap.get k (LruCache.cache c) with
    | Some entry =>
        if LruCache.expired now entry then None else Some (CacheEntry.value entry)
    | None => None
    end.
Proof.
  unfold LruCache.get. destruct (JsMap.get k (LruCache.cache c)) as [entry|];
    [|reflexivity].
  now destruct (LruCache.expired now entry).
Qed.

(** One [set] keeps the cache within its capacity and its keys non-empty. *)
Lemma LruCache_set_bounded k v ttl now c :
  0 <= LruCache.maxSize c ->
  k <> "" ->
  Forall (fun x => x <> "") (LruCache.keys c) ->
  JsMap.size (LruCache.cache c) <= LruCache.maxSize c ->
  JsMap.size (LruCache.cache (LruCache.set k v ttl now c)) <= LruCache.maxSize c
  /\ Forall (fun x => x <> "") (LruCache.keys (LruCache.set k v ttl now c)).
Proof.
  intros Hmax Hk Hne Hsize.
  unfold LruCache.keys at 1. rewrite LruCache_set_cache.
  set (entry := CacheEntry.mk v now _ k).
  set (m1 := JsMap.delete k (LruCache.cache c)).
  assert (Hlen1 : (length m1 <= length (LruCache.cache c))%nat).
  { unfold m1, JsMap.delete. apply List.filter_length_le. }
  assert (Hne1 : Forall (fun x => x <> "") (JsMap.keys (m1 ++ [(k, entry)]))).
  { rewrite JsMap_keys_app. apply Forall_app. split.
    - unfold m1. rewrite JsMap_keys_delete.
      apply Forall_forall. intros x Hx.
      apply list_elem_of_In, filter_In in Hx as [Hx _].
      rewrite Forall_forall in Hne. now apply Hne, list_elem_of_In.
    - simpl. now apply Forall_singleton. }
  destruct (Z.gtb_spec (JsMap.size (m1 ++ [(k, entry)])) (LruCache.maxSize c))
    as [Hgt|Hle]; [|split; [exact Hle | exact Hne1]].
  assert (Hdel : forall k0,
             Forall (fun x => x <> "")
                    (JsMap.keys (JsMap.delete k0 (m1 ++ [(k, entry)])))).
  { intros k0. rewrite JsMap_keys_delete. apply Forall_forall. intros x Hx.
    apply list_elem_of_In, filter_In in Hx as [Hx _].
    rewrite Forall_forall in Hne1. now apply Hne1, list_elem_of_In. }
  unfold JsMap.size in *. rewrite length_app in Hgt. simpl in Hgt.
  destruct m1 as [|[k0 e0] m1'] eqn:Em1.
  - simpl. assert (String.eqb k "" = false) as -> by now apply String.eqb_neq.
    simpl. unfold JsMap.delete, JsMap.key_is. simpl. rewrite String.eqb_refl.
    simpl. split; [lia | constructor].
  - change (JsMap.first_key (((k0, e0) :: m1') ++ [(k, entry)])) with (Some k0).
    assert (Hk0 : k0 <> "").
    { apply Forall_cons in Hne1 as [H _]. exact H. }
    unfold Js.truthy_string, Js.nullish.
    assert (String.eqb k0 "" = false) as -> by now apply String.eqb_neq.
    simpl negb. cbv iota. split; [|apply Hdel].
    unfold JsMap.delete at 1. simpl. unfold JsMap.key_is at 1. simpl.
    rewrite String.eqb_refl. simpl.
    pose proof (List.filter_length_le
                  (fun kv => negb (JsMap.key_is k0 kv)) (m1' ++ [(k, entry)])) as Hf.
    rewrite length_app in Hf. simpl in *. lia.
Qed.

End LruCache_more.

(** X1.  In a cache that can hold an entry, a [get] that follows [set] of
    the same key answers the value just stored as long as no more than the
    stored time-to-live has passed since the [set], and misses afterwards. *)
Theorem set_then_get_round_trip {T : Type} (k : string) (v : T) (ttl : option Z)
    (now now' : Z) (c : LruCache.t T) :
  1 <= LruCache.maxSize c ->
  snd (LruCache.get k now' (LruCache.set k v ttl now c))
  = if now' - now >? stored_ttl ttl c then None else Some v.
Proof.
  intros Hmax. rewrite LruCache_get_result, (LruCache_set_stores k v ttl now c Hmax).
  reflexivity.
Qed.

Lemma set_then_get_round_trip_witness :
  1 <= LruCache.maxSize (LruCache.mk (T := bool) [] 2 1000)
  /\ snd (LruCache.get "k" 1500
            (LruCache.set "k" true (Some 500) 1000 (LruCache.mk [] 2 1000)))
     = Some true.
Proof.
  split; [simpl; lia|].
  apply (set_then_get_round_trip "k" true (Some 500) 1000 1500 (LruCache.mk [] 2 1000)).
  simpl; lia.
Defined.

(** X2.  No operation of the cache makes a key appear twice: keys that are
    pairwise distinct stay so through [set], [get], [delete], [cleanup],
    [invalidatePattern] and [refresh]. *)
Theorem keys_stay_distinct {T : Type} (c : LruCache.t T) :
  NoDup (LruCache.keys c) ->
  (forall k v ttl now, NoDup (LruCache.keys (LruCache.set k v ttl now c)))
  /\ (forall k now, NoDup (LruCache.keys (fst (LruCache.get k now c))))
  /\ (forall k, NoDup (LruCache.keys (fst (LruCache.delete k c))))
  /\ (forall now, NoDup (LruCache.keys (fst (LruCache.cleanup now c))))
  /\ (forall test, NoDup (LruCache.keys (fst (LruCache.invalidatePattern test c))))
  /\ (forall k newTtl now, NoDup (LruCache.keys (fst (LruCache.refresh k newTtl now c)))).
Proof.
  intros Hnd. repeat split; intros.
  - now apply LruCache_set_NoDup.
  - now apply LruCache_get_NoDup.
  - now apply JsMap_delete_NoDup.
  - now apply JsMap_filter_NoDup.
  - now apply JsMap_filter_NoDup.
  - now apply LruCache_refresh_NoDup.
Qed.

Lemma keys_stay_distinct_witness :
  NoDup (LruCache.keys (sets [SetCall.mk "a" true None 0; SetCall.mk "b" true None 0]
                             (LruCache.mk [] 2 1000)))
  /\ NoDup (LruCache.keys
              (LruCache.set "a" false None 5
                 (sets [SetCall.mk "a" true None 0; SetCall.mk "b" true None 0]
                       (LruCache.mk [] 2 1000)))).
Proof.
  assert (H : NoDup (LruCache.keys
                       (sets [SetCall.mk "a" true None 0; SetCall.mk "b" true None 0]
                             (LruCache.mk [] 2 1000)))) by compute_done.
  split; [exact H|].
  exact (proj1 (keys_stay_distinct _ H) "a" false None 5).
Defined.

Lemma sets_bounded {T : Type} (calls : list (SetCall.t T)) (c : LruCache.t T) :
  0 <= LruCache.maxSize c ->
  Forall (fun x => SetCall.key x <> "") calls ->
  Forall (fun x => x <> "") (LruCache.keys c) ->
  JsMap.size (LruCache.cache c) <= LruCache.maxSize c ->
  JsMap.size (LruCache.cache (sets calls c)) <= LruCache.maxSize c.
Proof.
  revert c. induction calls as [|x calls IH]; intros c Hmax Hcalls Hne Hsize;
    [exact Hsize|].
  apply Forall_cons in Hcalls as [Hx Hcalls]. simpl.
  destruct (LruCache_set_bounded (SetCall.key x) (SetCall.value x) (SetCall.ttl x)
              (SetCall.now x) c Hmax Hx Hne Hsize) as [Hsize' Hne'].
  rewrite <- (LruCache_maxSize_set (SetCall.key x) (SetCall.value x) (SetCall.ttl x)
                (SetCall.now x) c) in *.
  now apply IH.
Qed.

(** X3.  A cache constructed with a capacity that is not negative never
    holds more entries than that capacity, whatever sequence of [set] with
    non-empty keys follows. *)
Theorem capacity_is_never_exceeded {T : Type} (maxSize : Z) (defaultTtl : option Z)
    (calls : list (SetCall.t T)) (c : LruCache.t T) :
  0 <= maxSize ->
  Forall (fun x => SetCall.key x <> "") calls ->
  LruCache.constructor (Some maxSize) defaultTtl = Normal c ->
  JsMap.size (LruCache.cache (sets calls c)) <= maxSize.
Proof.
  intros Hmax Hcalls Hc. injection Hc as <-.
  apply (sets_bounded calls); simpl; try assumption.
  constructor.
Qed.

Lemma capacity_is_never_exceeded_witness :
  JsMap.size
    (LruCache.cache
       (sets [SetCall.mk "a" true None 0; SetCall.mk "b" true None 1;
              SetCall.mk "a" false None 2; SetCall.mk "c" true None 3]
             (LruCache.mk [] 2 300000)))
  <= 2.
Proof.
  apply (capacity_is_never_exceeded 2 None
           [SetCall.mk "a" true None 0; SetCall.mk "b" true None 1;
            SetCall.mk "a" false None 2; SetCall.mk "c" true None 3]).
  - lia.
  - repeat (apply List.Forall_cons; [discriminate|]). apply List.Forall_nil.
  - reflexivity.
Defined.

(** X4.  A successful [get] changes only the recency order: every key,
    the one that was read included, still holds the entry it held, with its
    timestamp and time-to-live, so reading an entry does not extend its
    life. *)
Theorem hit_keeps_every_entry {T : Type} (k : string) (now : Z)
    (c c' : LruCache.t T) (v : T) :
  LruCache.get k now c = (c', Some v) ->
  forall k', JsMap.get k' (LruCache.cache c') = JsMap.get k' (LruCache.cache c).
Proof.
  unfold LruCache.get. intros H k'.
  destruct (JsMap.get k (LruCache.cache c)) as [entry|] eqn:Eg; [|discriminate].
  destruct (LruCache.expired now entry); [discriminate|].
  injection H as <- _. simpl.
  rewrite JsMap_set_fresh by apply JsMap_delete_gone.
  destruct (String.eqb_spec k k') as [<-|Hne].
  - rewrite JsMap_get_last by apply JsMap_delete_gone. now rewrite Eg.
  - rewrite JsMap_get_app_ne by congruence. now apply JsMap_get_delete_ne.
Qed.

Lemma hit_keeps_every_entry_witness :
  let c := sets [SetCall.mk "a" true (Some 10) 0; SetCall.mk "b" false (Some 10) 1]
                (LruCache.mk [] 2 1000) in
  LruCache.keys (fst (LruCache.get "a" 5 c)) = ["b"; "a"]
  /\ forall k', JsMap.get k' (LruCache.cache (fst (LruCache.get "a" 5 c)))
                = JsMap.get k' (LruCache.cache c).
Proof.
  intros c. split; [reflexivity|].
  apply (hit_keeps_every_entry "a" 5 c (fst (LruCache.get "a" 5 c)) true).
  reflexivity.
Defined.

(** X5.  [delete] answers whether the key was in the cache; afterwards the
    key misses at any time, and every other key holds the entry it held. *)
Theorem delete_removes_one_key {T : Type} (k : string) (c : LruCache.t T) :
  (snd (LruCache.delete k c) = true <-> k ∈ LruCache.keys c)
  /\ (forall now, snd (LruCache.get k now (fst (LruCache.delete k c))) = None)
  /\ (forall k', k' <> k ->
        JsMap.get k' (LruCache.cache (fst (LruCache.delete k c)))
        = JsMap.get k' (LruCache.cache c)).
Proof.
  unfold LruCache.delete. simpl. split; [apply JsMap_has_keys|]. split.
  - intros now. rewrite LruCache_get_result. simpl.
    now rewrite (JsMap_get_fresh k _ (JsMap_delete_gone k _)).
  - intros k' Hne. apply JsMap_get_delete_ne. congruence.
Qed.

(** X6.  [cleanup] removes the expired entries and counts them: its result
    is the number of expired entries that [getStats] reported, the size drops
    by that number, no expired entry is left, and a second [cleanup] at the
    same time removes nothing. *)
Theorem cleanup_removes_the_expired_entries {T : Type} (now : Z) (c : LruCache.t T) :
  let c' := fst (LruCache.cleanup now c) in
  snd (LruCache.cleanup now c) = CacheStats.expiredEntries (LruCache.getStats now c)
  /\ CacheStats.size (LruCache.getStats now c')
     = CacheStats.size (LruCache.getStats now c) - snd (LruCache.cleanup now c)
  /\ CacheStats.expiredEntries (LruCache.getStats now c') = 0
  /\ LruCache.cleanup now c' = (c', 0).
Proof.
  unfold LruCache.cleanup, LruCache.getStats, JsMap.size,
    LruCache.with_cache. cbn [fst snd LruCache.cache LruCache.maxSize
    LruCache.defaultTtl CacheStats.size CacheStats.expiredEntries].
  set (f := fun kv : string * CacheEntry T => LruCache.expired now (snd kv)).
  pose proof (filter_length_split f (LruCache.cache c)) as Hlen.
  pose proof (filter_none f (LruCache.cache c)) as Hnone.
  pose proof (filter_idem (fun x => negb (f x)) (LruCache.cache c)) as Hidem.
  subst f. cbv beta in *. repeat split.
  - lia.
  - now rewrite Hnone.
  - now rewrite Hnone, Hidem.
Qed.

(** X7.  [cleanup] cannot be observed through [get]: in a cache with
    distinct keys, a [get] at the time of the [cleanup] or later answers the
    same with and without it. *)
Theorem cleanup_is_not_observable {T : Type} (k : string) (now now' : Z)
    (c : LruCache.t T) :
  NoDup (LruCache.keys c) ->
  now <= now' ->
  snd (LruCache.get k now' (fst (LruCache.cleanup now c)))
  = snd (LruCache.get k now' c).
Proof.
  intros Hnd Hle. rewrite !LruCache_get_result. unfold LruCache.cleanup. simpl.
  rewrite JsMap_get_filter by exact Hnd.
  destruct (JsMap.get k (LruCache.cache c)) as [entry|]; [|reflexivity].
  simpl. destruct (LruCache.expired now entry) eqn:E; [|reflexivity]. simpl.
  unfold LruCache.expired in *. apply Z.gtb_lt in E.
  destruct (Z.gtb_spec (now' - CacheEntry.timestamp entry) (CacheEntry.ttl entry));
    [reflexivity | lia].
Qed.

Lemma cleanup_is_not_observable_witness :
  let c := sets [SetCall.mk "a" true (Some 10) 0; SetCall.mk "b" false (Some 100) 1]
                (LruCache.mk [] 2 1000) in
  LruCache.keys (fst (LruCache.cleanup 50 c)) = ["b"]
  /\ snd (LruCache.get "a" 60 (fst (LruCache.cleanup 50 c)))
     = snd (LruCache.get "a" 60 c).
Proof.
  intros c. split; [reflexivity|].
  apply (cleanup_is_not_observable "a" 50 60 c); [compute_done | lia].
Defined.

(** For a pattern without the flags [g] and [y], [test] is a function of the
    key and leaves the pattern as it is, and the loop is a filter. *)
Lemma RegExp_test_flagless (pattern : RegExp) (key : string) :
  RegExp.global pattern = false ->
  RegExp.sticky pattern = false ->
  fst (RegExp.test pattern key) = pattern.
Proof.
  intros Hg Hy. unfold RegExp.test. rewrite Hg, Hy. simpl.
  now destruct (RegExp.exec pattern 0 key).
Qed.

Lemma invalidate_each_flagless {T : Type} (pattern : RegExp)
    (m : JsMap.t (CacheEntry T)) :
  RegExp.global pattern = false ->
  RegExp.sticky pattern = false ->
  LruCache.invalidate_each pattern m
  = (List.filter (fun kv => negb (snd (RegExp.test pattern (fst kv)))) m,
     Z.of_nat (length (List.filter (fun kv => snd (RegExp.test pattern (fst kv))) m)),
     pattern).
Proof.
  intros Hg Hy. induction m as [|kv rest IH]; [reflexivity|].
  cbn [LruCache.invalidate_each List.filter].
  pose proof (RegExp_test_flagless pattern (fst kv) Hg Hy) as Hp.
  destruct (RegExp.test pattern (fst kv)) as [pattern1 matched].
  simpl in Hp. subst pattern1. rewrite IH.
  destruct matched; simpl; [|reflexivity].
  do 2 f_equal. lia.
Qed.

Lemma invalidatePattern_RegExp_flagless {T : Type} (pattern : RegExp)
    (c : LruCache.t T) :
  RegExp.global pattern = false ->
  RegExp.sticky pattern = false ->
  LruCache.invalidatePattern_RegExp pattern c
  = (LruCache.invalidatePattern (fun key => snd (RegExp.test pattern key)) c, pattern).
Proof.
  intros Hg Hy. unfold LruCache.invalidatePattern_RegExp.
  now rewrite invalidate_each_flagless.
Qed.

(** X8.  For a pattern without the flags [g] and [y], [invalidatePattern]
    removes the entries whose key matches and counts them: the size drops by
    its result, a matching key misses afterwards, a [get] of any other key of
    a cache with distinct keys answers as before, and the pattern object is
    left as it is. *)
Theorem invalidatePattern_removes_the_matches {T : Type} (pattern : RegExp)
    (c : LruCache.t T) :
  RegExp.global pattern = false ->
  RegExp.sticky pattern = false ->
  NoDup (LruCache.keys c) ->
  let test := fun key => snd (RegExp.test pattern key) in
  let c' := fst (fst (LruCache.invalidatePattern_RegExp pattern c)) in
  let removedCount := snd (fst (LruCache.invalidatePattern_RegExp pattern c)) in
  removedCount = Z.of_nat (length (List.filter test (LruCache.keys c)))
  /\ JsMap.size (LruCache.cache c') = JsMap.size (LruCache.cache c) - removedCount
  /\ LruCache.keys c' = List.filter (fun key => negb (test key)) (LruCache.keys c)
  /\ (forall k now,
        snd (LruCache.get k now c')
        = if test k then None else snd (LruCache.get k now c))
  /\ snd (LruCache.invalidatePattern_RegExp pattern c) = pattern.
Proof.
  intros Hg Hy Hnd test c' removedCount. unfold c', removedCount.
  rewrite (invalidatePattern_RegExp_flagless pattern c Hg Hy). cbn [fst snd].
  fold test. rewrite invalidatePattern_keys.
  unfold LruCache.invalidatePattern, JsMap.size, LruCache.with_cache.
  cbn [fst snd LruCache.cache].
  set (f := fun kv : string * CacheEntry T => test (fst kv)).
  pose proof (filter_length_split f (LruCache.cache c)) as Hlen.
  pose proof (JsMap_keys_filter f test (LruCache.cache c) (fun _ => eq_refl)) as Hkeys.
  subst f. cbv beta in *. split; [|split; [|split; [|split]]].
  - f_equal. unfold LruCache.keys. rewrite <- Hkeys.
    unfold JsMap.keys. now rewrite length_map.
  - lia.
  - reflexivity.
  - intros k now. rewrite !LruCache_get_result. cbn [LruCache.cache].
    rewrite JsMap_get_filter by exact Hnd.
    destruct (JsMap.get k (LruCache.cache c)) as [entry|];
      [|now destruct (test k)].
    simpl. now destruct (test k).
  - reflexivity.
Qed.

Lemma invalidatePattern_removes_the_matches_witness :
  let c := sets [SetCall.mk "a1" true None 0; SetCall.mk "b" false None 1;
                 SetCall.mk "a2" true None 2]
                (LruCache.mk [] 5 1000) in
  let starts_with_a :=
    RegExp.mk (fun i key => if (i =? 0)%nat && String.prefix "a" key
                            then Some 1%nat else None)
              false false 0 in
  let r := LruCache.invalidatePattern_RegExp starts_with_a c in
  snd (fst r) = 2
  /\ JsMap.size (LruCache.cache (fst (fst r))) = 3 - snd (fst r)
  /\ LruCache.keys (fst (fst r)) = ["b"]
  /\ snd (LruCache.get "b" 3 (fst (fst r))) = Some false.
Proof.
  intros c starts_with_a r.
  destruct (invalidatePattern_removes_the_matches starts_with_a c)
    as (H1 & H2 & H3 & H4 & _); [reflexivity | reflexivity | compute_done |].
  split; [exact H1|]. split; [exact H2|]. split; [exact H3|]. exact (H4 "b" 3).
Defined.

(** With the flag [g] the pattern object remembers where its last match
    ended: [/a/g] matches the key [a1], then looks for an [a] in [a2] from
    index 1 on and finds none, so the entry of [a2] stays. *)
Example global_pattern_skips_a_matching_key :
  let c := sets [SetCall.mk "a1" true None 0; SetCall.mk "a2" true None 1]
                (LruCache.mk [] 5 1000) in
  let a_global :=
    RegExp.mk (fun i key => if (i =? 0)%nat && String.prefix "a" key
                            then Some 1%nat else None)
              true false 0 in
  let r := LruCache.invalidatePattern_RegExp a_global c in
  snd (fst r) = 1 /\ LruCache.keys (fst (fst r)) = ["a2"].
Proof. split; reflexivity. Qed.

(** X9.  [refresh] succeeds exactly on the keys of the cache, expired or
    not, and leaves the cache as it is otherwise; after it the entry holds
    the value it held and lives for the stored time-to-live from the time of
    the [refresh], so an expired entry that was not yet removed is served
    again. *)
Theorem refresh_restarts_the_lifetime {T : Type} (k : string) (newTtl : option Z)
    (now : Z) (c : LruCache.t T) :
  (snd (LruCache.refresh k newTtl now c) = true <-> k ∈ LruCache.keys c)
  /\ (k ∉ LruCache.keys c -> fst (LruCache.refresh k newTtl now c) = c)
  /\ (forall entry now',
        JsMap.get k (LruCache.cache c) = Some entry ->
        snd (LruCache.get k now' (fst (LruCache.refresh k newTtl now c)))
        = if now' - now >? stored_ttl newTtl c
          then None else Some (CacheEntry.value entry)).
Proof.
  unfold LruCache.refresh. split; [|split].
  - destruct (JsMap.get k (LruCache.cache c)) as [entry|] eqn:Eg; simpl.
    + split; [|reflexivity]. intros _. apply JsMap_get_keys. rewrite Eg. now eexists.
    + split; [discriminate|]. intros Hin. apply JsMap_keys_get in Hin as [e He].
      unfold LruCache.keys in He. congruence.
  - intros Hk. now rewrite (JsMap_get_fresh k _ Hk).
  - intros entry now' Eg. rewrite Eg, LruCache_get_result. simpl.
    rewrite JsMap_set_fresh by apply JsMap_delete_gone.
    rewrite JsMap_get_last by apply JsMap_delete_gone. reflexivity.
Qed.

(** An entry that expired at time 11 is refreshed at time 50 and served at
    time 55. *)
Example refresh_revives_an_expired_entry :
  let c := LruCache.set "k" true (Some 10) 0 (LruCache.mk [] 2 1000) in
  snd (LruCache.get "k" 50 c) = None
  /\ snd (LruCache.get "k" 55 (fst (LruCache.refresh "k" (Some 10) 50 c))) = Some true.
Proof. split; reflexivity. Qed.

(* ===================================================================== *)
(** ** Further properties of the hierarchy manager *)
(* ===================================================================== *)

Section Path_facts.
Variable allRoles : list Role.
Implicit Types (r role : Role) (l path : list Role).

Lemma path_loop_step fuel r path :
  RoleHierarchyManager.getHierarchyPath_loop (S fuel) (Some r) allRoles path
  = match parent_of allRoles r with
    | Some p =>
        RoleHierarchyManager.getHierarchyPath_loop fuel (Some p) allRoles (path ++ [r])
    | None =>
        if Js.truthy_string (Role.parentRoleId r)
        then RoleHierarchyManager.getHierarchyPath_loop fuel None allRoles (path ++ [r])
        else Normal (path ++ [r])
    end.
Proof.
  simpl. unfold parent_of.
  destruct (Js.truthy_string (Role.parentRoleId r)); [|reflexivity].
  now destruct (List.find _ allRoles).
Qed.

Lemma path_loop_ancestry r l :
  ancestry allRoles r l ->
  forall fuel path,
    (length l < fuel)%nat ->
    RoleHierarchyManager.getHierarchyPath_loop fuel (Some r) allRoles path
    = Normal (path ++ l).
Proof.
  induction 1 as [r Hroot | r p l Hp Hl IH]; intros fuel path Hfuel.
  - destruct fuel as [|[|fuel]]; simpl in Hfuel; try lia.
    rewrite path_loop_step, Hroot.
    now destruct (Js.truthy_string (Role.parentRoleId r)).
  - destruct fuel as [|fuel]; simpl in Hfuel; [lia|].
    rewrite path_loop_step, Hp, IH by lia. now rewrite <- app_assoc.
Qed.

(** A chain on which a role comes back never ends. *)
Lemma ancestor_prefix (n m : nat) r :
  (n <= m)%nat -> is_Some (ancestor allRoles m r) -> is_Some (ancestor allRoles n r).
Proof.
  intros Hle Hm. replace m with (n + (m - n))%nat in Hm by lia.
  rewrite ancestor_add in Hm.
  destruct (ancestor allRoles n r); [now eexists | destruct Hm; discriminate].
Qed.

Lemma ancestor_periodic (i j : nat) r a :
  (i < j)%nat ->
  ancestor allRoles i r = Some a ->
  ancestor allRoles j r = Some a ->
  forall n, is_Some (ancestor allRoles n r).
Proof.
  intros Hij Hi Hj n. induction n as [n IH] using lt_wf_ind.
  destruct (Nat.le_gt_cases n j) as [Hle|Hgt].
  - apply (ancestor_prefix n j); [exact Hle | rewrite Hj; now eexists].
  - replace n with (j + (n - j))%nat by lia. rewrite ancestor_add, Hj.
    assert (Hback : is_Some (ancestor allRoles (i + (n - j)) r)) by (apply IH; lia).
    now rewrite ancestor_add, Hi in Hback.
Qed.

Lemma path_loop_unending fuel :
  forall r path,
    (forall n, is_Some (ancestor allRoles n r)) ->
    RoleHierarchyManager.getHierarchyPath_loop fuel (Some r) allRoles path = OutOfFuel.
Proof.
  induction fuel as [|fuel IH]; intros r path Hall; [reflexivity|].
  rewrite path_loop_step.
  destruct (Hall 1%nat) as [p Hp]. simpl in Hp.
  destruct (parent_of allRoles r) as [q|] eqn:Eq; [|discriminate].
  apply IH. intros n. specialize (Hall (S n)). simpl in Hall. now rewrite Eq in Hall.
Qed.

Lemma ancestor_in (n : nat) r a :
  r ∈ allRoles -> ancestor allRoles n r = Some a -> a ∈ allRoles.
Proof.
  revert r. induction n as [|n IH]; intros r Hr Ha; simpl in Ha.
  - now injection Ha as <-.
  - destruct (parent_of allRoles r) as [p|] eqn:Ep; [|discriminate].
    apply (IH p); [|exact Ha]. now apply (parent_of_in allRoles r).
Qed.

End Path_facts.

(** X10.  [getHierarchyPath] returns the parent chain of the role: the role,
    its parent, and so on up to the first role that has no parent or whose
    parent reference does not resolve.  The loop ends after one step for each
    role of the chain and at most one more. *)
Theorem getHierarchyPath_is_the_parent_chain
    (role : Role) (allRoles : list Role) (l : list Role) (fuel : nat) :
  ancestry allRoles role l ->
  (length l < fuel)%nat ->
  RoleHierarchyManager.getHierarchyPath fuel role allRoles = Normal l.
Proof.
  intros Hl Hfuel. unfold RoleHierarchyManager.getHierarchyPath.
  now rewrite (path_loop_ancestry allRoles role l Hl).
Qed.

Lemma getHierarchyPath_is_the_parent_chain_witness :
  let manager := Role.mk 1 "manager" "Manager" None (Some "admin") true None in
  let admin := Role.mk 2 "admin" "Administrator" None (Some "root") true None in
  RoleHierarchyManager.getHierarchyPath 3 manager [admin; manager]
  = Normal [manager; admin].
Proof.
  intros manager admin.
  apply (getHierarchyPath_is_the_parent_chain manager [admin; manager] [manager; admin]).
  - apply ancestry_step with (p := admin); [reflexivity|].
    apply ancestry_root. reflexivity.
  - simpl. lia.
Defined.

(** X11.  [getHierarchyPath] has no cycle detection: when a role id comes
    back along the parent chain of a role of a universe with unique ids, the
    loop [while (currentRole)] never ends, whatever number of steps it is
    given. *)
Theorem getHierarchyPath_loops_on_a_cycle
    (role : Role) (allRoles : list Role) :
  NoDup (List.map Role.id allRoles) ->
  role ∈ allRoles ->
  revisits allRoles role ->
  forall fuel, RoleHierarchyManager.getHierarchyPath fuel role allRoles = OutOfFuel.
Proof.
  intros Hids Hrole (i & j & a & b & Hij & Hi & Hj & Hab) fuel.
  assert (a = b) as <-.
  { apply (unique_ids_inj allRoles); try assumption.
    - now apply (ancestor_in allRoles i role).
    - now apply (ancestor_in allRoles j role). }
  apply path_loop_unending. now apply (ancestor_periodic allRoles i j role a).
Qed.

Lemma getHierarchyPath_loops_on_a_cycle_witness :
  let A := Role.mk 1 "A" "A" None (Some "B") true None in
  let B := Role.mk 2 "B" "B" None (Some "A") true None in
  revisits [A; B] A
  /\ forall fuel, RoleHierarchyManager.getHierarchyPath fuel A [A; B] = OutOfFuel.
Proof.
  intros A B.
  assert (Hrev : revisits [A; B] A).
  { exists 0%nat, 2%nat, A, A. repeat split. lia. }
  split; [exact Hrev|].
  apply (getHierarchyPath_loops_on_a_cycle A [A; B]).
  - compute_done.
  - apply elem_of_cons. now left.
  - exact Hrev.
Defined.

Section JsSet_more.
Context {A : Type} `{EqDecision A}.
Implicit Types (x y : A) (s : JsSet.t A).

Lemma JsSet_elem_add x y s : x ∈ JsSet.add y s <-> x = y \/ x ∈ s.
Proof.
  unfold JsSet.add. destruct (JsSet.has y s) eqn:E.
  - apply JsSet_has_elem in E. split; [now right | intros [->|H]; assumption].
  - rewrite elem_of_app, list_elem_of_singleton. tauto.
Qed.

Lemma JsSet_add_NoDup y s : NoDup s -> NoDup (JsSet.add y s).
Proof.
  intros Hnd. unfold JsSet.add. destruct (JsSet.has y s) eqn:E; [exact Hnd|].
  apply JsSet_has_fresh in E. apply NoDup_app. split; [exact Hnd|]. split.
  - intros x Hx Hy. apply list_elem_of_singleton in Hy as ->. contradiction.
  - apply NoDup_singleton.
Qed.

End JsSet_more.

Section Resolver_members.
Variable allRoles : list Role.
Implicit Types (role r : Role) (resolved : JsSet.t Role) (processed : JsSet.t string).

(** What a completed walk adds to the set of resolved roles. *)
Lemma resolve_members fuel :
  forall role resolved processed tenantId out,
    RoleHierarchyManager.resolveRoleRecursively
      fuel role allRoles resolved processed tenantId = Normal out ->
    (NoDup resolved -> NoDup (fst out))
    /\ (forall x, x ∈ resolved -> x ∈ fst out)
    /\ (forall x, x ∈ fst out ->
          x ∈ resolved
          \/ (RoleHierarchyManager.other_tenant tenantId x = false
              /\ exists n, ancestor allRoles n role = Some x))
    /\ (RoleHierarchyManager.other_tenant tenantId role = false -> role ∈ fst out)
    /\ (Js.truthy_string tenantId = false ->
        forall n x, ancestor allRoles n role = Some x -> x ∈ fst out).
Proof.
  induction fuel as [|fuel IH]; intros role resolved processed tenantId out H;
    [discriminate|].
  rewrite resolve_step in H.
  destruct (JsSet.has (Role.id role) processed); [discriminate|].
  destruct (RoleHierarchyManager.other_tenant tenantId role) eqn:Et.
  { injection H as <-. simpl. repeat split; try tauto; try discriminate.
    intros Hf. now rewrite other_tenant_falsy in Et. }
  assert (Hadd : forall out1 : JsSet.t Role * JsSet.t string,
             (NoDup (JsSet.add role resolved) -> NoDup (fst out1)) ->
             (forall x, x ∈ JsSet.add role resolved -> x ∈ fst out1) ->
             (forall x, x ∈ fst out1 ->
                x ∈ JsSet.add role resolved
                \/ (RoleHierarchyManager.other_tenant tenantId x = false
                    /\ exists n, ancestor allRoles (S n) role = Some x)) ->
             (NoDup resolved -> NoDup (fst out1))
             /\ (forall x, x ∈ resolved -> x ∈ fst out1)
             /\ (forall x, x ∈ fst out1 ->
                   x ∈ resolved
                   \/ (RoleHierarchyManager.other_tenant tenantId x = false
                       /\ exists n, ancestor allRoles n role = Some x))
             /\ (false = false -> role ∈ fst out1)).
  { intros out1 H1 H2 H3. repeat split.
    - intros Hnd. now apply H1, JsSet_add_NoDup.
    - intros x Hx. apply H2, JsSet_elem_add. now right.
    - intros x Hx. destruct (H3 x Hx) as [Hin|[Hok [n Hn]]].
      + apply JsSet_elem_add in Hin as [->|Hin]; [|now left].
        right. split; [exact Et | now exists 0%nat].
      + right. split; [exact Hok | now exists (S n)].
    - intros _. apply H2, JsSet_elem_add. now left. }
  destruct (parent_of allRoles role) as [p|] eqn:Ep.
  - destruct (RoleHierarchyManager.resolveRoleRecursively fuel p allRoles _ _ _)
      as [out1| |] eqn:Erec; try discriminate.
    injection H as <-. cbn [fst].
    destruct (IH _ _ _ _ _ Erec) as (I1 & I2 & I3 & I4 & I5).
    destruct (Hadd out1) as (A1 & A2 & A3 & A4); try assumption.
    { intros x Hx. destruct (I3 x Hx) as [Hin|[Hok [n Hn]]]; [now left|].
      right. split; [exact Hok|]. exists n. simpl. now rewrite Ep. }
    repeat split; try assumption.
    intros Hf [|n] x Hn; simpl in Hn.
    + injection Hn as <-. now apply A4.
    + rewrite Ep in Hn. now apply (I5 Hf n).
  - injection H as <-. cbn [fst].
    destruct (Hadd (JsSet.add role resolved, JsSet.add (Role.id role) processed))
      as (A1 & A2 & A3 & A4); try tauto.
    repeat split; try assumption.
    intros Hf [|n] x Hn; simpl in Hn.
    + injection Hn as <-. now apply A4.
    + now rewrite Ep in Hn.
Qed.

Lemma resolve_each_members fuel userRoles :
  forall resolved processed tenantId out,
    RoleHierarchyManager.resolve_each
      fuel userRoles allRoles resolved processed tenantId = Normal out ->
    (NoDup resolved -> NoDup (fst out))
    /\ (forall x, x ∈ resolved -> x ∈ fst out)
    /\ (forall x, x ∈ fst out ->
          x ∈ resolved
          \/ (RoleHierarchyManager.other_tenant tenantId x = false
              /\ exists r n, r ∈ userRoles /\ ancestor allRoles n r = Some x))
    /\ (forall r, r ∈ userRoles ->
          RoleHierarchyManager.other_tenant tenantId r = false -> r ∈ fst out)
    /\ (Js.truthy_string tenantId = false ->
        forall r n x, r ∈ userRoles -> ancestor allRoles n r = Some x -> x ∈ fst out).
Proof.
  induction userRoles as [|role rest IH]; intros resolved processed tenantId out H.
  - injection H as <-. simpl. repeat split; try tauto.
    + intros r Hr. inversion Hr.
    + intros _ r n x Hr. inversion Hr.
  - cbn [RoleHierarchyManager.resolve_each] in H.
    destruct (RoleHierarchyManager.resolveRoleRecursively fuel role allRoles _ _ _)
      as [out1| |] eqn:E1; try discriminate.
    cbn [bind] in H.
    destruct (resolve_members _ _ _ _ _ _ E1) as (M1 & M2 & M3 & M4 & M5).
    destruct (IH _ _ _ _ H) as (I1 & I2 & I3 & I4 & I5).
    repeat split.
    + auto.
    + auto.
    + intros x Hx. destruct (I3 x Hx) as [Hin|(Hok & r & n & Hr & Hn)].
      * destruct (M3 x Hin) as [Hin'|(Hok & n & Hn)]; [now left|].
        right. split; [exact Hok|]. exists role, n. split; [|exact Hn].
        apply elem_of_cons. now left.
      * right. split; [exact Hok|]. exists r, n. split; [|exact Hn].
        apply elem_of_cons. now right.
    + intros r Hr Hok. apply elem_of_cons in Hr as [->|Hr]; [auto | now apply I4].
    + intros Hf r n x Hr Hn. apply elem_of_cons in Hr as [->|Hr].
      * apply I2. now apply (M5 Hf n).
      * now apply (I5 Hf r n).
Qed.

End Resolver_members.

Section Resolver_soundness.
Variable allRoles : list Role.

(** The walk fails only when the id of the role it has reached is the id of
    a role it came through. *)
Lemma resolve_throw_revisits (r0 : Role) fuel :
  forall (k : nat) role resolved processed tenantId e,
    ancestor allRoles k r0 = Some role ->
    (forall y, y ∈ processed ->
       exists (i : nat) a,
         (i < k)%nat /\ ancestor allRoles i r0 = Some a /\ Role.id a = y) ->
    RoleHierarchyManager.resolveRoleRecursively
      fuel role allRoles resolved processed tenantId = Throw e ->
    revisits allRoles r0.
Proof.
  induction fuel as [|fuel IH]; intros k role resolved processed tenantId e Hk Hproc H;
    [discriminate|].
  rewrite resolve_step in H.
  destruct (JsSet.has (Role.id role) processed) eqn:Ehas.
  { apply JsSet_has_elem in Ehas. destruct (Hproc _ Ehas) as (i & a & Hi & Ha & Hid).
    now exists i, k, a, role. }
  destruct (RoleHierarchyManager.other_tenant tenantId role); [discriminate|].
  destruct (parent_of allRoles role) as [p|] eqn:Ep; [|discriminate].
  destruct (RoleHierarchyManager.resolveRoleRecursively fuel p allRoles _ _ _)
    as [out1|e1|] eqn:Erec; try discriminate.
  apply (IH (S k) p _ _ _ _) with (3 := Erec).
  - now rewrite ancestor_succ, Hk.
  - intros y Hy. apply JsSet_elem_add in Hy as [->|Hy].
    + exists k, role. repeat split; [lia | exact Hk].
    + destruct (Hproc y Hy) as (i & a & Hi & Ha & Hid).
      exists i, a. repeat split; [lia | exact Ha | exact Hid].
Qed.

Lemma resolve_each_throw_revisits fuel userRoles :
  forall resolved tenantId e,
    RoleHierarchyManager.resolve_each fuel userRoles allRoles resolved [] tenantId
    = Throw e ->
    exists r, r ∈ userRoles /\ revisits allRoles r.
Proof.
  induction userRoles as [|role rest IH]; intros resolved tenantId e H;
    [discriminate|].
  cbn [RoleHierarchyManager.resolve_each] in H.
  destruct (RoleHierarchyManager.resolveRoleRecursively fuel role allRoles _ _ _)
    as [[resolved' processed']|e1|] eqn:E1; try discriminate.
  - cbn [bind fst snd] in H.
    rewrite (resolve_restores allRoles _ _ _ _ _ _ _ E1) in H.
    destruct (IH _ _ _ H) as (r & Hr & Hrev).
    exists r. split; [apply elem_of_cons; now right | exact Hrev].
  - exists role. split; [apply elem_of_cons; now left|].
    apply (resolve_throw_revisits role fuel 0 role _ _ _ _ eq_refl) with (2 := E1).
    intros y Hy. inversion Hy.
Qed.

End Resolver_soundness.

(** X12.  Without a tenant filter, a resolution that is not answered from
    the memo and completes returns, without repetition, exactly the roles on
    the parent chains of the user roles: each user role, its parent, and so
    on. *)
Theorem resolveHierarchy_collects_every_chain
    (userRoles allRoles : list Role) (tenantId : option string)
    (hierarchyCache : gmap string (list Role)) (result : list Role) :
  Js.truthy_string tenantId = false ->
  hierarchyCache !! RoleHierarchyManager.generateCacheKey userRoles tenantId = None ->
  snd (RoleHierarchyManager.resolveHierarchy userRoles allRoles tenantId hierarchyCache)
  = Normal result ->
  NoDup result
  /\ forall x, x ∈ result
               <-> exists r n, r ∈ userRoles /\ ancestor allRoles n r = Some x.
Proof.
  intros Hf Hmiss H. unfold RoleHierarchyManager.resolveHierarchy in H.
  rewrite Hmiss in H.
  destruct (RoleHierarchyManager.resolve_each _ _ _ _ _ _) as [out| |] eqn:E;
    try discriminate.
  injection H as <-.
  destruct (resolve_each_members allRoles _ _ _ _ _ _ E) as (M1 & M2 & M3 & M4 & M5).
  split; [apply M1; constructor|]. intros x. split.
  - intros Hx. destruct (M3 x Hx) as [Hin|[_ Hex]]; [inversion Hin | exact Hex].
  - intros (r & n & Hr & Hn). now apply (M5 Hf r n).
Qed.

Lemma resolveHierarchy_collects_every_chain_witness :
  let manager := Role.mk 1 "manager" "Manager" None (Some "admin") true None in
  let auditor := Role.mk 2 "auditor" "Auditor" None (Some "admin") true None in
  let admin := Role.mk 3 "admin" "Administrator" None None true None in
  NoDup [manager; admin; auditor]
  /\ forall x, x ∈ [manager; admin; auditor]
               <-> exists r n, r ∈ [manager; auditor]
                               /\ ancestor [admin; manager; auditor] n r = Some x.
Proof.
  intros manager auditor admin.
  apply (resolveHierarchy_collects_every_chain
           [manager; auditor] [admin; manager; auditor] None ∅);
    reflexivity.
Defined.

(** X13.  A resolution that is not answered from the memo never returns a
    role of another tenant: with a tenant asked for, a role of the result has
    no tenant or that tenant; it lies on the parent chain of a user role; and
    every user role that is not of another tenant is in the result. *)
Theorem resolveHierarchy_keeps_to_the_tenant
    (userRoles allRoles : list Role) (tenantId : option string)
    (hierarchyCache : gmap string (list Role)) (result : list Role) :
  hierarchyCache !! RoleHierarchyManager.generateCacheKey userRoles tenantId = None ->
  snd (RoleHierarchyManager.resolveHierarchy userRoles allRoles tenantId hierarchyCache)
  = Normal result ->
  (forall x t t',
     x ∈ result -> tenantId = Some t -> t <> "" ->
     Role.tenantId x = Some t' -> t' <> "" -> t' = t)
  /\ (forall x, x ∈ result ->
        exists r n, r ∈ userRoles /\ ancestor allRoles n r = Some x)
  /\ (forall r, r ∈ userRoles ->
        RoleHierarchyManager.other_tenant tenantId r = false -> r ∈ result).
Proof.
  intros Hmiss H. unfold RoleHierarchyManager.resolveHierarchy in H.
  rewrite Hmiss in H.
  destruct (RoleHierarchyManager.resolve_each _ _ _ _ _ _) as [out| |] eqn:E;
    try discriminate.
  injection H as <-.
  destruct (resolve_each_members allRoles _ _ _ _ _ _ E) as (M1 & M2 & M3 & M4 & M5).
  split; [|split].
  - intros x t t' Hx -> Ht Ex Ht'.
    destruct (M3 x Hx) as [Hin|[Hok _]]; [inversion Hin|].
    unfold RoleHierarchyManager.other_tenant, Js.truthy_string, Js.nullish in Hok.
    rewrite Ex in Hok.
    destruct (String.eqb_spec t ""); [contradiction|].
    destruct (String.eqb_spec t' ""); [contradiction|].
    simpl in Hok. apply negb_false_iff, String.eqb_eq in Hok. exact Hok.
  - intros x Hx. destruct (M3 x Hx) as [Hin|[_ Hex]]; [inversion Hin | exact Hex].
  - exact M4.
Qed.

Lemma resolveHierarchy_keeps_to_the_tenant_witness :
  let clerk := Role.mk 1 "clerk" "Clerk" None (Some "manager") true (Some "t1") in
  let manager := Role.mk 2 "manager" "Manager" None (Some "admin") true (Some "t2") in
  let admin := Role.mk 3 "admin" "Administrator" None None true (Some "t1") in
  snd (RoleHierarchyManager.resolveHierarchy [clerk] [clerk; manager; admin] (Some "t1") ∅)
  = Normal [clerk]
  /\ forall x t t',
       x ∈ [clerk] -> Some "t1" = Some t -> t <> "" ->
       Role.tenantId x = Some t' -> t' <> "" -> t' = t.
Proof.
  intros clerk manager admin. split; [reflexivity|].
  apply (resolveHierarchy_keeps_to_the_tenant
           [clerk] [clerk; manager; admin] (Some "t1") ∅ [clerk]);
    reflexivity.
Defined.

(** X14.  [resolveHierarchy] fails only on a cycle: when it throws, a role id
    comes back along the parent chain of one of the user roles; the error is
    a hierarchy error with the message of [resolveHierarchy], and nothing is
    added to the memo. *)
Theorem resolveHierarchy_fails_only_on_a_cycle
    (userRoles allRoles : list Role) (tenantId : option string)
    (hierarchyCache : gmap string (list Role)) (e : RbacError) :
  snd (RoleHierarchyManager.resolveHierarchy userRoles allRoles tenantId hierarchyCache)
  = Throw e ->
  fst (RoleHierarchyManager.resolveHierarchy userRoles allRoles tenantId hierarchyCache)
  = hierarchyCache
  /\ error_code e = RbacErrorCode.HIERARCHY_ERROR
  /\ error_message e = "Role hierarchy resolution failed"
  /\ exists r, r ∈ userRoles /\ revisits allRoles r.
Proof.
  unfold RoleHierarchyManager.resolveHierarchy.
  destruct (hierarchyCache !! _); [discriminate|].
  destruct (RoleHierarchyManager.resolve_each _ _ _ _ _ _) as [out|e1|] eqn:E;
    try discriminate.
  simpl. intros H. injection H as <-. repeat split.
  now apply (resolve_each_throw_revisits allRoles _ _ _ _ _ E).
Qed.

Lemma resolveHierarchy_fails_only_on_a_cycle_witness :
  let A := Role.mk 1 "A" "A" None (Some "B") true None in
  let B := Role.mk 2 "B" "B" None (Some "A") true None in
  exists r, r ∈ [A] /\ revisits [A; B] r.
Proof.
  intros A B.
  apply (resolveHierarchy_fails_only_on_a_cycle [A] [A; B] None ∅
           (mkRbacError "Role hierarchy resolution failed"
              RbacErrorCode.HIERARCHY_ERROR
              (ResolutionContext ["A"] None
                 (mkRbacError "Circular dependency detected in role hierarchy: A"
                    RbacErrorCode.HIERARCHY_ERROR (CircularContext "A" ["A"; "B"]))))).
  reflexivity.
Defined.

Lemma existsb_has_id (target : string) (l : list Role) :
  existsb (RoleHierarchyManager.has_id target) l = true
  <-> exists (n : nat) a, l !! n = Some a /\ Role.id a = target.
Proof.
  rewrite existsb_exists. unfold RoleHierarchyManager.has_id. split.
  - intros (a & Hin & Hid). apply String.eqb_eq in Hid.
    apply list_elem_of_In, list_elem_of_lookup in Hin as [n Hn]. now exists n, a.
  - intros (n & a & Hn & Hid). exists a. split.
    + apply list_elem_of_In, list_elem_of_lookup. now exists n.
    + now apply String.eqb_eq.
Qed.

(** X15.  [hasInheritedRole] looks for the id on the whole parent chain of
    the role, the role itself included and inactive roles as well; it
    resolves without a tenant and leaves the chain in the memo. *)
Theorem hasInheritedRole_searches_the_parent_chain
    (role : Role) (targetRoleId : string) (allRoles : list Role)
    (hierarchyCache : gmap string (list Role)) (l : list Role) :
  hierarchyCache !! RoleHierarchyManager.generateCacheKey [role] None = None ->
  ancestry allRoles role l ->
  NoDup (List.map Role.id l) ->
  exists b,
    RoleHierarchyManager.hasInheritedRole role targetRoleId allRoles hierarchyCache
    = (<[RoleHierarchyManager.generateCacheKey [role] None := l]> hierarchyCache,
       Normal b)
    /\ (b = true
        <-> exists n a, ancestor allRoles n role = Some a /\ Role.id a = targetRoleId).
Proof.
  intros Hmiss Hl Hnd. unfold RoleHierarchyManager.hasInheritedRole.
  rewrite (resolveHierarchy_ancestry role allRoles None hierarchyCache l);
    try assumption.
  - eexists. split; [reflexivity|]. rewrite existsb_has_id.
    split; intros (n & a & Hn & Hid); exists n, a; split; try assumption.
    + now rewrite (ancestry_lookup allRoles role l Hl).
    + now rewrite <- (ancestry_lookup allRoles role l Hl).
  - apply Forall_forall. intros x _. now apply other_tenant_falsy.
Qed.

Lemma hasInheritedRole_searches_the_parent_chain_witness :
  let manager := Role.mk 1 "manager" "Manager" None (Some "admin") true None in
  let admin := Role.mk 2 "admin" "Administrator" None None false None in
  exists b,
    RoleHierarchyManager.hasInheritedRole manager "admin" [admin; manager] ∅
    = (<[RoleHierarchyManager.generateCacheKey [manager] None := [manager; admin]]> ∅,
       Normal b)
    /\ (b = true
        <-> exists n a, ancestor [admin; manager] n manager = Some a
                        /\ Role.id a = "admin").
Proof.
  intros manager admin.
  apply (hasInheritedRole_searches_the_parent_chain
           manager "admin" [admin; manager] ∅ [manager; admin]).
  - reflexivity.
  - apply ancestry_step with (p := admin); [reflexivity|].
    apply ancestry_root. reflexivity.
  - compute_done.
Defined.

Section Validator_soundness.
Variable allRoles : list Role.
Variable roleMap : gmap string Role.
Hypothesis roleMap_find :
  forall id, roleMap !! id = List.find (RoleHierarchyManager.has_id id) allRoles.

(** When every parent reference resolves, the validator fails only when the
    parent of the role it has reached is a role it came through. *)
Lemma validate_throw_revisits (r0 : Role) fuel :
  no_dangling allRoles ->
  r0 ∈ allRoles ->
  forall (k : nat) role visited e,
    ancestor allRoles k r0 = Some role ->
    (forall y, y ∈ visited ->
       exists (i : nat) a,
         (i <= k)%nat /\ ancestor allRoles i r0 = Some a /\ Role.id a = y) ->
    RoleHierarchyManager.validateRoleHierarchyRecursively fuel role roleMap visited
    = Throw e ->
    revisits allRoles r0.
Proof.
  intros Hnd Hr0.
  induction fuel as [|fuel IH]; intros k role visited e Hk Hvis H; [discriminate|].
  rewrite (validate_step allRoles roleMap roleMap_find) in H.
  destruct (Js.truthy_string (Role.parentRoleId role)) eqn:Et; [|discriminate].
  cbn [negb] in H. cbv zeta in H.
  assert (Hrole : role ∈ allRoles) by now apply (ancestor_in allRoles k r0).
  destruct (Hnd role Hrole Et) as [p Hp].
  assert (HSk : ancestor allRoles (S k) r0 = Some p) by now rewrite ancestor_succ, Hk.
  rewrite Hp in H.
  destruct (JsSet.has _ visited) eqn:Ehas.
  - apply JsSet_has_elem in Ehas. destruct (Hvis _ Ehas) as (i & a & Hi & Ha & Hid).
    exists i, (S k), a, p. repeat split; [lia | exact Ha | exact HSk |].
    now rewrite Hid, (parent_of_id allRoles role p Hp).
  - destruct (RoleHierarchyManager.validateRoleHierarchyRecursively fuel p roleMap _)
      as [v1|e1|] eqn:Erec; try discriminate.
    apply (IH (S k) p _ e1 HSk) with (2 := Erec).
    intros y Hy. apply JsSet_elem_add in Hy as [->|Hy].
    + exists (S k), p. repeat split; [lia | exact HSk |].
      apply (parent_of_id allRoles role p Hp).
    + destruct (Hvis y Hy) as (i & a & Hi & Ha & Hid).
      exists i, a. repeat split; [lia | exact Ha | exact Hid].
Qed.

End Validator_soundness.

(** The first role whose validation does not complete decides the loop. *)
Lemma validate_each_normal fuel (roles : list Role) (roleMap : gmap string Role) :
  RoleHierarchyManager.validate_each fuel roles roleMap = Normal tt
  <-> forall r, r ∈ roles -> Js.truthy_string (Role.parentRoleId r) = true ->
                exists v, RoleHierarchyManager.validateRoleHierarchyRecursively
                            fuel r roleMap [Role.id r] = Normal v.
Proof.
  induction roles as [|role rest IH]; cbn [RoleHierarchyManager.validate_each].
  - split; [intros _ r Hr; inversion Hr | reflexivity].
  - split.
    + intros H r Hr Ht. apply elem_of_cons in Hr as [->|Hr].
      * rewrite Ht in H.
        destruct (RoleHierarchyManager.validateRoleHierarchyRecursively _ _ _ _)
          as [v| |]; try discriminate. now exists v.
      * destruct (Js.truthy_string (Role.parentRoleId role)).
        -- destruct (RoleHierarchyManager.validateRoleHierarchyRecursively
                       fuel role roleMap _); try discriminate.
           apply IH; assumption.
        -- apply IH; assumption.
    + intros H.
      assert (Hrest : RoleHierarchyManager.validate_each fuel rest roleMap = Normal tt).
      { apply IH. intros r Hr. apply H, elem_of_cons. now right. }
      destruct (Js.truthy_string (Role.parentRoleId role)) eqn:Et; [|exact Hrest].
      destruct (H role) as [v ->]; [apply elem_of_cons; now left | exact Et |].
      exact Hrest.
Qed.

(** X16.  On roles with unique ids, [validateHierarchy] accepts exactly the
    sound hierarchies: it returns without an error if and only if every
    parent reference resolves and no role id comes back along the parent
    chain of a role. *)
Theorem validateHierarchy_accepts_the_sound_hierarchies (roles : list Role) :
  NoDup (List.map Role.id roles) ->
  RoleHierarchyManager.validateHierarchy roles = Normal tt
  <-> no_dangling roles /\ forall r, r ∈ roles -> ~ revisits roles r.
Proof.
  intros Hids. unfold RoleHierarchyManager.validateHierarchy.
  set (roleMap := RoleHierarchyManager.roleMap_of roles).
  assert (Hfind : forall id,
             roleMap !! id = List.find (RoleHierarchyManager.has_id id) roles)
    by (intros id; now apply roleMap_of_lookup).
  split.
  - intros H. split.
    + intros r Hr Ht.
      destruct (proj1 (validate_each_normal _ _ _) H r Hr Ht) as [v Hv].
      rewrite (validate_step roles roleMap Hfind), Ht in Hv. cbn [negb] in Hv.
      cbv zeta in Hv. destruct (JsSet.has _ _); [discriminate|].
      destruct (parent_of roles r); [now eexists | discriminate].
    + intros r Hr Hrev.
      destruct (validate_each_revisits roles roleMap Hfind roles r (fun x Hx => Hx)
                  Hr Hrev) as (e & He & _).
      rewrite He in H. discriminate.
  - intros [Hnd Hrev]. apply (proj2 (validate_each_normal _ _ _)). intros r Hr Ht.
    destruct (RoleHierarchyManager.validateRoleHierarchyRecursively _ r roleMap _)
      as [v|e|] eqn:E.
    + now exists v.
    + exfalso. apply (Hrev r Hr).
      apply (validate_throw_revisits roles roleMap Hfind r _ Hnd Hr 0 r _ e eq_refl)
        with (2 := E).
      intros y Hy. apply list_elem_of_singleton in Hy as ->.
      exists 0%nat, r. repeat split. lia.
    + exfalso. revert E.
      apply (validate_never_out_of_fuel roleMap (List.map Role.id roles)).
      * intros id x. apply roleMap_of_key.
      * apply NoDup_singleton.
      * intros y Hy. apply list_elem_of_singleton in Hy as ->.
        now apply list_elem_of_In, in_map, list_elem_of_In.
      * rewrite length_map. simpl. lia.
Qed.

Lemma validateHierarchy_accepts_the_sound_hierarchies_witness :
  let manager := Role.mk 1 "manager" "Manager" None (Some "admin") true None in
  let admin := Role.mk 2 "admin" "Administrator" None None true None in
  RoleHierarchyManager.validateHierarchy [manager; admin] = Normal tt
  <-> no_dangling [manager; admin]
      /\ forall r, r ∈ [manager; admin] -> ~ revisits [manager; admin] r.
Proof.
  intros manager admin.
  apply (validateHierarchy_accepts_the_sound_hierarchies [manager; admin]).
  compute_done.
Defined.

Section Stats_facts.
Variable roleMap : gmap string Role.
Implicit Types (role r : Role) (visited : JsSet.t string).

(** Where the validator completes, the depth loop completes within the same
    number of steps. *)
Lemma depth_after_validate fuel :
  forall role visited v depth,
    RoleHierarchyManager.validateRoleHierarchyRecursively fuel role roleMap visited
    = Normal v ->
    exists d,
      RoleHierarchyManager.calculateRoleDepth_loop fuel role roleMap depth = Normal d.
Proof.
  induction fuel as [|fuel IH]; intros role visited v depth H; [discriminate|].
  simpl in H. simpl.
  destruct (Js.truthy_string (Role.parentRoleId role)); simpl in *; [|now eexists].
  destruct (JsSet.has _ visited); [discriminate|].
  destruct (roleMap !! _) as [p|]; [|discriminate].
  destruct (RoleHierarchyManager.validateRoleHierarchyRecursively fuel p roleMap _)
    as [v1| |] eqn:E; try discriminate.
  apply (IH _ _ _ _ E).
Qed.

(** The validator throws one of two errors; an invalid-role error names a
    role, the one given or one of the map, whose parent is not in the map. *)
Lemma validate_throw_cases fuel :
  forall role visited e,
    RoleHierarchyManager.validateRoleHierarchyRecursively fuel role roleMap visited
    = Throw e ->
    error_code e = RbacErrorCode.HIERARCHY_ERROR
    \/ exists x,
         (x = role \/ exists id, roleMap !! id = Some x)
         /\ Js.truthy_string (Role.parentRoleId x) = true
         /\ roleMap !! Js.nullish (Role.parentRoleId x) "" = None.
Proof.
  induction fuel as [|fuel IH]; intros role visited e H; [discriminate|].
  simpl in H.
  destruct (Js.truthy_string (Role.parentRoleId role)) eqn:Et; simpl in H;
    [|discriminate].
  destruct (JsSet.has _ visited); [injection H as <-; now left|].
  destruct (roleMap !! _) as [p|] eqn:Ep.
  - destruct (RoleHierarchyManager.validateRoleHierarchyRecursively fuel p roleMap _)
      as [v1|e1|] eqn:E; try discriminate.
    injection H as <-. destruct (IH _ _ _ E) as [Hc|(x & [->|Hx] & Hx')].
    + now left.
    + right. exists p. split; [right; eauto | exact Hx'].
    + right. exists x. split; [now right | exact Hx'].
  - right. exists role. split; [now left|]. split; assumption.
Qed.

Lemma stats_step_result fuel role (d : Z) (c o : list string) :
  RoleHierarchyManager.validateRoleHierarchyRecursively fuel role roleMap [Role.id role]
  <> OutOfFuel ->
  exists d' c' o',
    RoleHierarchyManager.stats_step fuel roleMap role (d, c, o) = Normal (d', c', o')
    /\ (forall id, id ∈ c' <->
          id ∈ c
          \/ (id = Role.id role
              /\ Js.truthy_string (Role.parentRoleId role) = true
              /\ exists e,
                   RoleHierarchyManager.validateRoleHierarchyRecursively
                     fuel role roleMap [Role.id role] = Throw e
                   /\ error_code e = RbacErrorCode.HIERARCHY_ERROR))
    /\ (forall id, id ∈ o' <->
          id ∈ o
          \/ (id = Role.id role
              /\ Js.truthy_string (Role.parentRoleId role) = true
              /\ roleMap !! Js.nullish (Role.parentRoleId role) "" = None)).
Proof.
  intros Hfuel. unfold RoleHierarchyManager.stats_step.
  destruct (Js.truthy_string (Role.parentRoleId role)) eqn:Et.
  - assert (Ho : forall id,
               id ∈ (if true && negb (bool_decide
                                        (is_Some (roleMap !! Js.nullish
                                                    (Role.parentRoleId role) "")))
                     then o ++ [Role.id role] else o)
               <-> id ∈ o
                   \/ (id = Role.id role /\ true = true
                       /\ roleMap !! Js.nullish (Role.parentRoleId role) "" = None)).
    { intros id. destruct (roleMap !! _) as [p|]; simpl.
      - split; [now left | intros [H|(_ & _ & H)]; [exact H | discriminate]].
      - rewrite elem_of_app, list_elem_of_singleton. tauto. }
    destruct (RoleHierarchyManager.validateRoleHierarchyRecursively _ _ _ _)
      as [v|e|] eqn:E; [| |contradiction].
    + destruct (depth_after_validate _ _ _ _ 1 E) as [dd Hdd].
      unfold RoleHierarchyManager.calculateRoleDepth. rewrite Hdd. cbn [bind fst snd].
      eexists _, _, _. split; [reflexivity|]. split; [|exact Ho].
      intros id. split; [now left | intros [H|(_ & _ & e & He & _)];
                                      [exact H | discriminate]].
    + destruct (bool_decide (error_code e = RbacErrorCode.HIERARCHY_ERROR)) eqn:Hc;
        [apply bool_decide_eq_true in Hc | apply bool_decide_eq_false in Hc];
        cbn [bind fst snd];
        eexists _, _, _; (split; [reflexivity|]); (split; [|exact Ho]); intros id.
      * rewrite elem_of_app, list_elem_of_singleton. split.
        -- intros [H | ->]; [now left|]. right. repeat split. now exists e.
        -- intros [H|(-> & _)]; [now left | now right].
      * split; [now left|]. intros [H|(_ & _ & e' & He' & Hc')]; [exact H|].
        injection He' as <-. contradiction.
  - cbn [bind fst snd andb]. eexists _, _, _. split; [reflexivity|].
    split; intros id; (split; [now left | intros [H|(_ & H & _)];
                                            [exact H | discriminate]]).
Qed.

Lemma stats_each_result fuel (roles : list Role) :
  forall (d : Z) (c o : list string),
    (forall r, r ∈ roles ->
       RoleHierarchyManager.validateRoleHierarchyRecursively
         fuel r roleMap [Role.id r] <> OutOfFuel) ->
    exists d' c' o',
      RoleHierarchyManager.stats_each fuel roleMap roles (d, c, o) = Normal (d', c', o')
      /\ (forall id, id ∈ c' <->
            id ∈ c
            \/ exists r, r ∈ roles /\ id = Role.id r
                /\ Js.truthy_string (Role.parentRoleId r) = true
                /\ exists e,
                     RoleHierarchyManager.validateRoleHierarchyRecursively
                       fuel r roleMap [Role.id r] = Throw e
                     /\ error_code e = RbacErrorCode.HIERARCHY_ERROR)
      /\ (forall id, id ∈ o' <->
            id ∈ o
            \/ exists r, r ∈ roles /\ id = Role.id r
                /\ Js.truthy_string (Role.parentRoleId r) = true
                /\ roleMap !! Js.nullish (Role.parentRoleId r) "" = None).
Proof.
  induction roles as [|role rest IH]; intros d c o Hfuel.
  - exists d, c, o. split; [reflexivity|].
    split; intros id; (split; [now left | intros [H|(r & Hr & _)];
                                            [exact H | inversion Hr]]).
  - cbn [RoleHierarchyManager.stats_each].
    destruct (stats_step_result fuel role d c o) as (d1 & c1 & o1 & -> & Hc1 & Ho1).
    { apply Hfuel, elem_of_cons. now left. }
    cbn [bind].
    destruct (IH d1 c1 o1) as (d2 & c2 & o2 & -> & Hc2 & Ho2).
    { intros r Hr. apply Hfuel, elem_of_cons. now right. }
    exists d2, c2, o2. split; [reflexivity|]. split; intros id.
    + rewrite Hc2, Hc1. split.
      * intros [[H|H]|(r & Hr & H)]; [now left | |].
        -- right. exists role. split; [apply elem_of_cons; now left | exact H].
        -- right. exists r. split; [apply elem_of_cons; now right | exact H].
      * intros [H|(r & Hr & H)]; [now left; left|].
        apply elem_of_cons in Hr as [->|Hr]; [left; now right|].
        right. now exists r.
    + rewrite Ho2, Ho1. split.
      * intros [[H|H]|(r & Hr & H)]; [now left | |].
        -- right. exists role. split; [apply elem_of_cons; now left | exact H].
        -- right. exists r. split; [apply elem_of_cons; now right | exact H].
      * intros [H|(r & Hr & H)]; [now left; left|].
        apply elem_of_cons in Hr as [->|Hr]; [left; now right|].
        right. now exists r.
Qed.

End Stats_facts.

Lemma roleMap_of_value (roles : list Role) (id : string) (r : Role) :
  RoleHierarchyManager.roleMap_of roles !! id = Some r -> r ∈ roles.
Proof.
  unfold RoleHierarchyManager.roleMap_of.
  assert (H : forall acc : gmap string Role,
             fold_left (fun m x => <[Role.id x := x]> m) roles acc !! id = Some r ->
             r ∈ roles \/ acc !! id = Some r).
  { induction roles as [|x roles IH]; intros acc Hl; simpl in *; [now right|].
    apply IH in Hl as [Hl|Hl]; [left; apply elem_of_cons; now right|].
    destruct (decide (Role.id x = id)) as [<-|Hne].
    - rewrite lookup_insert_eq in Hl. injection Hl as <-.
      left. apply elem_of_cons. now left.
    - rewrite lookup_insert_ne in Hl by exact Hne. now right. }
  intros Hl. apply H in Hl as [Hl|Hl]; [exact Hl|].
  rewrite lookup_empty in Hl. discriminate.
Qed.

Lemma validate_top_never_out_of_fuel (roles : list Role) (r : Role) :
  r ∈ roles ->
  RoleHierarchyManager.validateRoleHierarchyRecursively
    (S (length roles)) r (RoleHierarchyManager.roleMap_of roles) [Role.id r]
  <> OutOfFuel.
Proof.
  intros Hr.
  apply (validate_never_out_of_fuel _ (List.map Role.id roles)).
  - intros id x. apply roleMap_of_key.
  - apply NoDup_singleton.
  - intros y Hy. apply list_elem_of_singleton in Hy as ->.
    now apply list_elem_of_In, in_map, list_elem_of_In.
  - rewrite length_map. simpl. lia.
Qed.

Lemma no_member_nil {A : Type} (l : list A) : (forall x, x ∉ l) -> l = [].
Proof.
  destruct l as [|x l]; [reflexivity|]. intros H. exfalso.
  apply (H x), elem_of_cons. now left.
Qed.

(** X17.  [getHierarchyStats] never fails and always ends, on a hierarchy
    with cycles as well: the errors of the validator are caught, and the
    depth of a role is measured only after its validation.  It counts the
    roles, reports as orphaned the roles whose parent is not in the map, and
    as circular the roles whose validation fails with a hierarchy error. *)
Theorem getHierarchyStats_never_fails (roles : list Role) :
  let roleMap := RoleHierarchyManager.roleMap_of roles in
  exists stats,
    RoleHierarchyManager.getHierarchyStats roles = Normal stats
    /\ HierarchyStats.totalRoles stats = Z.of_nat (length roles)
    /\ (forall id, id ∈ HierarchyStats.orphanedRoles stats <->
          exists r, r ∈ roles /\ id = Role.id r
            /\ Js.truthy_string (Role.parentRoleId r) = true
            /\ roleMap !! Js.nullish (Role.parentRoleId r) "" = None)
    /\ (forall id, id ∈ HierarchyStats.circularDependencies stats <->
          exists r, r ∈ roles /\ id = Role.id r
            /\ Js.truthy_string (Role.parentRoleId r) = true
            /\ exists e,
                 RoleHierarchyManager.validateRoleHierarchyRecursively
                   (S (length roles)) r roleMap [Role.id r] = Throw e
                 /\ error_code e = RbacErrorCode.HIERARCHY_ERROR).
Proof.
  intros roleMap. unfold RoleHierarchyManager.getHierarchyStats. fold roleMap.
  destruct (stats_each_result roleMap (S (length roles)) roles 0 [] [])
    as (d & c & o & -> & Hc & Ho).
  { intros r Hr. now apply validate_top_never_out_of_fuel. }
  cbn [bind fst snd]. eexists. split; [reflexivity|].
  cbn [HierarchyStats.totalRoles HierarchyStats.orphanedRoles
       HierarchyStats.circularDependencies].
  split; [reflexivity|]. split; intros id.
  - rewrite Ho. split; [intros [H|H]; [inversion H | exact H] | now right].
  - rewrite Hc. split; [intros [H|H]; [inversion H | exact H] | now right].
Qed.

(** X18.  [getHierarchyStats] and [validateHierarchy] agree: the validation
    of a list of roles succeeds if and only if the statistics of the same
    list report no circular dependency and no orphaned role. *)
Theorem getHierarchyStats_agrees_with_validateHierarchy (roles : list Role) :
  exists stats,
    RoleHierarchyManager.getHierarchyStats roles = Normal stats
    /\ (RoleHierarchyManager.validateHierarchy roles = Normal tt
        <-> HierarchyStats.circularDependencies stats = []
            /\ HierarchyStats.orphanedRoles stats = []).
Proof.
  unfold RoleHierarchyManager.getHierarchyStats, RoleHierarchyManager.validateHierarchy.
  set (roleMap := RoleHierarchyManager.roleMap_of roles).
  destruct (stats_each_result roleMap (S (length roles)) roles 0 [] [])
    as (d & c & o & -> & Hc & Ho).
  { intros r Hr. now apply validate_top_never_out_of_fuel. }
  cbn [bind fst snd]. eexists. split; [reflexivity|].
  cbn [HierarchyStats.orphanedRoles HierarchyStats.circularDependencies].
  split.
  - intros H. pose proof (proj1 (validate_each_normal _ _ _) H) as Hall.
    split; apply no_member_nil; intros id Hid.
    + apply Hc in Hid as [Hid|(r & Hr & _ & Ht & e & He & _)]; [inversion Hid|].
      destruct (Hall r Hr Ht) as [v Hv]. congruence.
    + apply Ho in Hid as [Hid|(r & Hr & _ & Ht & Hnone)]; [inversion Hid|].
      destruct (Hall r Hr Ht) as [v Hv]. simpl in Hv. rewrite Ht in Hv. simpl in Hv.
      destruct (JsSet.has _ _); [discriminate|].
      fold roleMap in Hv. rewrite Hnone in Hv. discriminate.
  - intros [-> ->]. apply (proj2 (validate_each_normal _ _ _)). intros r Hr Ht.
    destruct (RoleHierarchyManager.validateRoleHierarchyRecursively _ r roleMap _)
      as [v|e|] eqn:E.
    + now exists v.
    + exfalso. destruct (validate_throw_cases roleMap _ _ _ _ E)
        as [Hcode|(x & Hx & Hxt & Hxn)].
      * assert (Hin : Role.id r ∈ @nil string); [|inversion Hin].
        apply Hc. right. exists r. repeat split; try assumption. now exists e.
      * assert (Hin : Role.id x ∈ @nil string); [|inversion Hin].
        apply Ho. right. exists x. repeat split; try assumption.
        destruct Hx as [->|[id Hid]]; [exact Hr|].
        now apply (roleMap_of_value roles id).
    + exfalso. revert E. now apply validate_top_never_out_of_fuel.
Qed.

Section Depth_facts.
Variable allRoles : list Role.
Variable roleMap : gmap string Role.
Hypothesis roleMap_find :
  forall id, roleMap !! id = List.find (RoleHierarchyManager.has_id id) allRoles.

(** The depth loop counts the roles of the parent chain. *)
Lemma depth_ancestry (role : Role) (l : list Role) :
  ancestry allRoles role l ->
  forall fuel depth,
    (length l <= fuel)%nat ->
    RoleHierarchyManager.calculateRoleDepth_loop fuel role roleMap depth
    = Normal (depth + Z.of_nat (length l) - 1).
Proof.
  induction 1 as [r Hroot | r p l Hp Hl IH]; intros fuel depth Hfuel;
    (destruct fuel as [|fuel]; simpl in Hfuel; [lia|]);
    cbn [RoleHierarchyManager.calculateRoleDepth_loop]; unfold parent_of in *.
  - destruct (Js.truthy_string (Role.parentRoleId r)).
    + rewrite roleMap_find, Hroot. f_equal. simpl. lia.
    + f_equal. simpl. lia.
  - destruct (Js.truthy_string (Role.parentRoleId r)); [|discriminate].
    rewrite roleMap_find, Hp, IH by lia. f_equal. simpl length. lia.
Qed.

End Depth_facts.

Section Stats_depth.
Variable roleMap : gmap string Role.

Lemma stats_step_depth fuel (role : Role) (d d' : Z) (c c' o o' : list string) :
  RoleHierarchyManager.stats_step fuel roleMap role (d, c, o) = Normal (d', c', o') ->
  d <= d'
  /\ (d' = d
      \/ (Js.truthy_string (Role.parentRoleId role) = true
          /\ (exists v, RoleHierarchyManager.validateRoleHierarchyRecursively
                          fuel role roleMap [Role.id role] = Normal v)
          /\ RoleHierarchyManager.calculateRoleDepth fuel role roleMap = Normal d'))
  /\ (Js.truthy_string (Role.parentRoleId role) = true ->
      forall v x,
        RoleHierarchyManager.validateRoleHierarchyRecursively
          fuel role roleMap [Role.id role] = Normal v ->
        RoleHierarchyManager.calculateRoleDepth fuel role roleMap = Normal x ->
        x <= d').
Proof.
  unfold RoleHierarchyManager.stats_step.
  destruct (Js.truthy_string (Role.parentRoleId role)).
  - destruct (RoleHierarchyManager.validateRoleHierarchyRecursively _ _ _ _)
      as [v|e|]; [| |discriminate].
    + destruct (RoleHierarchyManager.calculateRoleDepth fuel role roleMap)
        as [dd| |]; try discriminate.
      cbn [bind fst snd]. intros H. injection H as <- _ _.
      split; [lia|]. split.
      * destruct (Z.max_spec d dd) as [[_ ->]|[_ ->]]; [right | now left].
        repeat split. now exists v.
      * intros _ v' x _ Hx. injection Hx as <-. lia.
    + destruct (bool_decide _); cbn [bind fst snd]; intros H; injection H as <- _ _;
        (split; [lia|]); (split; [now left | discriminate]).
  - cbn [bind fst snd]. intros H. injection H as <- _ _.
    split; [lia|]. split; [now left | discriminate].
Qed.

Lemma stats_each_depth fuel (roles : list Role) :
  forall (d d' : Z) (c c' o o' : list string),
    RoleHierarchyManager.stats_each fuel roleMap roles (d, c, o) = Normal (d', c', o') ->
    d <= d'
    /\ (d' = d
        \/ exists r,
             r ∈ roles
             /\ Js.truthy_string (Role.parentRoleId r) = true
             /\ (exists v, RoleHierarchyManager.validateRoleHierarchyRecursively
                             fuel r roleMap [Role.id r] = Normal v)
             /\ RoleHierarchyManager.calculateRoleDepth fuel r roleMap = Normal d')
    /\ (forall r,
          r ∈ roles ->
          Js.truthy_string (Role.parentRoleId r) = true ->
          forall v x,
            RoleHierarchyManager.validateRoleHierarchyRecursively
              fuel r roleMap [Role.id r] = Normal v ->
            RoleHierarchyManager.calculateRoleDepth fuel r roleMap = Normal x ->
            x <= d').
Proof.
  induction roles as [|role rest IH]; intros d d' c c' o o' H.
  - injection H as <- _ _. split; [lia|]. split; [now left|].
    intros r Hr. inversion Hr.
  - cbn [RoleHierarchyManager.stats_each] in H.
    destruct (RoleHierarchyManager.stats_step fuel roleMap role (d, c, o))
      as [[[d1 c1] o1]| |] eqn:E1; try discriminate.
    cbn [bind] in H.
    destruct (stats_step_depth _ _ _ _ _ _ _ _ E1) as (S1 & S2 & S3).
    destruct (IH _ _ _ _ _ _ H) as (I1 & I2 & I3).
    split; [lia|]. split.
    + destruct I2 as [->|(r & Hr & Hrest)].
      * destruct S2 as [->|S2]; [now left|].
        right. exists role. split; [apply elem_of_cons; now left | exact S2].
      * right. exists r. split; [apply elem_of_cons; now right | exact Hrest].
    + intros r Hr Ht v x Hv Hx. apply elem_of_cons in Hr as [->|Hr].
      * specialize (S3 Ht v x Hv Hx). lia.
      * now apply (I3 r Hr Ht v x).
Qed.

End Stats_depth.

(** X19.  On a sound hierarchy with unique ids, [maxDepth] is the number of
    roles of the longest parent chain among the roles that have a parent, and
    0 when no role has one: the depth of a root role is not counted. *)
Theorem maxDepth_is_the_longest_chain (roles : list Role) :
  NoDup (List.map Role.id roles) ->
  RoleHierarchyManager.validateHierarchy roles = Normal tt ->
  exists stats,
    RoleHierarchyManager.getHierarchyStats roles = Normal stats
    /\ (forall r l,
          r ∈ roles -> Js.truthy_string (Role.parentRoleId r) = true ->
          ancestry roles r l ->
          Z.of_nat (length l) <= HierarchyStats.maxDepth stats)
    /\ (HierarchyStats.maxDepth stats = 0
        \/ exists r l,
             r ∈ roles /\ Js.truthy_string (Role.parentRoleId r) = true
             /\ ancestry roles r l
             /\ HierarchyStats.maxDepth stats = Z.of_nat (length l)).
Proof.
  intros Hids Hvalid.
  unfold RoleHierarchyManager.getHierarchyStats, RoleHierarchyManager.validateHierarchy
    in *.
  set (roleMap := RoleHierarchyManager.roleMap_of roles) in *.
  assert (Hfind : forall id,
             roleMap !! id = List.find (RoleHierarchyManager.has_id id) roles)
    by (intros id; now apply roleMap_of_lookup).
  pose proof (proj1 (validate_each_normal _ _ _) Hvalid) as Hall.
  assert (Hdepth : forall r l,
             r ∈ roles -> ancestry roles r l ->
             RoleHierarchyManager.calculateRoleDepth (S (length roles)) r roleMap
             = Normal (Z.of_nat (length l))).
  { intros r l Hr Hl. unfold RoleHierarchyManager.calculateRoleDepth.
    rewrite (depth_ancestry roles roleMap Hfind r l Hl).
    - f_equal. lia.
    - apply (ancestry_length roles r l Hl).
      now apply (ancestry_distinct_ids roles r l). }
  destruct (stats_each_result roleMap (S (length roles)) roles 0 [] [])
    as (d & c & o & E & _).
  { intros r Hr. now apply validate_top_never_out_of_fuel. }
  rewrite E. cbn [bind fst snd]. eexists. split; [reflexivity|].
  cbn [HierarchyStats.maxDepth].
  destruct (stats_each_depth roleMap _ _ _ _ _ _ _ _ E) as (_ & D2 & D3).
  split.
  - intros r l Hr Ht Hl. destruct (Hall r Hr Ht) as [v Hv].
    apply (D3 r Hr Ht v _ Hv). now apply Hdepth.
  - destruct D2 as [->|(r & Hr & Ht & [v Hv] & Hd)]; [now left|].
    right.
    destruct (validate_normal_ancestry roles roleMap Hfind _ _ _ _
                (NoDup_singleton _) Hv) as (l & Hl & _).
    exists r, l. repeat split; try assumption.
    rewrite (Hdepth r l Hr Hl) in Hd. now injection Hd as <-.
Qed.

Lemma maxDepth_is_the_longest_chain_witness :
  let clerk := Role.mk 1 "clerk" "Clerk" None (Some "manager") true None in
  let manager := Role.mk 2 "manager" "Manager" None (Some "admin") true None in
  let admin := Role.mk 3 "admin" "Administrator" None None true None in
  exists stats,
    RoleHierarchyManager.getHierarchyStats [admin; clerk; manager] = Normal stats
    /\ (forall r l,
          r ∈ [admin; clerk; manager] ->
          Js.truthy_string (Role.parentRoleId r) = true ->
          ancestry [admin; clerk; manager] r l ->
          Z.of_nat (length l) <= HierarchyStats.maxDepth stats)
    /\ (HierarchyStats.maxDepth stats = 0
        \/ exists r l,
             r ∈ [admin; clerk; manager]
             /\ Js.truthy_string (Role.parentRoleId r) = true
             /\ ancestry [admin; clerk; manager] r l
             /\ HierarchyStats.maxDepth stats = Z.of_nat (length l)).
Proof.
  intros clerk manager admin.
  apply (maxDepth_is_the_longest_chain [admin; clerk; manager]).
  - compute_done.
  - reflexivity.
Defined.

(** Root roles alone give a maximal depth of 0; one child gives 2. *)
Example maxDepth_is_never_one :
  let admin := Role.mk 1 "admin" "Administrator" None None true None in
  let manager := Role.mk 2 "manager" "Manager" None (Some "admin") true None in
  RoleHierarchyManager.getHierarchyStats [admin]
  = Normal (HierarchyStats.mk 1 1 0 [] [])
  /\ RoleHierarchyManager.getHierarchyStats [admin; manager]
     = Normal (HierarchyStats.mk 2 1 2 [] []).
Proof. split; reflexivity. Qed.

Lemma includes_prefix (s sub : string) :
  String.prefix sub s = true -> Js.includes s sub = true.
Proof. intros H. destruct s; simpl in *; now rewrite H. Qed.

Lemma includes_infix (a b c : string) : Js.includes (a +:+ b +:+ c) b = true.
Proof.
  induction a as [|x a IH].
  - change ("" +:+ b +:+ c) with (b +:+ c). apply includes_prefix, prefix_append.
  - change (Js.includes (String x (a +:+ b +:+ c)) b = true). simpl.
    rewrite IH. apply orb_true_r.
Qed.

Lemma append_nonempty (a b : string) : a <> "" -> a +:+ b <> "".
Proof. destruct a; [contradiction | discriminate]. Qed.

(** X20.  [clearCache(tenantId)] removes the memo entries whose key contains
    the text [tenant:] followed by the tenant id, and keeps the others as
    they are.  The entries of every tenant whose id starts with the given id
    are therefore removed as well. *)
Theorem clearCache_of_a_tenant_matches_by_substring
    (t : string) (hierarchyCache : gmap string (list Role)) :
  t <> "" ->
  (forall key,
     RoleHierarchyManager.clearCache (Some t) hierarchyCache !! key
     = if Js.includes key ("tenant:" +:+ t) then None else hierarchyCache !! key)
  /\ (forall roles suffix,
        RoleHierarchyManager.clearCache (Some t) hierarchyCache
          !! RoleHierarchyManager.generateCacheKey roles (Some (t +:+ suffix))
        = None).
Proof.
  intros Ht.
  assert (Htruthy : forall s, s <> "" -> Js.truthy_string (Some s) = true).
  { intros s Hs. unfold Js.truthy_string. now destruct (String.eqb_spec s ""). }
  assert (Hkey : forall key,
             RoleHierarchyManager.clearCache (Some t) hierarchyCache !! key
             = if Js.includes key ("tenant:" +:+ t) then None
               else hierarchyCache !! key).
  { intros key. unfold RoleHierarchyManager.clearCache. rewrite (Htruthy t Ht).
    cbn [Js.nullish].
    destruct (Js.includes key ("tenant:" +:+ t)) eqn:E.
    - apply map_lookup_filter_None. right. intros cached _. simpl. now rewrite E.
    - destruct (hierarchyCache !! key) as [cached|] eqn:El.
      + apply map_lookup_filter_Some. split; [exact El | exact E].
      + apply map_lookup_filter_None. now left. }
  split; [exact Hkey|].
  intros roles suffix. rewrite Hkey.
  unfold RoleHierarchyManager.generateCacheKey.
  rewrite (Htruthy (t +:+ suffix) (append_nonempty t suffix Ht)). cbn [Js.nullish].
  set (ids := Js.join "," (Js.sort (List.map Role.id roles))).
  replace (ids +:+ ":" +:+ "tenant:" +:+ t +:+ suffix)
    with ((ids +:+ ":") +:+ ("tenant:" +:+ t) +:+ suffix).
  - now rewrite includes_infix.
  - now rewrite !append_assoc.
Qed.

Lemma clearCache_of_a_tenant_matches_by_substring_witness :
  let admin := Role.mk 1 "admin" "Administrator" None None true None in
  let memo : gmap string (list Role) :=
    {["admin:tenant:t10" := [admin]; "admin:no-tenant" := [admin]]} in
  RoleHierarchyManager.clearCache (Some "t1") memo
    !! RoleHierarchyManager.generateCacheKey [admin] (Some ("t1" +:+ "0"))
  = None.
Proof.
  intros admin memo.
  apply (clearCache_of_a_tenant_matches_by_substring "t1" memo). discriminate.
Defined.

(** The order of strings that [sort] uses is transitive. *)
Lemma leb_trans (a b c : string) :
  String.leb a b = true -> String.leb b c = true -> String.leb a c = true.
Proof.
  unfold String.leb. intros Hab Hbc.
  destruct (String.compare a b) eqn:Eab; try discriminate.
  - apply String.compare_eq_iff in Eab as ->. exact Hbc.
  - destruct (String.compare b c) eqn:Ebc; try discriminate.
    + apply String.compare_eq_iff in Ebc as <-. now rewrite Eab.
    + assert (H : String.compare a c = Lt); [|now rewrite H].
      apply OrderedTypeEx.String_as_OT.cmp_lt.
      apply OrderedTypeEx.String_as_OT.lt_trans with (y := b);
        now apply OrderedTypeEx.String_as_OT.cmp_lt.
Qed.

Lemma sort_insert_comm (x y : string) (l : list string) :
  Js.sort_insert x (Js.sort_insert y l) = Js.sort_insert y (Js.sort_insert x l).
Proof.
  induction l as [|z l IH]; simpl.
  - destruct (String.leb x y) eqn:Exy, (String.leb y x) eqn:Eyx; try reflexivity.
    + now rewrite (String.leb_antisym x y Exy Eyx).
    + destruct (String.leb_total x y); congruence.
  - destruct (String.leb y z) eqn:Eyz, (String.leb x z) eqn:Exz; simpl.
    + rewrite Exz, Eyz.
      destruct (String.leb x y) eqn:Exy, (String.leb y x) eqn:Eyx; try reflexivity.
      * now rewrite (String.leb_antisym x y Exy Eyx).
      * destruct (String.leb_total x y); congruence.
    + rewrite Eyz. destruct (String.leb x y) eqn:Exy; [|now rewrite Exz].
      pose proof (leb_trans x y z Exy Eyz). congruence.
    + rewrite Exz. destruct (String.leb y x) eqn:Eyx; [|now rewrite Eyz].
      pose proof (leb_trans y x z Eyx Exz). congruence.
    + now rewrite Exz, Eyz, IH.
Qed.

Lemma sort_Permutation (l l' : list string) :
  Permutation l l' -> Js.sort l = Js.sort l'.
Proof.
  induction 1 as [|x l l' _ IH|x y l|l l' l'' _ IH1 _ IH2]; simpl.
  - reflexivity.
  - now rewrite IH.
  - apply sort_insert_comm.
  - now rewrite IH1.
Qed.

(** X21.  The memo key of a resolution does not depend on the order of the
    user roles: two lists of roles whose ids are the same up to their order
    have the same key. *)
Theorem generateCacheKey_ignores_the_order
    (roles roles' : list Role) (tenantId : option string) :
  Permutation (List.map Role.id roles) (List.map Role.id roles') ->
  RoleHierarchyManager.generateCacheKey roles tenantId
  = RoleHierarchyManager.generateCacheKey roles' tenantId.
Proof.
  intros H. unfold RoleHierarchyManager.generateCacheKey.
  now rewrite (sort_Permutation _ _ H).
Qed.

Lemma generateCacheKey_ignores_the_order_witness :
  let manager := Role.mk 1 "manager" "Manager" None None true None in
  let auditor := Role.mk 2 "auditor" "Auditor" None None true None in
  RoleHierarchyManager.generateCacheKey [manager; auditor] None
  = RoleHierarchyManager.generateCacheKey [auditor; manager] None.
Proof.
  intros manager auditor.
  apply (generateCacheKey_ignores_the_order [manager; auditor] [auditor; manager]).
  simpl. apply perm_swap.
Defined.

(** The key joins the ids with commas and does not escape them: one role
    whose id holds a comma has the key of two roles. *)
Example generateCacheKey_is_not_injective :
  let ab := Role.mk 1 "a,b" "AB" None None true None in
  let a := Role.mk 2 "a" "A" None None true None in
  let b := Role.mk 3 "b" "B" None None true None in
  RoleHierarchyManager.generateCacheKey [ab] None
  = RoleHierarchyManager.generateCacheKey [a; b] None.
Proof. reflexivity. Qed.

(** X22.  In a universe with unique ids, [getChildRoles] inverts the parent
    lookup of the resolver: for a role [p] of the universe with a non-empty
    id, the children of [p] are exactly the roles of the universe whose
    parent reference resolves to [p], in the order of the universe. *)
Theorem getChildRoles_inverts_the_parent_lookup
    (allRoles : list Role) (p r : Role) :
  NoDup (List.map Role.id allRoles) ->
  p ∈ allRoles ->
  Role.id p <> "" ->
  r ∈ RoleHierarchyManager.getChildRoles (Role.id p) allRoles
  <-> r ∈ allRoles /\ parent_of allRoles r = Some p.
Proof.
  intros Hids Hp Hne.
  unfold RoleHierarchyManager.getChildRoles, parent_of.
  rewrite list_elem_of_In, filter_In, <- list_elem_of_In.
  assert (Hfind : List.find (RoleHierarchyManager.has_id (Role.id p)) allRoles = Some p).
  { destruct (List.find (RoleHierarchyManager.has_id (Role.id p)) allRoles)
      as [q|] eqn:E.
    - apply find_has_id in E as [Hq Hid]. f_equal.
      now apply (unique_ids_inj allRoles).
    - exfalso. pose proof (find_none _ _ E p) as Hnone.
      unfold RoleHierarchyManager.has_id in Hnone.
      rewrite String.eqb_refl in Hnone.
      assert (true = false); [|discriminate].
      now apply Hnone, list_elem_of_In. }
  split; intros [Hr H]; (split; [exact Hr|]).
  - destruct (Role.parentRoleId r) as [x|]; [|discriminate].
    apply String.eqb_eq in H as ->. unfold Js.truthy_string, Js.nullish.
    destruct (String.eqb_spec (Role.id p) ""); [contradiction | exact Hfind].
  - destruct (Role.parentRoleId r) as [x|]; [|discriminate].
    unfold Js.truthy_string, Js.nullish in H.
    destruct (String.eqb_spec x ""); [discriminate|]. simpl in H.
    apply find_has_id in H as [_ ->]. apply String.eqb_refl.
Qed.

Lemma getChildRoles_inverts_the_parent_lookup_witness :
  let admin := Role.mk 1 "admin" "Administrator" None None true None in
  let manager := Role.mk 2 "manager" "Manager" None (Some "admin") true None in
  let auditor := Role.mk 3 "auditor" "Auditor" None (Some "admin") true None in
  RoleHierarchyManager.getChildRoles "admin" [admin; manager; auditor]
  = [manager; auditor]
  /\ (manager ∈ RoleHierarchyManager.getChildRoles (Role.id admin)
                  [admin; manager; auditor]
      <-> manager ∈ [admin; manager; auditor]
          /\ parent_of [admin; manager; auditor] manager = Some admin).
Proof.
  intros admin manager auditor. split; [reflexivity|].
  apply (getChildRoles_inverts_the_parent_lookup [admin; manager; auditor] admin manager).
  - compute_done.
  - apply elem_of_cons. now left.
  - discriminate.
Defined.

(** The roles whose parent reference is the empty string are children of the
    empty id for [getChildRoles] and roots for the resolver. *)
Example getChildRoles_of_the_empty_id :
  let orphan := Role.mk 1 "orphan" "Orphan" None (Some "") true None in
  RoleHierarchyManager.getChildRoles "" [orphan] = [orphan]
  /\ parent_of [orphan] orphan = None.
Proof. split; reflexivity. Qed.

(* ===================================================================== *)
(** ** Further properties of the service *)
(* ===================================================================== *)

(** A [get] does not change what a [get] at the same time answers. *)
Lemma LruCache_get_get {T : Type} (k k' : string) (now : Z) (c : LruCache.t T) :
  snd (LruCache.get k' now (fst (LruCache.get k now c)))
  = snd (LruCache.get k' now c).
Proof.
  rewrite !LruCache_get_result. unfold LruCache.get.
  destruct (JsMap.get k (LruCache.cache c)) as [entry|] eqn:Eg; [|reflexivity].
  destruct (LruCache.expired now entry) eqn:Ee; simpl.
  - destruct (String.eqb_spec k k') as [<-|Hne].
    + now rewrite (JsMap_get_fresh k _ (JsMap_delete_gone k _)), Eg, Ee.
    + now rewrite JsMap_get_delete_ne.
  - rewrite JsMap_set_fresh by apply JsMap_delete_gone.
    destruct (String.eqb_spec k k') as [<-|Hne].
    + now rewrite (JsMap_get_last k entry _ (JsMap_delete_gone k _)), Eg.
    + rewrite JsMap_get_app_ne by congruence. now rewrite JsMap_get_delete_ne.
Qed.

(** A resolution answers the same when it is repeated on the memo it
    left. *)
Lemma resolveHierarchy_again userRoles allRoles tenantId
    (hierarchyCache : gmap string (list Role)) :
  snd (RoleHierarchyManager.resolveHierarchy userRoles allRoles tenantId
         (fst (RoleHierarchyManager.resolveHierarchy userRoles allRoles tenantId
                 hierarchyCache)))
  = snd (RoleHierarchyManager.resolveHierarchy userRoles allRoles tenantId
           hierarchyCache).
Proof.
  unfold RoleHierarchyManager.resolveHierarchy.
  destruct (hierarchyCache !! _) as [cached|] eqn:E; cbn [fst snd]; [now rewrite E|].
  destruct (RoleHierarchyManager.resolve_each _ _ _ _ _ _) as [out|e|] eqn:Er;
    cbn [fst snd].
  - now rewrite lookup_insert_eq.
  - now rewrite E.
  - now rewrite E.
Qed.

Section Service_reads.
Implicit Types (s : RoleService.t) (context : UserContext) (options : option Options).

(** The role check reads the configuration, the role universe and the memo
    of the hierarchy manager, and nothing else of the service. *)
Lemma checkRoleAccess_reads roleId context options s s' :
  RoleService.config s' = RoleService.config s ->
  RoleService.systemRoles s' = RoleService.systemRoles s ->
  RoleService.hierarchyManager s' = RoleService.hierarchyManager s ->
  RoleService.checkRoleAccess roleId context options s'
  = RoleService.checkRoleAccess roleId context options s.
Proof.
  intros Hc Hs Hh. unfold RoleService.checkRoleAccess. now rewrite Hc, Hs, Hh.
Qed.

(** A role check answers the same on the memo that another role check of the
    same context and options left. *)
Lemma checkRoleAccess_again roleId0 roleId context options s s' :
  RoleService.config s' = RoleService.config s ->
  RoleService.systemRoles s' = RoleService.systemRoles s ->
  RoleService.hierarchyManager s'
  = fst (RoleService.checkRoleAccess roleId0 context options s) ->
  snd (RoleService.checkRoleAccess roleId context options s')
  = snd (RoleService.checkRoleAccess roleId context options s).
Proof.
  intros Hc Hs Hh. unfold RoleService.checkRoleAccess in *. rewrite Hc, Hs.
  set (tenantId := Js.nullish_opt _ _) in *.
  set (rolesToCheck := if Js.truthy_string tenantId then _ else _) in *.
  destruct (existsb _ rolesToCheck) eqn:E0 in Hh.
  { simpl in Hh. rewrite Hh. reflexivity. }
  destruct (Js.nullish (Options.prop Options.includeInherited options) _) eqn:Ei.
  2:{ simpl in Hh. rewrite Hh. reflexivity. }
  destruct (existsb (fun r => String.eqb (Role.id r) roleId && Role.active r)
                    rolesToCheck); [reflexivity|].
  destruct (RoleHierarchyManager.resolveHierarchy rolesToCheck
              (RoleService.systemRoles s) tenantId (RoleService.hierarchyManager s))
    as [h resolved] eqn:Er.
  simpl in Hh. rewrite Hh.
  pose proof (resolveHierarchy_again rolesToCheck (RoleService.systemRoles s) tenantId
                (RoleService.hierarchyManager s)) as Hagain.
  rewrite Er in Hagain. simpl in Hagain.
  destruct (RoleHierarchyManager.resolveHierarchy rolesToCheck
              (RoleService.systemRoles s) tenantId h) as [h2 resolved2].
  simpl in *. now rewrite Hagain.
Qed.

Lemma executePermissionCheck_again type0 identifier0 type identifier context options
    s s' :
  RoleService.config s' = RoleService.config s ->
  RoleService.systemRoles s' = RoleService.systemRoles s ->
  RoleService.hierarchyManager s'
  = fst (RoleService.executePermissionCheck type0 identifier0 context options s)
  \/ RoleService.hierarchyManager s' = RoleService.hierarchyManager s ->
  snd (RoleService.executePermissionCheck type identifier context options s')
  = snd (RoleService.executePermissionCheck type identifier context options s).
Proof.
  intros Hc Hs Hh. destruct type; [|reflexivity]. simpl.
  destruct Hh as [Hh|Hh].
  - destruct type0; simpl in Hh.
    + now apply (checkRoleAccess_again identifier0).
    + now rewrite (checkRoleAccess_reads _ _ _ s s').
  - now rewrite (checkRoleAccess_reads _ _ _ s s').
Qed.

End Service_reads.

Section Composite_checks.
Variable env : JsEnv.
Variable options : option Options.
Variable now : Z.
Implicit Types (s : RoleService.t) (type : CheckType) (identifier : string).

(** The observable that a call of [performPermissionCheck] returns, from
    what it reads. *)
Lemma call_snd type identifier s :
  snd (RoleService.performPermissionCheck_call env type identifier options now s)
  = match RoleService.userContext s with
    | None =>
        Normal (RoleService.Of
                  {| PermissionCheckResult.granted := false;
                     PermissionCheckResult.reason := Some "No user context available";
                     PermissionCheckResult.grantingRoles := None;
                     PermissionCheckResult.grantingPermissions := None |})
    | Some context =>
        let cacheKey :=
          RoleService.generateCacheKey env type identifier
            (UserContext.userId context) options in
        match (if RbacConfig.enableCaching (RoleService.config s)
               then snd (LruCache.get cacheKey now (RoleService.contextCache s))
               else None) with
        | Some result => Normal (RoleService.Of result)
        | None =>
            result <- snd (RoleService.executePermissionCheck
                             type identifier context options s) ;;
            Normal (RoleService.Computed type identifier context cacheKey result)
        end
    end.
Proof.
  unfold RoleService.performPermissionCheck_call.
  destruct (RoleService.userContext s) as [context|]; [|reflexivity].
  cbv zeta.
  destruct (RbacConfig.enableCaching (RoleService.config s)).
  - destruct (LruCache.get _ now (RoleService.contextCache s)) as [c [result|]];
      [reflexivity|].
    rewrite executePermissionCheck_contextCache.
    now destruct (RoleService.executePermissionCheck _ _ _ _ s) as [h outcome].
  - now destruct (RoleService.executePermissionCheck _ _ _ _ s) as [h outcome].
Qed.

(** What a call of [performPermissionCheck] leaves of the state that checks
    read. *)
Lemma call_frame type identifier s :
  let s1 :=
    fst (RoleService.performPermissionCheck_call env type identifier options now s) in
  RoleService.config s1 = RoleService.config s
  /\ RoleService.userContext s1 = RoleService.userContext s
  /\ RoleService.systemRoles s1 = RoleService.systemRoles s
  /\ (forall k,
        snd (LruCache.get k now (RoleService.contextCache s1))
        = snd (LruCache.get k now (RoleService.contextCache s)))
  /\ (forall context,
        RoleService.userContext s = Some context ->
        RoleService.hierarchyManager s1
        = fst (RoleService.executePermissionCheck type identifier context options s)
        \/ RoleService.hierarchyManager s1 = RoleService.hierarchyManager s).
Proof.
  unfold RoleService.performPermissionCheck_call.
  destruct (RoleService.userContext s) as [context|] eqn:Eu; cbv zeta.
  2:{ simpl. repeat split; [exact Eu | intros; congruence]. }
  destruct (RbacConfig.enableCaching (RoleService.config s)).
  - pose proof (LruCache_get_get (T := PermissionCheckResult)
                  (RoleService.generateCacheKey env type identifier
                     (UserContext.userId context) options)) as Hgg.
    destruct (LruCache.get _ now (RoleService.contextCache s)) as [c [result|]] eqn:Eg.
    + simpl. repeat split; [exact Eu | |].
      * intros k. specialize (Hgg k now (RoleService.contextCache s)).
        now rewrite Eg in Hgg.
      * intros context' _. now right.
    + rewrite executePermissionCheck_contextCache.
      destruct (RoleService.executePermissionCheck _ _ _ _ s) as [h outcome] eqn:Ee.
      simpl. repeat split; [exact Eu | |].
      * intros k. specialize (Hgg k now (RoleService.contextCache s)).
        now rewrite Eg in Hgg.
      * intros context' H. injection H as <-. left. now rewrite Ee.
  - destruct (RoleService.executePermissionCheck _ _ _ _ s) as [h outcome] eqn:Ee.
    simpl. repeat split; [exact Eu|]. intros context' H. injection H as <-. left.
    now rewrite Ee.
Qed.

(** A call of [performPermissionCheck] does not change what a later call at
    the same time, with the same options, returns. *)
Lemma call_after_call type0 identifier0 type identifier s :
  snd (RoleService.performPermissionCheck_call env type identifier options now
         (fst (RoleService.performPermissionCheck_call
                 env type0 identifier0 options now s)))
  = snd (RoleService.performPermissionCheck_call env type identifier options now s).
Proof.
  destruct (call_frame type0 identifier0 s) as (Hc & Hu & Hs & Hg & Hh).
  rewrite !call_snd, Hu, Hc.
  destruct (RoleService.userContext s) as [context|]; [|reflexivity].
  cbv zeta. rewrite Hg.
  destruct (if RbacConfig.enableCaching (RoleService.config s) then _ else _);
    [reflexivity|].
  now rewrite (executePermissionCheck_again type0 identifier0 type identifier
                 context options s _ Hc Hs (Hh context eq_refl)).
Qed.

End Composite_checks.

Section Composite_results.
Variable env : JsEnv.
Variable options : option Options.
Variable now : Z.
Implicit Types (s : RoleService.t) (type : CheckType) (identifier : string).

(** A check is a call followed by one subscription. *)
Lemma performPermissionCheck_two_phase type identifier s :
  snd (RoleService.performPermissionCheck env type identifier options now s)
  = (o <- snd (RoleService.performPermissionCheck_call
                 env type identifier options now s) ;;
     Normal (emitted o)).
Proof.
  unfold RoleService.performPermissionCheck, RoleService.performPermissionCheck_call.
  destruct (RoleService.userContext s) as [context|]; [|reflexivity].
  cbv zeta.
  destruct (if RbacConfig.enableCaching (RoleService.config s) then _ else _)
    as [s0 [result|]]; [reflexivity|].
  now destruct (RoleService.executePermissionCheck _ _ _ _ s0) as [h [result|e|]].
Qed.

Lemma subscribe_each_snd (os : list RoleService.Observable) s :
  snd (RoleService.subscribe_each env os now s) = List.map emitted os.
Proof.
  revert s. induction os as [|o os IH]; intros s; [reflexivity|].
  cbn [RoleService.subscribe_each].
  destruct (RoleService.subscribe env o now s) as [s1 result] eqn:E1.
  specialize (IH s1).
  destruct (RoleService.subscribe_each env os now s1) as [s2 results].
  simpl in *. rewrite IH. f_equal. now destruct o; injection E1 as _ <-.
Qed.

Lemma perform_each_normal type (answer : string -> bool) (ids : list string) :
  forall s,
    (forall id, id ∈ ids ->
       exists o,
         snd (RoleService.performPermissionCheck_call env type id options now s)
         = Normal o
         /\ PermissionCheckResult.granted (emitted o) = answer id) ->
    exists os,
      snd (RoleService.perform_each env type ids options now s) = Normal os
      /\ List.map (fun o => PermissionCheckResult.granted (emitted o)) os
         = List.map answer ids.
Proof.
  induction ids as [|id rest IH]; intros s Hall.
  - exists []. split; reflexivity.
  - cbn [RoleService.perform_each].
    destruct (Hall id) as (o & Ho & Hanswer); [apply elem_of_cons; now left|].
    destruct (RoleService.performPermissionCheck_call env type id options now s)
      as [s1 o1] eqn:E1.
    simpl in Ho. subst o1.
    destruct (IH s1) as (os & Hos & Hmap).
    { intros id' Hid'.
      replace s1
        with (fst (RoleService.performPermissionCheck_call env type id options now s))
        by now rewrite E1.
      rewrite call_after_call. apply Hall, elem_of_cons. now right. }
    destruct (RoleService.perform_each env type rest options now s1) as [s2 os'].
    simpl in Hos. subst os'. exists (o :: os). split; [reflexivity|].
    simpl. now rewrite Hanswer, Hmap.
Qed.

Lemma combined_check_normal type (answer : string -> bool)
    (combine : list bool -> bool) (ids : list string) s :
  (forall id, id ∈ ids ->
     exists result,
       snd (RoleService.performPermissionCheck env type id options now s)
       = Normal result
       /\ PermissionCheckResult.granted result = answer id) ->
  snd (RoleService.combined_check env type ids options combine now s)
  = Normal (combine (List.map answer ids)).
Proof.
  intros Hall. unfold RoleService.combined_check.
  destruct (perform_each_normal type answer ids s) as (os & Hos & Hmap).
  { intros id Hid. destruct (Hall id Hid) as (result & Hr & Hg).
    rewrite performPermissionCheck_two_phase in Hr.
    destruct (snd (RoleService.performPermissionCheck_call _ _ _ _ _ _))
      as [o| |]; try discriminate.
    injection Hr as <-. now exists o. }
  destruct (RoleService.perform_each env type ids options now s) as [s1 os'].
  simpl in Hos. subst os'.
  pose proof (subscribe_each_snd os s1) as Hsub.
  destruct (RoleService.subscribe_each env os now s1) as [s2 results].
  simpl in *. subst results. now rewrite map_map, Hmap.
Qed.

End Composite_results.

Lemma existsb_map_id {A : Type} (f : A -> bool) (l : list A) :
  existsb (fun b => b) (List.map f l) = existsb f l.
Proof. induction l as [|x l IH]; simpl; [reflexivity | now rewrite IH]. Qed.

Lemma forallb_map_id {A : Type} (f : A -> bool) (l : list A) :
  forallb (fun b : bool => b) (List.map f l) = forallb f l.
Proof. induction l as [|x l IH]; simpl; [reflexivity | now rewrite IH]. Qed.

Lemma hasRole_answer env roleId options now s (b : bool) :
  snd (RoleService.hasRole env roleId options now s) = Normal b ->
  exists result,
    snd (RoleService.performPermissionCheck env CheckRole roleId options now s)
    = Normal result
    /\ PermissionCheckResult.granted result = b.
Proof.
  rewrite hasRole_outcome.
  destruct (snd (RoleService.performPermissionCheck _ _ _ _ _ _)) as [result| |];
    try discriminate.
  intros H. injection H as <-. now exists result.
Qed.

(** X23.  [hasAnyRole] answers the disjunction of the answers that [hasRole]
    gives for each id in the same state, when each of these checks
    completes; for no id at all this is [false]. *)
Theorem hasAnyRole_is_the_disjunction
    (env : JsEnv) (roleIds : list string) (options : option Options) (now : Z)
    (s : RoleService.t) (answer : string -> bool) :
  (forall roleId, roleId ∈ roleIds ->
     snd (RoleService.hasRole env roleId options now s) = Normal (answer roleId)) ->
  snd (RoleService.hasAnyRole env roleIds options now s)
  = Normal (existsb answer roleIds).
Proof.
  intros Hall. unfold RoleService.hasAnyRole.
  destruct roleIds as [|roleId rest]; [reflexivity|].
  rewrite (combined_check_normal env options now CheckRole answer).
  - now rewrite existsb_map_id.
  - intros id Hid. now apply hasRole_answer, Hall.
Qed.

(** X24.  [hasAllRoles] answers the conjunction of the answers that
    [hasRole] gives for each id in the same state, when each of these checks
    completes; for no id at all this is [true], with or without a user
    context. *)
Theorem hasAllRoles_is_the_conjunction
    (env : JsEnv) (roleIds : list string) (options : option Options) (now : Z)
    (s : RoleService.t) (answer : string -> bool) :
  (forall roleId, roleId ∈ roleIds ->
     snd (RoleService.hasRole env roleId options now s) = Normal (answer roleId)) ->
  snd (RoleService.hasAllRoles env roleIds options now s)
  = Normal (forallb answer roleIds).
Proof.
  intros Hall. unfold RoleService.hasAllRoles.
  destruct roleIds as [|roleId rest]; [reflexivity|].
  rewrite (combined_check_normal env options now CheckRole answer).
  - now rewrite forallb_map_id.
  - intros id Hid. now apply hasRole_answer, Hall.
Qed.

Lemma hasAnyRole_is_the_disjunction_witness :
  let manager := Role.mk 1 "manager" "Manager" None None true None in
  let alice := UserContext.mk "alice" [manager] [] None None 0 in
  let s := RoleService.setUserContext example_env alice 0 fresh_service in
  snd (RoleService.hasAnyRole example_env ["admin"; "manager"] None 1 s) = Normal true.
Proof.
  intros manager alice s.
  apply (hasAnyRole_is_the_disjunction example_env ["admin"; "manager"] None 1 s
           (fun roleId => String.eqb roleId "manager")).
  intros roleId Hin.
  apply elem_of_cons in Hin as [->|Hin]; [reflexivity|].
  apply elem_of_cons in Hin as [->|Hin]; [reflexivity | inversion Hin].
Defined.

Lemma hasAllRoles_is_the_conjunction_witness :
  let manager := Role.mk 1 "manager" "Manager" None None true None in
  let alice := UserContext.mk "alice" [manager] [] None None 0 in
  let s := RoleService.setUserContext example_env alice 0 fresh_service in
  snd (RoleService.hasAllRoles example_env ["admin"; "manager"] None 1 s) = Normal false.
Proof.
  intros manager alice s.
  apply (hasAllRoles_is_the_conjunction example_env ["admin"; "manager"] None 1 s
           (fun roleId => String.eqb roleId "manager")).
  intros roleId Hin.
  apply elem_of_cons in Hin as [->|Hin]; [reflexivity|].
  apply elem_of_cons in Hin as [->|Hin]; [reflexivity | inversion Hin].
Defined.

Lemma hasPermission_answer env permissionId options now s (b : bool) :
  snd (RoleService.hasPermission env permissionId options now s) = Normal b ->
  exists result,
    snd (RoleService.performPermissionCheck env CheckPermission permissionId options
           now s)
    = Normal result
    /\ PermissionCheckResult.granted result = b.
Proof.
  unfold RoleService.hasPermission.
  destruct (RoleService.performPermissionCheck env CheckPermission permissionId
              options now s) as [s' [result| |]]; simpl; try discriminate.
  intros H. injection H as <-. now exists result.
Qed.

(** X25.  [hasAnyPermission] answers the disjunction of the answers that
    [hasPermission] gives for each id in the same state, when each of these
    checks completes; for no id at all this is [false]. *)
Theorem hasAnyPermission_is_the_disjunction
    (env : JsEnv) (permissionIds : list string) (options : option Options) (now : Z)
    (s : RoleService.t) (answer : string -> bool) :
  (forall permissionId, permissionId ∈ permissionIds ->
     snd (RoleService.hasPermission env permissionId options now s)
     = Normal (answer permissionId)) ->
  snd (RoleService.hasAnyPermission env permissionIds options now s)
  = Normal (existsb answer permissionIds).
Proof.
  intros Hall. unfold RoleService.hasAnyPermission.
  destruct permissionIds as [|permissionId rest]; [reflexivity|].
  rewrite (combined_check_normal env options now CheckPermission answer).
  - now rewrite existsb_map_id.
  - intros id Hid. now apply hasPermission_answer, Hall.
Qed.

Lemma hasAnyPermission_is_the_disjunction_witness :
  let edit := Permission.mk "doc.edit" "Edit documents" "doc" "edit" true None in
  let alice := UserContext.mk "alice" [] [edit] None None 0 in
  let s := RoleService.setUserContext example_env alice 0 fresh_service in
  snd (RoleService.hasAnyPermission example_env ["doc.delete"; "doc.edit"] None 1 s)
  = Normal true.
Proof.
  intros edit alice s.
  apply (hasAnyPermission_is_the_disjunction example_env ["doc.delete"; "doc.edit"]
           None 1 s (fun permissionId => String.eqb permissionId "doc.edit")).
  intros permissionId Hin.
  apply elem_of_cons in Hin as [->|Hin]; [reflexivity|].
  apply elem_of_cons in Hin as [->|Hin]; [reflexivity | inversion Hin].
Defined.




(** X27.  A role that the context holds directly is granted without the
    hierarchy: when the decision cache does not serve the check, an active
    role of the context with the asked id, of no tenant or of the tenant of
    the check, gives [true] whatever the inheritance setting, the role
    universe and the memo are, so also when the hierarchy has a cycle; the
    memo is left as it is. *)
Theorem direct_role_is_granted_without_the_hierarchy
    (env : JsEnv) (roleId : string) (options : option Options) (now : Z)
    (s : RoleService.t) (context : UserContext) (r : Role) :
  RoleService.userContext s = Some context ->
  cache_miss env CheckRole roleId options now s context ->
  r ∈ UserContext.roles context ->
  Role.id r = roleId ->
  Role.active r = true ->
  Js.truthy_string (tenant_of context options) = false
  \/ Js.truthy_string (Role.tenantId r) = false
  \/ Role.tenantId r = tenant_of context options ->
  snd (RoleService.hasRole env roleId options now s) = Normal true
  /\ RoleService.hierarchyManager (fst (RoleService.hasRole env roleId options now s))
     = RoleService.hierarchyManager s.
Proof.
  intros Hctx Hmiss Hin Hid Hactive Htenant.
  assert (Hdirect :
    RoleService.checkRoleAccess roleId context options s
    = (RoleService.hierarchyManager s,
       Normal {| PermissionCheckResult.granted := true;
                 PermissionCheckResult.reason := Some "Direct role assignment";
                 PermissionCheckResult.grantingRoles := Some [roleId];
                 PermissionCheckResult.grantingPermissions := None |})).
  { unfold RoleService.checkRoleAccess. fold (tenant_of context options).
    set (rolesToCheck := if Js.truthy_string (tenant_of context options)
                         then _ else _).
    assert (Hr : r ∈ rolesToCheck).
    { unfold rolesToCheck.
      destruct (Js.truthy_string (tenant_of context options)) eqn:Et; [|exact Hin].
      apply list_elem_of_In, filter_In. split; [now apply list_elem_of_In|].
      destruct Htenant as [H|[H|H]]; [discriminate | now rewrite H |].
      rewrite H, String.eqb_refl. apply orb_true_r. }
    assert (Hex : existsb (fun x => String.eqb (Role.id x) roleId && Role.active x)
                          rolesToCheck = true).
    { apply existsb_exists. exists r. split; [now apply list_elem_of_In|].
      now rewrite Hid, String.eqb_refl, Hactive. }
    now rewrite Hex. }
  unfold RoleService.hasRole, RoleService.performPermissionCheck.
  rewrite Hctx. unfold cache_miss in Hmiss.
  destruct (RbacConfig.enableCaching (RoleService.config s)).
  - specialize (Hmiss eq_refl).
    destruct (LruCache.get _ now (RoleService.contextCache s)) as [c v].
    simpl in Hmiss. subst v. cbv zeta.
    rewrite executePermissionCheck_contextCache.
    unfold RoleService.executePermissionCheck. rewrite Hdirect.
    split; [reflexivity|]. unfold RoleService.record_check.
    now destruct (RbacConfig.enableCaching _).
  - cbv zeta. unfold RoleService.executePermissionCheck. rewrite Hdirect.
    split; [reflexivity|]. unfold RoleService.record_check.
    now destruct (RbacConfig.enableCaching _).
Qed.

Lemma direct_role_is_granted_without_the_hierarchy_witness :
  let A := Role.mk 1 "A" "A" None (Some "B") true None in
  let B := Role.mk 2 "B" "B" None (Some "A") true None in
  let alice := UserContext.mk "alice" [A] [] None None 0 in
  let s0 := RoleService.setUserContext example_env alice 0 fresh_service in
  let s := RoleService.mk (RoleService.config s0) (RoleService.userContext s0) [A; B]
             (RoleService.roles_subject s0) (RoleService.permissions_subject s0)
             (RoleService.tenant_subject s0) (RoleService.eventSubject s0)
             (RoleService.permissionCache s0) (RoleService.contextCache s0)
             (RoleService.auditLog s0) (RoleService.hierarchyManager s0) in
  (snd (RoleService.hasRole example_env "A" None 1 s) = Normal true
   /\ RoleService.hierarchyManager (fst (RoleService.hasRole example_env "A" None 1 s))
      = RoleService.hierarchyManager s)
  /\ exists e, snd (RoleService.hasRole example_env "B" None 1 s) = Throw e.
Proof.
  intros A B alice s0 s. split.
  - apply (direct_role_is_granted_without_the_hierarchy
             example_env "A" None 1 s alice A).
    + reflexivity.
    + intros _. reflexivity.
    + apply elem_of_cons. now left.
    + reflexivity.
    + reflexivity.
    + left. reflexivity.
  - eexists. reflexivity.
Defined.

(** X28.  [getAuditLog(limit)] returns a final part of the audit log, the
    last [limit] entries (all of them when there are fewer) for a positive
    [limit].  For [limit = 0] it returns the whole log, not the empty list,
    and for a negative [limit] it drops that many of the oldest entries;
    without an argument the limit is 100. *)
Theorem getAuditLog_returns_the_latest_entries (limit : Z) (s : RoleService.t) :
  (exists older,
     RoleService.auditLog s = older ++ RoleService.getAuditLog (Some limit) s)
  /\ (0 < limit ->
      length (RoleService.getAuditLog (Some limit) s)
      = Nat.min (Z.to_nat limit) (length (RoleService.auditLog s)))
  /\ (limit = 0 -> RoleService.getAuditLog (Some limit) s = RoleService.auditLog s)
  /\ (limit < 0 ->
      RoleService.getAuditLog (Some limit) s
      = drop (Z.to_nat (- limit)) (RoleService.auditLog s))
  /\ RoleService.getAuditLog None s = RoleService.getAuditLog (Some 100) s.
Proof.
  unfold RoleService.getAuditLog, Js.slice_from, Js.nullish.
  split; [|split; [|split; [|split]]].
  - eexists. symmetry. apply take_drop.
  - intros Hpos. destruct (Z.ltb_spec (- limit) 0); [|lia].
    rewrite length_drop. lia.
  - intros ->. cbn [Z.opp Z.ltb Z.compare]. now rewrite Z.min_l by lia.
  - intros Hneg. destruct (Z.ltb_spec (- limit) 0); [lia|].
    destruct (Z.min_spec (- limit) (Z.of_nat (length (RoleService.auditLog s))))
      as [[_ ->]|[Hle ->]]; [reflexivity|].
    rewrite Nat2Z.id, !drop_ge by lia. reflexivity.
  - reflexivity.
Qed.

Lemma getAuditLog_returns_the_latest_entries_witness :
  let admin := Role.mk 1 "admin" "Administrator" None None true None in
  let alice := UserContext.mk "alice" [admin] [] None None 0 in
  let s0 := RoleService.setUserContext example_env alice 0 fresh_service in
  let s1 := fst (RoleService.hasRole example_env "admin" None 1 s0) in
  let s := fst (RoleService.hasRole example_env "editor" None 2 s1) in
  length (RoleService.auditLog s) = 2%nat
  /\ (0 < 1 ->
      length (RoleService.getAuditLog (Some 1) s)
      = Nat.min (Z.to_nat 1) (length (RoleService.auditLog s))).
Proof.
  intros admin alice s0 s1 s. split; [reflexivity|].
  apply (getAuditLog_returns_the_latest_entries 1 s).
Defined.

(** X29.  [getEffectiveRoles] returns the roles of the context as they are
    when the hierarchy is disabled, roles of another tenant and inactive
    roles included.  With the hierarchy enabled, a resolution that is not
    answered from the memo returns every role of the context that is not of
    another tenant than the context, and only roles that are not of another
    tenant and lie on the parent chain of a role of the context. *)
Theorem getEffectiveRoles_of_the_context (s : RoleService.t) (context : UserContext) :
  RoleService.userContext s = Some context ->
  (RbacConfig.enableRoleHierarchy (RoleService.config s) = false ->
   RoleService.getEffectiveRoles s = (s, Normal (UserContext.roles context)))
  /\ (RbacConfig.enableRoleHierarchy (RoleService.config s) = true ->
      RoleService.hierarchyManager s
        !! RoleHierarchyManager.generateCacheKey
             (UserContext.roles context) (UserContext.tenantId context)
      = None ->
      forall result,
        snd (RoleService.getEffectiveRoles s) = Normal result ->
        (forall r, r ∈ UserContext.roles context ->
           RoleHierarchyManager.other_tenant (UserContext.tenantId context) r = false ->
           r ∈ result)
        /\ (forall x, x ∈ result ->
              RoleHierarchyManager.other_tenant (UserContext.tenantId context) x = false
              /\ exists r n,
                   r ∈ UserContext.roles context
                   /\ ancestor (RoleService.systemRoles s) n r = Some x)).
Proof.
  intros Hctx. unfold RoleService.getEffectiveRoles. rewrite Hctx. split.
  - intros ->. now destruct (UserContext.roles context).
  - intros -> Hmiss result H.
    destruct (UserContext.roles context) as [|r0 rest] eqn:Eroles.
    { injection H as <-. split; [intros r Hr | intros x Hx]; inversion Hr || inversion Hx. }
    rewrite <- Eroles in *. clear Eroles r0 rest.
    unfold RoleHierarchyManager.resolveHierarchy in H. rewrite Hmiss in H.
    destruct (RoleHierarchyManager.resolve_each _ _ _ _ _ _) as [out| |] eqn:E;
      try discriminate.
    injection H as <-.
    destruct (resolve_each_members _ _ _ _ _ _ _ E) as (M1 & M2 & M3 & M4 & M5).
    split; [exact M4|].
    intros x Hx. destruct (M3 x Hx) as [Hin|H]; [inversion Hin | exact H].
Qed.

Lemma getEffectiveRoles_of_the_context_witness :
  let guest := Role.mk 1 "guest" "Guest" None None false (Some "t2") in
  let alice := UserContext.mk "alice" [guest] [] (Some "t1") None 0 in
  let s0 := RoleService.setUserContext example_env alice 0 fresh_service in
  let s := RoleService.configure
             (PartialRbacConfig.mk (Some false) None None None None None) 1 s0 in
  RoleService.getEffectiveRoles s = (s, Normal [guest]).
Proof.
  intros guest alice s0 s.
  apply (proj1 (getEffectiveRoles_of_the_context s alice eq_refl)). reflexivity.
Defined.

Section Configuration_reads.
Implicit Types (s : RoleService.t) (context : UserContext) (options : option Options).

(** Of the configuration, a check reads the two switches [enableCaching] and
    [enableRoleHierarchy], and nothing else. *)
Lemma checkRoleAccess_switch roleId context options s s' :
  RbacConfig.enableRoleHierarchy (RoleService.config s')
  = RbacConfig.enableRoleHierarchy (RoleService.config s) ->
  RoleService.systemRoles s' = RoleService.systemRoles s ->
  RoleService.hierarchyManager s' = RoleService.hierarchyManager s ->
  RoleService.checkRoleAccess roleId context options s'
  = RoleService.checkRoleAccess roleId context options s.
Proof.
  intros Hc Hs Hh. unfold RoleService.checkRoleAccess. now rewrite Hc, Hs, Hh.
Qed.

Lemma performPermissionCheck_switches env type identifier options now s s' :
  RbacConfig.enableCaching (RoleService.config s')
  = RbacConfig.enableCaching (RoleService.config s) ->
  RbacConfig.enableRoleHierarchy (RoleService.config s')
  = RbacConfig.enableRoleHierarchy (RoleService.config s) ->
  RoleService.userContext s' = RoleService.userContext s ->
  RoleService.systemRoles s' = RoleService.systemRoles s ->
  RoleService.contextCache s' = RoleService.contextCache s ->
  RoleService.hierarchyManager s' = RoleService.hierarchyManager s ->
  snd (RoleService.performPermissionCheck env type identifier options now s')
  = snd (RoleService.performPermissionCheck env type identifier options now s)
  /\ RoleService.contextCache
       (fst (RoleService.performPermissionCheck env type identifier options now s'))
     = RoleService.contextCache
         (fst (RoleService.performPermissionCheck env type identifier options now s)).
Proof.
  intros Hcaching Hhier Hu Hs Hc Hh. unfold RoleService.performPermissionCheck.
  rewrite Hu, Hcaching, Hc.
  destruct (RoleService.userContext s) as [context|]; [|now split].
  cbv zeta.
  assert (Hexec : forall c,
             RoleService.executePermissionCheck type identifier context options
               (RoleService.set_contextCache c s')
             = RoleService.executePermissionCheck type identifier context options s).
  { intros c. rewrite executePermissionCheck_contextCache.
    destruct type; simpl; [now apply checkRoleAccess_switch | now rewrite Hh]. }
  destruct (RbacConfig.enableCaching (RoleService.config s)) eqn:Ec.
  - destruct (LruCache.get _ now (RoleService.contextCache s)) as [c [result|]];
      [now split|].
    rewrite Hexec, executePermissionCheck_contextCache.
    destruct (RoleService.executePermissionCheck _ _ _ _ s) as [h [result|e|]];
      try (now split).
    split; [reflexivity|]. unfold RoleService.record_check. simpl.
    now rewrite Hcaching, Ec.
  - rewrite <- (executePermissionCheck_contextCache _ _ _ _
                  (RoleService.contextCache s') s'), Hexec.
    destruct (RoleService.executePermissionCheck _ _ _ _ s) as [h [result|e|]];
      try (now split).
    split; [reflexivity|]. unfold RoleService.record_check. simpl.
    now rewrite Hcaching, Ec.
Qed.

End Configuration_reads.

(** X30.  [configure] acts on the checks through its two switches only: a
    new configuration that leaves [enableCaching] and [enableRoleHierarchy]
    as they are changes the answer of no check and nothing of what the check
    caches.  The caches are not rebuilt, so a new [maxCacheSize] or
    [cacheTimeout] changes neither the capacity nor the time-to-live of the
    decision cache. *)
Theorem configure_acts_through_its_switches
    (env : JsEnv) (newConfig : PartialRbacConfig.t) (now now' : Z)
    (type : CheckType) (identifier : string) (options : option Options)
    (s : RoleService.t) :
  PartialRbacConfig.enableCaching newConfig = None ->
  PartialRbacConfig.enableRoleHierarchy newConfig = None ->
  let s' := RoleService.configure newConfig now s in
  snd (RoleService.performPermissionCheck env type identifier options now' s')
  = snd (RoleService.performPermissionCheck env type identifier options now' s)
  /\ RoleService.contextCache
       (fst (RoleService.performPermissionCheck env type identifier options now' s'))
     = RoleService.contextCache
         (fst (RoleService.performPermissionCheck env type identifier options now' s))
  /\ LruCache.maxSize (RoleService.contextCache s')
     = LruCache.maxSize (RoleService.contextCache s)
  /\ LruCache.defaultTtl (RoleService.contextCache s')
     = LruCache.defaultTtl (RoleService.contextCache s)
  /\ RbacConfig.maxCacheSize (RoleService.config s')
     = Js.nullish (PartialRbacConfig.maxCacheSize newConfig)
                  (RbacConfig.maxCacheSize (RoleService.config s)).
Proof.
  intros Hcaching Hhier s'.
  destruct (performPermissionCheck_switches env type identifier options now' s s')
    as [H1 H2]; try reflexivity.
  - unfold s'. simpl. now rewrite Hcaching.
  - unfold s'. simpl. now rewrite Hhier.
  - repeat split; assumption.
Qed.

Lemma configure_acts_through_its_switches_witness :
  let admin := Role.mk 1 "admin" "Administrator" None None true None in
  let alice := UserContext.mk "alice" [admin] [] None None 0 in
  let s := RoleService.setUserContext example_env alice 0 fresh_service in
  let s' := RoleService.configure
              (PartialRbacConfig.mk None None (Some 5) None (Some 1) None) 1 s in
  RbacConfig.maxCacheSize (RoleService.config s') = 1
  /\ LruCache.maxSize (RoleService.contextCache s') = 1000
  /\ snd (RoleService.performPermissionCheck example_env CheckRole "admin" None 2 s')
     = snd (RoleService.performPermissionCheck example_env CheckRole "admin" None 2 s).
Proof.
  intros admin alice s s'. split; [reflexivity|]. split; [reflexivity|].
  apply (configure_acts_through_its_switches example_env
           (PartialRbacConfig.mk None None (Some 5) None (Some 1) None) 1 2
           CheckRole "admin" None s);
    reflexivity.
Defined.
